(** * The Wise Riders: the decision agent [PlayerAi] of player_ai.py

    A shallow embedding of [PlayerAi.run] and of its three build-order
    strategies, and the properties of the behaviour they have.

    Conventions of the embedding.
    - Python numbers that the host hands over as floats (time, crystal,
      costs, coordinates, headings) are rationals [Q], as every finite float
      is one; counters and the mine count are integers [Z].  The numbers
      that [run] compares are compared as they are.  Those it computes
      before it compares them, the keys of its two sorts, are computed in
      the arithmetic of the host, which rounds: the embedding takes this
      arithmetic as it is ([Arith]).  A heading is 360 times a draw and is
      only handed to the host: its rounding is not modelled.
    - [info] is an insertion-ordered dict: an association list from team
      names to team records.  A team record is a dict whose four keys are
      optional: a record of options.
    - The dicts of the agent ([previous_positions], [ntanks], [nships]) are
      finite maps keyed by uid.
    - A call of a method of a host object is recorded as an [event] that
      carries the receiver; the trace of events is part of the world the
      agent runs in.  The snapshot is read as the host supplied it at the
      start of the tick.
    - [np.random.random()] is the next element of a stream of draws; the
      world counts the draws made so far.
    - Exceptions are values: a computation returns [Ok] or [Raise], and
      keeps the world it reached in both cases. *)

From Stdlib Require Import QArith ZArith String List Sorted Lia.
From stdpp Require Import base option list gmap strings.

Local Open Scope string_scope.
Local Open Scope list_scope.
Local Open Scope Z_scope.

(** ** Data model *)

Definition Uid := Z.
Definition Position := (Q * Q)%type.

(** A base of the host: the attributes and the [cost] method the agent reads. *)
Record Base := mkBase {
  base_uid : Uid;
  base_x : Q;
  base_y : Q;
  crystal : Q;
  mines : Z;
  cost : string -> Q
}.

Record Tank := mkTank {
  tank_uid : Uid;
  tank_position : Position;
  stopped : bool
}.

Definition tank_x (v : Tank) : Q := fst (tank_position v).
Definition tank_y (v : Tank) : Q := snd (tank_position v).

Record Ship := mkShip {
  ship_uid : Uid;
  ship_position : Position;
  owner : Base;
  get_distance : Q -> Q -> Q
}.

Record Jet := mkJet {
  jet_uid : Uid;
  jet_position : Position
}.

(** A team record: each of the four keys may be absent. *)
Record Team := mkTeam {
  bases : option (list Base);
  tanks : option (list Tank);
  ships : option (list Ship);
  jets : option (list Jet)
}.

Definition Info := list (string * Team).

(** The commands the agent issues on host objects. *)
Inductive event :=
| build_mine (b : Base)
| build_tank (b : Base) (heading : Q)
| build_ship (b : Base) (heading : Q)
| build_jet (b : Base) (heading : Q)
| tank_set_heading (v : Tank) (heading : Q)
| tank_goto (v : Tank) (x y : Q)
| ship_set_heading (v : Ship) (heading : Q)
| ship_convert_to_base (v : Ship)
| jet_goto (v : Jet) (x y : Q).

(** The agent: [self.team], [self.previous_positions], [self.ntanks],
    [self.nships]. *)
Record PlayerAi := mkPlayerAi {
  team : string;
  previous_positions : gmap Z Position;
  ntanks : gmap Z Z;
  nships : gmap Z Z
}.

Definition CREATOR : string := "The Wise Riders".

(** [PlayerAi.__init__] *)
Definition init : PlayerAi :=
  {| team := CREATOR; previous_positions := ∅; ntanks := ∅; nships := ∅ |}.

Record World := mkWorld {
  self : PlayerAi;
  trace : list event;
  ndraws : nat
}.

Definition fresh (a : PlayerAi) : World :=
  {| self := a; trace := []; ndraws := 0 |}.

(** ** Exceptions and the monad of the embedding *)

Inductive exn := KeyError | IndexError | TypeError | HostError.

Inductive result (A : Type) :=
| Ok (a : A)
| Raise (e : exn).
Arguments Ok {A} a.
Arguments Raise {A} e.

Definition M (A : Type) : Type := World -> result A * World.

Definition ret {A} (a : A) : M A := fun w => (Ok a, w).

Definition bind {A B} (m : M A) (k : A -> M B) : M B :=
  fun w => match m w with
           | (Ok a, w') => k a w'
           | (Raise e, w') => (Raise e, w')
           end.

Definition raise {A} (e : exn) : M A := fun w => (Raise e, w).

Declare Scope py_scope.
Delimit Scope py_scope with py.
Notation "x <- m ;; k" := (bind m (fun x => k))
  (at level 62, m at next level, right associativity) : py_scope.
Notation "m ;;; k" := (bind m (fun _ => k))
  (at level 62, right associativity) : py_scope.
Local Open Scope py_scope.

(** [try: m except Exception: pass] *)
Definition try_pass (m : M unit) : M unit :=
  fun w => match m w with
           | (Raise _, w') => (Ok tt, w')
           | r => r
           end.

(** [for x in l: body x] *)
Fixpoint for_ {A} (l : list A) (body : A -> M unit) : M unit :=
  match l with
  | [] => ret tt
  | x :: l' => body x ;;; for_ l' body
  end.

(** A loop that carries a local variable. *)
Fixpoint for_acc {A S} (l : list A) (body : A -> S -> M S) (s : S) : M S :=
  match l with
  | [] => ret s
  | x :: l' => s' <- body x s ;; for_acc l' body s'
  end.

Definition get_self : M PlayerAi := fun w => (Ok (self w), w).

Definition emit (e : event) : M unit :=
  fun w => (Ok tt, {| self := self w; trace := trace w ++ [e]; ndraws := ndraws w |}).

Definition set_previous_position (u : Uid) (p : Position) : M unit :=
  fun w => (Ok tt,
            {| self := {| team := team (self w);
                          previous_positions := <[u := p]> (previous_positions (self w));
                          ntanks := ntanks (self w);
                          nships := nships (self w) |};
               trace := trace w; ndraws := ndraws w |}).

Definition set_ntanks (u : Uid) (n : Z) : M unit :=
  fun w => (Ok tt,
            {| self := {| team := team (self w);
                          previous_positions := previous_positions (self w);
                          ntanks := <[u := n]> (ntanks (self w));
                          nships := nships (self w) |};
               trace := trace w; ndraws := ndraws w |}).

Definition set_nships (u : Uid) (n : Z) : M unit :=
  fun w => (Ok tt,
            {| self := {| team := team (self w);
                          previous_positions := previous_positions (self w);
                          ntanks := ntanks (self w);
                          nships := <[u := n]> (nships (self w)) |};
               trace := trace w; ndraws := ndraws w |}).

(** [d[k]] on a dict: KeyError when the key is absent. *)
Definition getitem {V} (d : gmap Z V) (k : Z) : M V :=
  match d !! k with
  | Some v => ret v
  | None => raise KeyError
  end.

(** [info[name]] *)
Fixpoint info_get (info : Info) (name : string) : option Team :=
  match info with
  | [] => None
  | (n, tm) :: rest => if String.eqb n name then Some tm else info_get rest name
  end.

Definition info_getitem (info : Info) (name : string) : M Team :=
  match info_get info name with
  | Some tm => ret tm
  | None => raise KeyError
  end.

(** [team["bases"]], and the like: KeyError when the key is absent. *)
Definition key {A} (field : option A) : M A :=
  match field with
  | Some v => ret v
  | None => raise KeyError
  end.

(** [team.get('bases', [])] *)
Definition get_bases (tm : Team) : list Base := default [] (bases tm).

(** Comparisons of numbers. *)
Definition Qlt_bool (a b : Q) : bool := negb (Qle_bool b a).
Definition Qgt_bool (a b : Q) : bool := Qlt_bool b a.

(** [all(p == q)] on two positions. *)
Definition position_eqb (p q : Position) : bool :=
  Qeq_bool (fst p) (fst q) && Qeq_bool (snd p) (snd q).

(** [sorted(l, key=key)]: stable, ascending, comparing keys with [<]. *)
Fixpoint insert_by {A} (key : A -> Q) (x : A) (l : list A) : list A :=
  match l with
  | [] => [x]
  | y :: l' => if Qlt_bool (key y) (key x) then y :: insert_by key x l'
               else x :: y :: l'
  end.

Definition sorted {A} (key : A -> Q) (l : list A) : list A :=
  fold_right (insert_by key) [] l.

(** [sum(l)] *)
Definition sum (l : list Q) : Q := fold_left Qplus l 0%Q.

(** ** The arithmetic of the host *)

(** The numbers of the host are Python numbers: the crystal of a base and
    the coordinates are floats, the count of its mines is an integer.  A
    sort key of [run] is computed from them by the interpreter, and each of
    its operations on floats rounds its result; the keys are then compared
    as they were computed.  The operations are those of the interpreter, not
    of the program: they are taken as they are, with nothing assumed of
    them.  [of_int] is the conversion of an integer operand that meets a
    float, [fadd], [fsub] and [fdiv] are [+], [-] and [/], [fsqr x] is
    [x ** 2] and [fsum] is the built-in [sum]. *)
Record Arith := mkArith {
  of_int : Z -> Q;
  fadd : Q -> Q -> Q;
  fsub : Q -> Q -> Q;
  fdiv : Q -> Q -> Q;
  fsqr : Q -> Q;
  fsum : list Q -> Q
}.

(** The arithmetic that does not round. *)
Definition exact_arith : Arith :=
  {| of_int := inject_Z;
     fadd := Qplus;
     fsub := Qminus;
     fdiv := Qdiv;
     fsqr := fun x => (x ^ 2)%Q;
     fsum := sum |}.

(** An arithmetic that rounds: every result is rounded to the nearest number
    with 53 significant bits, ties to the even one, as a binary64 float is
    within its range of exponents; [sum] adds from the left. *)
Definition below_pow2 (a d e : Z) : bool :=
  if 0 <=? e then a <? d * 2 ^ e else a * 2 ^ (- e) <? d.

Definition round53 (q : Q) : Q :=
  let n := Qnum q in
  let d := Zpos (Qden q) in
  if n =? 0 then 0%Q
  else
    let a := Z.abs n in
    let e0 := Z.log2 a - Z.log2 d in
    let e := if below_pow2 a d e0 then e0 - 1 else e0 in
    let s := e - 52 in
    let num := if 0 <=? s then a else a * 2 ^ (- s) in
    let den := if 0 <=? s then d * 2 ^ s else d in
    let f := num / den in
    let r := num mod den in
    let m := if 2 * r <? den then f
             else if den <? 2 * r then f + 1
             else if Z.even f then f else f + 1 in
    let res := if 0 <=? s then inject_Z (m * 2 ^ s)
               else Qmake m (Z.to_pos (2 ^ (- s))) in
    if n <? 0 then Qopp res else res.

Definition rounding_arith : Arith :=
  {| of_int := fun z => round53 (inject_Z z);
     fadd := fun x y => round53 (x + y);
     fsub := fun x y => round53 (x - y);
     fdiv := fun x y => round53 (x / y);
     fsqr := fun x => round53 (x * x);
     fsum := fun l => fold_left (fun x y => round53 (x + y)) l 0%Q |}.

(** ** The host *)

Section Host.

(** The arithmetic in which the sort keys are computed. *)
Variable arith : Arith.

(** [random i] is the value of the [i]-th call of [np.random.random()]. *)
Variable random : nat -> Q.

(** [unpack b] is the sequence that [*b] passes for a base [b], when the
    host's base class is iterable; [None] when it is not. *)
Variable unpack : Base -> option (list Q).

(** [goto_raises v x y]: does the host's [tank.goto(x, y)] raise? *)
Variable goto_raises : Tank -> Q -> Q -> bool.

Definition np_random : M Q :=
  fun w => (Ok (random (ndraws w)),
            {| self := self w; trace := trace w; ndraws := S (ndraws w) |}).

(** ** The build orders *)

(** The registration of a base seen for the first time. *)
Definition register (b : Base) : M unit :=
  a <- get_self ;;
  match ntanks a !! base_uid b with
  | Some _ => ret tt
  | None => set_ntanks (base_uid b) 0
  end ;;;
  a <- get_self ;;
  match nships a !! base_uid b with
  | Some _ => ret tt
  | None => set_nships (base_uid b) 0
  end.

Definition affordable (b : Base) (kind : string) : bool :=
  Qgt_bool (crystal b) (cost b kind).

(** [self.ntanks[base.uid] < n] *)
Definition ntanks_lt (b : Base) (n : Z) : M bool :=
  a <- get_self ;; c <- getitem (ntanks a) (base_uid b) ;; ret (c <? n).

Definition nships_lt (b : Base) (n : Z) : M bool :=
  a <- get_self ;; c <- getitem (nships a) (base_uid b) ;; ret (c <? n).

Definition nships_ge (b : Base) (n : Z) : M bool :=
  a <- get_self ;; c <- getitem (nships a) (base_uid b) ;; ret (n <=? c).

(** [x and y], with [y] evaluated only when [x] holds. *)
Definition and_ (x : bool) (y : M bool) : M bool :=
  if x then y else ret false.

(** [base.build_tank(heading=360 * np.random.random())] and the increment
    of the counter. *)
Definition do_build_tank (b : Base) : M unit :=
  r <- np_random ;;
  emit (build_tank b (360 * r)%Q) ;;;
  a <- get_self ;;
  c <- getitem (ntanks a) (base_uid b) ;;
  set_ntanks (base_uid b) (c + 1).

Definition do_build_ship (b : Base) : M unit :=
  r <- np_random ;;
  emit (build_ship b (360 * r)%Q) ;;;
  a <- get_self ;;
  c <- getitem (nships a) (base_uid b) ;;
  set_nships (base_uid b) (c + 1).

Definition do_build_jet (b : Base) : M unit :=
  r <- np_random ;;
  emit (build_jet b (360 * r)%Q).

Definition max_ships_per_base : Z := 6.
Definition max_mines_per_base : Z := 3.

(** The body of the loop of [strategy_early]. *)
Definition early_base (b : Base) : M unit :=
  register b ;;;
  if mines b <? max_mines_per_base then
    if affordable b "mine" then emit (build_mine b) else ret tt
  else
    c1 <- and_ (affordable b "tank") (ntanks_lt b 2) ;;
    if c1 then do_build_tank b
    else
      c2 <- and_ (affordable b "ship") (nships_lt b max_ships_per_base) ;;
      if c2 then do_build_ship b
      else
        c3 <- and_ (affordable b "tank")
                (t5 <- ntanks_lt b 5 ;;
                 and_ t5 (nships_ge b max_ships_per_base)) ;;
        if c3 then do_build_tank b
        else
          if affordable b "jet" then do_build_jet b else ret tt.

(** The body of the loop of [strategy_midgame]. *)
Definition midgame_base (b : Base) : M unit :=
  register b ;;;
  if mines b <? 2 then
    if affordable b "mine" then emit (build_mine b) else ret tt
  else
    c1 <- and_ (affordable b "tank") (ntanks_lt b 2) ;;
    if c1 then do_build_tank b
    else
      c2 <- and_ (affordable b "ship") (nships_lt b 2) ;;
      if c2 then do_build_ship b
      else
        if affordable b "jet" then do_build_jet b else ret tt.

(** The body of the loop of [strategy_lategame]. *)
Definition lategame_base (b : Base) : M unit :=
  register b ;;;
  if affordable b "jet" then do_build_jet b else ret tt.

Definition strategy (body : Base -> M unit) (info : Info) : M unit :=
  a <- get_self ;;
  myinfo <- info_getitem info (team a) ;;
  bs <- key (bases myinfo) ;;
  for_ bs body.

Definition strategy_early : Info -> M unit := strategy early_base.
Definition strategy_midgame : Info -> M unit := strategy midgame_base.
Definition strategy_lategame : Info -> M unit := strategy lategame_base.

(** ** [run] *)

(** The first target computation of [run]: the first base of an enemy that
    has the key "bases".  Its value is overwritten before any vehicle reads
    it; indexing an empty list raises. *)
Definition first_target (me : string) (info : Info) : M (option Position) :=
  if (1 <? length info)%nat then
    for_acc (map fst info)
      (fun name target =>
         if negb (String.eqb name me) then
           tm <- info_getitem info name ;;
           match bases tm with
           | Some bs =>
               match bs with
               | [] => raise IndexError
               | t :: _ => ret (Some (base_x t, base_y t))
               end
           | None => ret target
           end
         else ret target)
      None
  else ret None.

(** [[base for name in info for base in info[name].get('bases', [])
      if name != self.team]] *)
Definition enemy_bases (me : string) (info : Info) : list Base :=
  flat_map
    (fun name =>
       flat_map (fun base => if negb (String.eqb name me) then [base] else [])
                (from_option get_bases [] (info_get info name)))
    (map fst info).

(** The key of the sort of the tank loop:
    [(b.x - tank.x) ** 2 + (b.y - tank.y) ** 2]. *)
Definition dist2 (v : Tank) (b : Base) : Q :=
  fadd arith (fsqr arith (fsub arith (base_x b) (tank_x v)))
             (fsqr arith (fsub arith (base_y b) (tank_y v))).

(** [tank.goto( *tank_target)] with a base as [tank_target]. *)
Definition goto_unpacked (v : Tank) (b : Base) : M unit :=
  match unpack b with
  | Some [x; y] =>
      emit (tank_goto v x y) ;;;
      if goto_raises v x y then raise HostError else ret tt
  | Some _ => raise TypeError
  | None => raise TypeError
  end.

(** The body of the loop over my tanks. *)
Definition tank_step (info : Info) (v : Tank) : M unit :=
  a <- get_self ;;
  let bases := enemy_bases (team a) info in
  let nearest_base := sorted (dist2 v) bases in
  let tank_target := head nearest_base in
  (match previous_positions a !! tank_uid v with
   | Some prev =>
       if negb (stopped v) then
         if position_eqb (tank_position v) prev then
           r <- np_random ;; emit (tank_set_heading v (r * 360)%Q)
         else
           match tank_target with
           | Some b => try_pass (goto_unpacked v b)
           | None => ret tt
           end
       else ret tt
   | None => ret tt
   end) ;;;
  set_previous_position (tank_uid v) (tank_position v).

(** The body of the loop over my ships. *)
Definition ship_step (v : Ship) : M unit :=
  a <- get_self ;;
  (match previous_positions a !! ship_uid v with
   | Some prev =>
       if position_eqb (ship_position v) prev then
         if Qgt_bool (get_distance v (base_x (owner v)) (base_y (owner v))) 20
         then emit (ship_convert_to_base v)
         else r <- np_random ;; emit (ship_set_heading v (r * 360)%Q)
       else ret tt
   | None => ret tt
   end) ;;;
  set_previous_position (ship_uid v) (ship_position v).

(** [base.mines * 10 + base.crystal/10]: the product is one of integers,
    the quotient and the sum are computed on floats. *)
Definition determine_base_power (base : Base) : Q :=
  fadd arith (of_int arith (mines base * 10))
             (fdiv arith (crystal base) (of_int arith 10)).

(** [100 * len(bases) + sum(determine_base_power(base) for base in bases)] *)
Definition determine_power (tm : Team) : Q :=
  fadd arith (of_int arith (100 * Z.of_nat (length (get_bases tm))))
             (fsum arith (map determine_base_power (get_bases tm))).

(** The target of the jets. *)
Definition jet_target (me : string) (info : Info) : option Position :=
  if (1 <? length info)%nat then
    let teams :=
      map snd (List.filter (fun nt => negb (String.eqb (fst nt) me)) info) in
    let by_power := sorted determine_power teams in
    match last by_power with
    | Some strongest_enemy =>
        match bases strongest_enemy with
        | None => Some (75, 75)%Q
        | Some bs =>
            match last (sorted determine_base_power bs) with
            | None => Some (75, 75)%Q
            | Some strongest_base =>
                Some (base_x strongest_base, base_y strongest_base)
            end
        end
    | None => None
    end
  else None.

(** The body of the loop over my jets. *)
Definition jet_step (target : option Position) (v : Jet) : M unit :=
  match target with
  | Some (x, y) => emit (jet_goto v x y)
  | None => ret tt
  end.

(** [if k in myinfo: for v in myinfo[k]: body v] *)
Definition for_key {A} (field : option (list A)) (body : A -> M unit) : M unit :=
  match field with
  | Some l => for_ l body
  | None => ret tt
  end.

(** The choice of the build order by the time. *)
Definition build (t : Q) (info : Info) : M unit :=
  if Qlt_bool t 180 then strategy_early info
  else if Qlt_bool t 360 then strategy_midgame info
  else strategy_lategame info.

(** What [run] does after the build order: the control of the vehicles. *)
Definition control (info : Info) : M unit :=
  a <- get_self ;;
  myinfo <- info_getitem info (team a) ;;
  _ <- first_target (team a) info ;;
  for_key (tanks myinfo) (tank_step info) ;;;
  for_key (ships myinfo) ship_step ;;;
  let target := jet_target (team a) info in
  for_key (jets myinfo) (jet_step target).

Definition run (t dt : Q) (info : Info) (game_map : list (list Z)) : M unit :=
  build t info ;;; control info.

End Host.


(** ** Observations of a computation *)

(** The world a computation leaves, and how it ends. *)
Definition after {A} (m : M A) (w : World) : World := snd (m w).
Definition outcome {A} (m : M A) (w : World) : result A := fst (m w).

(** The commands issued by a computation started in [w]. *)
Definition issued {A} (m : M A) (w : World) : list event :=
  drop (length (trace w)) (trace (after m w)).

(** The host that the specification describes. *)

(** Modelled from the spec: the class of the host's bases is not part of the
    sources.  The data model gives a base a position, a resource balance, a
    mine count, a cost function and command methods, and no sequence
    protocol: unpacking a base as call arguments raises. *)
Definition plain_object : Base -> option (list Q) := fun _ => None.

Definition goto_succeeds : Tank -> Q -> Q -> bool := fun _ _ _ => false.

(** A relation between the world before and the world after that every
    step of a computation keeps. *)
Definition respects (R : World -> World -> Prop) {A} (m : M A) : Prop :=
  forall w, R w (after m w).

(** What a part of [run] may do: it issues only commands in [E], it changes
    [previous_positions] only at the uids in [U], it removes no entry of it,
    and it only adds to the draws. *)
Record frame (E : event -> Prop) (U : Uid -> Prop) (w w' : World) : Prop :=
  mkFrame {
    frame_trace : exists evs, trace w' = trace w ++ evs /\ Forall E evs;
    frame_positions :
      forall u, ~ U u ->
        previous_positions (self w') !! u = previous_positions (self w) !! u;
    frame_kept :
      forall u, is_Some (previous_positions (self w) !! u) ->
        is_Some (previous_positions (self w') !! u);
    frame_team : team (self w') = team (self w);
    frame_draws : (ndraws w <= ndraws w')%nat
  }.

(** The receivers of the commands. *)
Definition on_base (b : Base) (e : event) : Prop :=
  match e with
  | build_mine b' | build_tank b' _ | build_ship b' _ | build_jet b' _ => b' = b
  | _ => False
  end.

Definition is_build (e : event) : Prop :=
  match e with
  | build_mine _ | build_tank _ _ | build_ship _ _ | build_jet _ _ => True
  | _ => False
  end.

(** The construction of a vehicle, as opposed to that of a mine. *)
Definition builds_vehicle (e : event) : Prop :=
  match e with
  | build_tank _ _ | build_ship _ _ | build_jet _ _ => True
  | _ => False
  end.

Definition is_jet_event (e : event) : bool :=
  match e with
  | jet_goto _ _ _ => true
  | _ => false
  end.

(** The commands on the tank, or on the ship, of a given uid. *)
Definition on_tank (u : Uid) (e : event) : bool :=
  match e with
  | tank_set_heading v _ | tank_goto v _ _ => Z.eqb (tank_uid v) u
  | _ => false
  end.

Definition on_ship (u : Uid) (e : event) : bool :=
  match e with
  | ship_set_heading v _ | ship_convert_to_base v => Z.eqb (ship_uid v) u
  | _ => false
  end.

(** ** The build orders as tables

    The decision of a build order for one base, as a function of the base
    and of the two counters of the base, and the effect of a decision on
    the world.  The loops of the strategies are compared with them. *)

Inductive kind := a_mine | a_tank | a_ship | a_jet.

(** The count of a base uid that is not registered yet is the count it is
    registered with. *)
Definition count (m : gmap Z Z) (u : Uid) : Z := default 0 (m !! u).

Definition register_counter (m : gmap Z Z) (u : Uid) : gmap Z Z :=
  match m !! u with
  | Some _ => m
  | None => <[u := 0]> m
  end.

Definition registered (b : Base) (w : World) : World :=
  {| self := {| team := team (self w);
                previous_positions := previous_positions (self w);
                ntanks := register_counter (ntanks (self w)) (base_uid b);
                nships := register_counter (nships (self w)) (base_uid b) |};
     trace := trace w;
     ndraws := ndraws w |}.

(** Early: a base with fewer than 3 mines builds a mine when it can afford
    one and nothing otherwise; a base with 3 mines or more builds the first
    of: a tank (fewer than 2 tanks built here), a ship (fewer than 6 ships
    built here), a tank (fewer than 5 tanks and at least 6 ships built
    here), a jet, that it can afford. *)
Definition early_choice (b : Base) (nt ns : Z) : option kind :=
  if mines b <? 3 then
    if affordable b "mine" then Some a_mine else None
  else if affordable b "tank" && (nt <? 2) then Some a_tank
  else if affordable b "ship" && (ns <? 6) then Some a_ship
  else if affordable b "tank" && (nt <? 5) && (6 <=? ns) then Some a_tank
  else if affordable b "jet" then Some a_jet
  else None.

(** The reading of the early build order as a chain of five guards, each
    with its own test of affordability. *)
Definition early_chain (b : Base) (nt ns : Z) : option kind :=
  if (mines b <? 3) && affordable b "mine" then Some a_mine
  else if affordable b "tank" && (nt <? 2) then Some a_tank
  else if affordable b "ship" && (ns <? 6) then Some a_ship
  else if affordable b "tank" && (nt <? 5) && (6 <=? ns) then Some a_tank
  else if affordable b "jet" then Some a_jet
  else None.

Definition midgame_choice (b : Base) (nt ns : Z) : option kind :=
  if mines b <? 2 then
    if affordable b "mine" then Some a_mine else None
  else if affordable b "tank" && (nt <? 2) then Some a_tank
  else if affordable b "ship" && (ns <? 2) then Some a_ship
  else if affordable b "jet" then Some a_jet
  else None.

Definition lategame_choice (b : Base) (nt ns : Z) : option kind :=
  if affordable b "jet" then Some a_jet else None.

(** The command of a decision; the heading of a vehicle is 360 times the
    draw [r]. *)
Definition command (b : Base) (r : Q) (c : kind) : event :=
  match c with
  | a_mine => build_mine b
  | a_tank => build_tank b (360 * r)%Q
  | a_ship => build_ship b (360 * r)%Q
  | a_jet => build_jet b (360 * r)%Q
  end.

Definition bump (m : gmap Z Z) (u : Uid) : gmap Z Z := <[u := count m u + 1]> m.

(** The effect of a decision: the command, one draw for a vehicle, and the
    counter of the tanks or of the ships of the base one up. *)
Definition perform (random : nat -> Q) (b : Base) (c : option kind) (w : World)
  : World :=
  match c with
  | None => w
  | Some k =>
      {| self :=
           {| team := team (self w);
              previous_positions := previous_positions (self w);
              ntanks := match k with
                        | a_tank => bump (ntanks (self w)) (base_uid b)
                        | _ => ntanks (self w)
                        end;
              nships := match k with
                        | a_ship => bump (nships (self w)) (base_uid b)
                        | _ => nships (self w)
                        end |};
         trace := trace w ++ [command b (random (ndraws w)) k];
         ndraws := match k with a_mine => ndraws w | _ => S (ndraws w) end |}
  end.

(** One base handled by a build order given as a table. *)
Definition decide_base (random : nat -> Q) (table : Base -> Z -> Z -> option kind)
    (b : Base) (w : World) : World :=
  perform random b
    (table b (count (ntanks (self w)) (base_uid b))
             (count (nships (self w)) (base_uid b)))
    (registered b w).

(** The commands of a decision, as a list. *)
Definition commands (b : Base) (r : Q) (c : option kind) : list event :=
  match c with
  | Some k => [command b r k]
  | None => []
  end.

(** The receiver of a command on a vehicle. *)
Definition of_tank (v : Tank) (e : event) : Prop :=
  match e with
  | tank_set_heading v' _ | tank_goto v' _ _ => v' = v
  | _ => False
  end.

Definition of_ship (v : Ship) (e : event) : Prop :=
  match e with
  | ship_set_heading v' _ | ship_convert_to_base v' => v' = v
  | _ => False
  end.

Definition of_jet (v : Jet) (e : event) : Prop :=
  match e with
  | jet_goto v' _ _ => v' = v
  | _ => False
  end.

Definition nobody : Uid -> Prop := fun _ => False.

(** A whole build order, as the iteration of its table over the bases. *)
Definition decide_bases (random : nat -> Q) (table : Base -> Z -> Z -> option kind)
    (bs : list Base) (w : World) : World :=
  fold_left (fun w b => decide_base random table b w) bs w.

(** The table of the build order at time [t]. *)
Definition table_at (t : Q) : Base -> Z -> Z -> option kind :=
  if Qlt_bool t 180 then early_choice
  else if Qlt_bool t 360 then midgame_choice
  else lategame_choice.

(** My record and my bases, when [info] has them. *)
Definition my_bases (a : PlayerAi) (info : Info) : option (list Base) :=
  match info_get info (team a) with
  | Some myinfo => bases myinfo
  | None => None
  end.

(** The worlds after the three loops of [control]. *)
Section Loops.

Variable arith : Arith.
Variable random : nat -> Q.
Variable unpack : Base -> option (list Q).
Variable goto_raises : Tank -> Q -> Q -> bool.

Definition after_tanks (info : Info) (myinfo : Team) (w : World) : World :=
  after (for_key (tanks myinfo) (tank_step arith random unpack goto_raises info)) w.

Definition after_ships (info : Info) (myinfo : Team) (w : World) : World :=
  after (for_key (ships myinfo) (ship_step random)) (after_tanks info myinfo w).

Definition after_jets (info : Info) (myinfo : Team) (w : World) : World :=
  after (for_key (jets myinfo) (jet_step (jet_target arith (team (self w)) info)))
        (after_ships info myinfo w).

End Loops.

(** A list in ascending order of its keys. *)
Definition ascending {A} (key : A -> Q) (l : list A) : Prop :=
  StronglySorted (fun a b => (key a <= key b)%Q) l.

(** [m] is an element of [l] with the greatest key, or with the least. *)
Definition greatest {A} (key : A -> Q) (l : list A) (m : A) : Prop :=
  In m l /\ forall y, In y l -> (key y <= key m)%Q.

Definition least {A} (key : A -> Q) (l : list A) (m : A) : Prop :=
  In m l /\ forall y, In y l -> (key m <= key y)%Q.

(** The power score of the specification: for a base, 10 per mine and a
    tenth of its crystal; for a team, 100 per base and the scores of its
    bases. *)
Definition base_score (b : Base) : Q :=
  (inject_Z (mines b) * 10 + crystal b / 10)%Q.

Fixpoint total_score (bs : list Base) : Q :=
  match bs with
  | [] => 0%Q
  | b :: bs' => (base_score b + total_score bs')%Q
  end.

Definition power_score (bs : list Base) : Q :=
  (100 * inject_Z (Z.of_nat (length bs)) + total_score bs)%Q.

(** The enemy records, in the order of [info]. *)
Definition enemies (me : string) (info : Info) : list Team :=
  map snd (List.filter (fun nt => negb (String.eqb (fst nt) me)) info).

(** [jet.goto( *target)] for each jet of a list. *)
Definition gotos (target : Position) (l : list Jet) : list event :=
  map (fun v => jet_goto v (fst target) (snd target)) l.

(** The commands to the jets of a team record. *)
Definition jet_commands (target : option Position) (field : option (list Jet))
  : list event :=
  match target with
  | Some p => gotos p (default [] field)
  | None => []
  end.

(** The uids of the tanks and of the ships of a team record. *)
Definition tank_uids (tm : Team) : list Uid := map tank_uid (default [] (tanks tm)).
Definition ship_uids (tm : Team) : list Uid := map ship_uid (default [] (ships tm)).

Definition tank_commands (tm : Team) (e : event) : Prop :=
  exists v, In v (default [] (tanks tm)) /\ of_tank v e.

Definition ship_commands (tm : Team) (e : event) : Prop :=
  exists v, In v (default [] (ships tm)) /\ of_ship v e.

(** The decision of [ship_step] for a ship whose recorded position is [prev],
    when [n] draws were made. *)
Definition ship_decision (random : nat -> Q) (v : Ship) (prev : option Position)
    (n : nat) : list event :=
  match prev with
  | Some p =>
      if position_eqb (ship_position v) p then
        if Qgt_bool (get_distance v (base_x (owner v)) (base_y (owner v))) 20
        then [ship_convert_to_base v]
        else [ship_set_heading v (random n * 360)%Q]
      else []
  | None => []
  end.

(** The draws that a list of commands has consumed: one for each heading. *)
Definition draw_count (evs : list event) : nat :=
  length (List.filter
            (fun e => match e with
                      | tank_set_heading _ _ | ship_set_heading _ _
                      | build_tank _ _ | build_ship _ _ | build_jet _ _ => true
                      | _ => false
                      end) evs).

Definition record_position (u : Uid) (p : Position) (a : PlayerAi) : PlayerAi :=
  {| team := team a;
     previous_positions := <[u := p]> (previous_positions a);
     ntanks := ntanks a;
     nships := nships a |}.

(** The decision of [tank_step] for a tank of the team [me] whose recorded
    position is [prev], when [n] draws were made.  The goto is issued when
    the nearest enemy base unpacks to two arguments. *)
Definition tank_decision (arith : Arith) (random : nat -> Q) (unpack : Base -> option (list Q))
    (me : string) (info : Info) (v : Tank) (prev : option Position) (n : nat)
  : list event :=
  match prev with
  | Some p =>
      if negb (stopped v) then
        if position_eqb (tank_position v) p then
          [tank_set_heading v (random n * 360)%Q]
        else
          match head (sorted (dist2 arith v) (enemy_bases me info)) with
          | Some b =>
              match unpack b with
              | Some [x; y] => [tank_goto v x y]
              | _ => []
              end
          | None => []
          end
      else []
  | None => []
  end.

Definition is_goto (e : event) : bool :=
  match e with
  | tank_goto _ _ _ => true
  | _ => false
  end.

(** A host whose bases unpack to their coordinates. *)
Definition as_pair : Base -> option (list Q) :=
  fun b => Some [base_x b; base_y b].

(** ** Calls in sequence and the counters *)

Record call := mkCall {
  call_t : Q;
  call_dt : Q;
  call_info : Info;
  call_map : list (list Z)
}.

(** The world after a sequence of calls of [run] on one agent. *)
Definition run_all (arith : Arith) (random : nat -> Q) (unpack : Base -> option (list Q))
    (goto_raises : Tank -> Q -> Q -> bool) (calls : list call) (w : World)
  : World :=
  fold_left
    (fun w c =>
       after (run arith random unpack goto_raises
                  (call_t c) (call_dt c) (call_info c) (call_map c)) w)
    calls w.

Definition builds_tank_at (u : Uid) (e : event) : bool :=
  match e with
  | build_tank b _ => Z.eqb (base_uid b) u
  | _ => false
  end.

Definition builds_ship_at (u : Uid) (e : event) : bool :=
  match e with
  | build_ship b _ => Z.eqb (base_uid b) u
  | _ => false
  end.

(** The number of tanks, and of ships, that a list of commands builds at the
    bases of uid [u]. *)
Definition built_tanks (u : Uid) (evs : list event) : Z :=
  Z.of_nat (length (List.filter (builds_tank_at u) evs)).

Definition built_ships (u : Uid) (evs : list event) : Z :=
  Z.of_nat (length (List.filter (builds_ship_at u) evs)).

(** A tank, or a ship, build is issued at a base of uid [u]. *)
Definition tank_built_at (u : Uid) (evs : list event) : Prop :=
  exists b h, In (build_tank b h) evs /\ base_uid b = u.

Definition ship_built_at (u : Uid) (evs : list event) : Prop :=
  exists b h, In (build_ship b h) evs /\ base_uid b = u.

(** How the counters of the uid [u] change from [w] to [w'] while the
    commands [evs] are issued: each counter goes up by the number of builds,
    and no uid leaves a counter. *)
Record grows (u : Uid) (evs : list event) (w w' : World) : Prop := mkGrows {
  grows_trace : trace w' = trace w ++ evs;
  grows_tanks :
    count (ntanks (self w')) u = count (ntanks (self w)) u + built_tanks u evs;
  grows_ships :
    count (nships (self w')) u = count (nships (self w)) u + built_ships u evs;
  grows_tank_keys :
    is_Some (ntanks (self w) !! u) -> is_Some (ntanks (self w') !! u);
  grows_ship_keys :
    is_Some (nships (self w) !! u) -> is_Some (nships (self w') !! u)
}.

(** The counters are as they were. *)
Definition same_counters (w w' : World) : Prop :=
  ntanks (self w') = ntanks (self w) /\ nships (self w') = nships (self w).

(** ** Further observations of the commands *)

(** The argument of [base.cost] for each kind of construction. *)
Definition kind_name (k : kind) : string :=
  match k with
  | a_mine => "mine"
  | a_tank => "tank"
  | a_ship => "ship"
  | a_jet => "jet"
  end.

(** The base and the kind of a construction command. *)
Definition built (e : event) : option (Base * kind) :=
  match e with
  | build_mine b => Some (b, a_mine)
  | build_tank b _ => Some (b, a_tank)
  | build_ship b _ => Some (b, a_ship)
  | build_jet b _ => Some (b, a_jet)
  | _ => None
  end.

(** The constructions at the bases of uid [u]. *)
Definition builds_at (u : Uid) (e : event) : bool :=
  match built e with
  | Some (b, _) => Z.eqb (base_uid b) u
  | None => false
  end.

(** The heading that a command carries. *)
Definition heading_of (e : event) : option Q :=
  match e with
  | build_tank _ h | build_ship _ h | build_jet _ h
  | tank_set_heading _ h | ship_set_heading _ h => Some h
  | _ => None
  end.

(** The caps of the build orders on the counters: 5 tanks and 6 ships for
    each base uid. *)
Definition capped (w : World) : Prop :=
  forall u, count (ntanks (self w)) u <= 5 /\ count (nships (self w)) u <= 6.

(** A command whose heading, if it carries one, is in [0, 360). *)
Definition heading_ok (e : event) : Prop :=
  match heading_of e with
  | Some h => (0 <= h < 360)%Q
  | None => True
  end.

(** [m] is the last element of [l] among those with the greatest key: what
    comes before has a key at most that of [m], what comes after a smaller
    one.  And the first among those with the least key. *)
Definition latest_greatest {A} (key : A -> Q) (l : list A) (m : A) : Prop :=
  exists l1 l2,
    l = l1 ++ m :: l2
    /\ (forall y, In y l1 -> (key y <= key m)%Q)
    /\ (forall y, In y l2 -> (key y < key m)%Q).

Definition earliest_least {A} (key : A -> Q) (l : list A) (m : A) : Prop :=
  exists l1 l2,
    l = l1 ++ m :: l2
    /\ (forall y, In y l1 -> (key m < key y)%Q)
    /\ (forall y, In y l2 -> (key m <= key y)%Q).

(** The draws made from [w] to [w'] are as many as the headings in the
    commands issued in between. *)
Definition tallied (w w' : World) : Prop :=
  exists evs,
    trace w' = trace w ++ evs
    /\ ndraws w' = (ndraws w + draw_count evs)%nat.

(** The order of the early build: a base has more than 2 tanks built only
    once it has 6 ships built. *)
Definition staged (w : World) : Prop :=
  forall u, count (ntanks (self w)) u <= 2 \/ 6 <= count (nships (self w)) u.

(** A command on a base or on a vehicle of a team record. *)
Definition addressed_to (tm : Team) (e : event) : Prop :=
  (exists b, In b (get_bases tm) /\ on_base b e)
  \/ tank_commands tm e
  \/ ship_commands tm e
  \/ (exists v, In v (default [] (jets tm)) /\ of_jet v e).

(** The snapshots on which [run] returns: my own record has the key
    "bases", and no enemy record maps the key "bases" to an empty list. *)
Definition handled (a : PlayerAi) (info : Info) : Prop :=
  is_Some (my_bases a info)
  /\ forall name tm, In (name, tm) info -> name <> team a -> bases tm <> Some [].

Definition no_bases (tm : Team) : bool :=
  match bases tm with
  | Some [] => true
  | _ => false
  end.

Definition handledb (a : PlayerAi) (info : Info) : bool :=
  match my_bases a info with
  | Some _ =>
      forallb (fun nt => String.eqb (fst nt) (team a) || negb (no_bases (snd nt)))
              info
  | None => false
  end.

(** ** Sample snapshots *)

Module Sample.

(** A random source that always draws one half. *)
Definition half : nat -> Q := fun _ => (1 # 2)%Q.

(** The scenario of the specification: my base has no mine and 100
    crystal, everything costs 50; the enemy has one base at (10, 10). *)
Definition home : Base := mkBase 1 0 0 100 0 (fun _ => 50%Q).
Definition enemy_base : Base := mkBase 2 10 10 20 1 (fun _ => 50%Q).
Definition enemy : Team := mkTeam (Some [enemy_base]) None None None.

Definition scenario : Info :=
  [(CREATOR, mkTeam (Some [home]) None None None); ("Enemy", enemy)].

(** My record without the key "bases". *)
Definition no_bases_key : Info :=
  [(CREATOR, mkTeam None None None None); ("Enemy", enemy)].

(** An enemy record without any key. *)
Definition bare_enemy : Info :=
  [(CREATOR, mkTeam (Some [home]) None None None);
   ("Enemy", mkTeam None None None None)].

(** An enemy whose key "bases" maps to the empty list. *)
Definition empty_enemy : Info :=
  [(CREATOR, mkTeam (Some [home]) None None None);
   ("Enemy", mkTeam (Some []) None None None)].

(** Two enemies: the first has two poor bases (power 206), the second one
    rich base (power 230) at (30, 40); and a jet of mine. *)
Definition hut_a : Base := mkBase 10 1 1 10 0 (fun _ => 50%Q).
Definition hut_b : Base := mkBase 11 2 2 20 0 (fun _ => 50%Q).
Definition fort : Base := mkBase 12 30 40 300 10 (fun _ => 50%Q).
Definition my_jet : Jet := mkJet 20 (5, 5)%Q.

Definition two_enemies : Info :=
  [("Huts", mkTeam (Some [hut_a; hut_b]) None None None);
   (CREATOR, mkTeam (Some [home]) None None (Some [my_jet]));
   ("Fort", mkTeam (Some [fort]) None None None)].

(** A ship of mine that lies 30 away from its base, one that lies 5 away,
    and an agent that saw both where they are. *)
Definition far_ship : Ship := mkShip 31 (40, 0)%Q home (fun _ _ => 30%Q).
Definition near_ship : Ship := mkShip 32 (5, 0)%Q home (fun _ _ => 5%Q).

Definition fleet : Info :=
  [(CREATOR, mkTeam (Some [home]) None (Some [far_ship; near_ship]) None);
   ("Enemy", enemy)].

Definition saw_fleet : PlayerAi :=
  {| team := CREATOR;
     previous_positions := <[31 := (40, 0)%Q]> (<[32 := (5, 0)%Q]> ∅);
     ntanks := ∅;
     nships := ∅ |}.

(** A tank of mine at (3, 4), not stopped, and an agent that saw it at
    (0, 0); the enemy has a base. *)
Definition rover : Tank := mkTank 7 (3, 4)%Q false.

Definition patrol : Info :=
  [(CREATOR, mkTeam (Some [home]) (Some [rover]) None None);
   ("Enemy", enemy)].

Definition saw_rover : PlayerAi :=
  {| team := CREATOR;
     previous_positions := <[7 := (0, 0)%Q]> ∅;
     ntanks := ∅;
     nships := ∅ |}.

(** An agent that saw the tank where it is. *)
Definition at_rover : PlayerAi :=
  {| team := CREATOR;
     previous_positions := <[7 := (3, 4)%Q]> ∅;
     ntanks := ∅;
     nships := ∅ |}.

(** A base with its mines, 100 crystal and flat costs of 50: in the early
    phase it builds a tank in each of its first two calls. *)
Definition barracks : Base := mkBase 5 0 0 100 3 (fun _ => 50%Q).

Definition garrison : Info :=
  [(CREATOR, mkTeam (Some [barracks]) None None None); ("Enemy", enemy)].

Definition tick (t : Q) : call := mkCall t 1 garrison [].

(** A base with its mines and so much crystal that it always builds, and
    twelve early calls on it. *)
Definition depot : Base := mkBase 6 0 0 100000 3 (fun _ => 50%Q).

Definition arsenal : Info :=
  [(CREATOR, mkTeam (Some [depot]) None None None); ("Enemy", enemy)].

Definition twelve_ticks : list call :=
  repeat (mkCall 0 1 arsenal []) 12.

(** A snapshot with a base that builds, a stuck tank and two stuck ships,
    for an agent that saw the three where they are. *)
Definition parade : Info :=
  [(CREATOR, mkTeam (Some [barracks]) (Some [rover])
                    (Some [far_ship; near_ship]) (Some [my_jet]));
   ("Enemy", enemy)].

Definition saw_parade : PlayerAi :=
  {| team := CREATOR;
     previous_positions :=
       <[7 := (3, 4)%Q]> (<[31 := (40, 0)%Q]> (<[32 := (5, 0)%Q]> ∅));
     ntanks := ∅;
     nships := ∅ |}.

(** The same snapshot with an enemy whose key "bases" maps to the empty
    list, and with my record without the key "bases". *)
Definition parade_empty : Info :=
  [(CREATOR, mkTeam (Some [barracks]) (Some [rover])
                    (Some [far_ship; near_ship]) (Some [my_jet]));
   ("Enemy", mkTeam (Some []) None None None)].

Definition parade_homeless : Info :=
  [(CREATOR, mkTeam None (Some [rover])
                    (Some [far_ship; near_ship]) (Some [my_jet]));
   ("Enemy", enemy)].

(** A stopped tank of mine that does not move, for an agent that saw it
    where it is. *)
Definition parked : Tank := mkTank 8 (1, 1)%Q true.

Definition garage : Info :=
  [(CREATOR, mkTeam (Some [home]) (Some [parked]) None None);
   ("Enemy", enemy)].

Definition saw_parked : PlayerAi :=
  {| team := CREATOR;
     previous_positions := <[8 := (1, 1)%Q]> ∅;
     ntanks := ∅;
     nships := ∅ |}.

(** Two enemy bases at the same distance, 5, of the tank [rover] at (3, 4):
    one at (0, 0) and one at (6, 8), in this order. *)
Definition west : Base := mkBase 40 0 0 10 0 (fun _ => 50%Q).
Definition east : Base := mkBase 41 6 8 10 0 (fun _ => 50%Q).

Definition crossroads : Info :=
  [(CREATOR, mkTeam (Some [home]) (Some [rover]) None (Some [my_jet]));
   ("Enemy", mkTeam (Some [west; east]) None None None)].

(** Two enemies of the same power (hut_a alone, and a base like it at
    (9, 9)), in this order. *)
Definition hut_c : Base := mkBase 13 9 9 10 0 (fun _ => 50%Q).

Definition twins : Info :=
  [("First", mkTeam (Some [hut_a]) None None None);
   (CREATOR, mkTeam (Some [home]) None None (Some [my_jet]));
   ("Second", mkTeam (Some [hut_c]) None None None)].

(** Two enemies whose scores differ by 1 before rounding: a base at (1, 1)
    with 10^17 + 10 crystal, and then a base at (2, 2) with 10^17. *)
Definition giant_a : Base := mkBase 50 1 1 100000000000000010 0 (fun _ => 50%Q).
Definition giant_b : Base := mkBase 51 2 2 100000000000000000 0 (fun _ => 50%Q).

Definition giants : Info :=
  [("First", mkTeam (Some [giant_a]) None None None);
   (CREATOR, mkTeam (Some [home]) None None (Some [my_jet]));
   ("Second", mkTeam (Some [giant_b]) None None None)].

(** Two enemy bases whose squared distances to a tank at (0, 0) differ by 1
    before rounding: one at (10^8, 1) and then one at (10^8, 0); the agent
    saw the tank at (1, 1). *)
Definition scout : Tank := mkTank 9 (0, 0)%Q false.
Definition beacon_a : Base := mkBase 52 100000000 1 10 0 (fun _ => 50%Q).
Definition beacon_b : Base := mkBase 53 100000000 0 10 0 (fun _ => 50%Q).

Definition far_away : Info :=
  [(CREATOR, mkTeam (Some [home]) (Some [scout]) None None);
   ("Enemy", mkTeam (Some [beacon_a; beacon_b]) None None None)].

Definition saw_scout : PlayerAi :=
  {| team := CREATOR;
     previous_positions := <[9 := (1, 1)%Q]> ∅;
     ntanks := ∅;
     nships := ∅ |}.

(** A base that cannot pay a mine (200) and can pay a tank (50). *)
Definition poor : Base :=
  mkBase 3 0 0 100 0 (fun k => if String.eqb k "mine" then 200%Q else 50%Q).

End Sample.

(** ** Comparisons *)

Lemma Qlt_bool_iff (a b : Q) : Qlt_bool a b = true <-> (a < b)%Q.
Proof.
  unfold Qlt_bool. rewrite negb_true_iff. split.
  - intros H. apply Qnot_le_lt. intros Hle.
    apply Qle_bool_iff in Hle. congruence.
  - intros H. destruct (Qle_bool b a) eqn:E; [|reflexivity].
    apply Qle_bool_iff in E. exfalso. exact (Qlt_not_le _ _ H E).
Qed.

Lemma Qlt_bool_false_iff (a b : Q) : Qlt_bool a b = false <-> (b <= a)%Q.
Proof.
  unfold Qlt_bool. rewrite negb_false_iff. apply Qle_bool_iff.
Qed.

(** ** Phase selection *)

(** C7. The build order that [run] executes is chosen by the elapsed time
    alone: the early one below 180, the mid one from 180 and below 360, the
    late one from 360 on; 179.9 and 359.9 select early and mid, 180 and 360
    select mid and late.  The rest of [run] is the same in the three cases. *)
Theorem phase_selection :
  forall arith random unpack goto_raises (t dt : Q) (info : Info) game_map,
    ((t < 180)%Q ->
       run arith random unpack goto_raises t dt info game_map
       = (strategy_early random info ;;; control arith random unpack goto_raises info))
    /\ ((180 <= t)%Q -> (t < 360)%Q ->
       run arith random unpack goto_raises t dt info game_map
       = (strategy_midgame random info ;;; control arith random unpack goto_raises info))
    /\ ((360 <= t)%Q ->
       run arith random unpack goto_raises t dt info game_map
       = (strategy_lategame random info ;;; control arith random unpack goto_raises info))
    /\ build random (1799 # 10) info = strategy_early random info
    /\ build random 180 info = strategy_midgame random info
    /\ build random (3599 # 10) info = strategy_midgame random info
    /\ build random 360 info = strategy_lategame random info.
Proof.
  intros arith random unpack goto_raises t dt info game_map.
  unfold run, build.
  split; [|split; [|split; [|repeat split]]].
  - intros H. apply Qlt_bool_iff in H. now rewrite H.
  - intros H1 H2. apply Qlt_bool_false_iff in H1. apply Qlt_bool_iff in H2.
    now rewrite H1, H2.
  - intros H. assert (H' : (180 <= t)%Q).
    { apply Qle_trans with (y := 360%Q); [discriminate | exact H]. }
    apply Qlt_bool_false_iff in H, H'. now rewrite H', H.
Qed.

Lemma phase_selection_witness :
  run exact_arith Sample.half plain_object goto_succeeds 100 1 Sample.scenario []
  = (strategy_early Sample.half Sample.scenario
     ;;; control exact_arith Sample.half plain_object goto_succeeds Sample.scenario)
  /\ run exact_arith Sample.half plain_object goto_succeeds 200 1 Sample.scenario []
  = (strategy_midgame Sample.half Sample.scenario
     ;;; control exact_arith Sample.half plain_object goto_succeeds Sample.scenario)
  /\ run exact_arith Sample.half plain_object goto_succeeds 400 1 Sample.scenario []
  = (strategy_lategame Sample.half Sample.scenario
     ;;; control exact_arith Sample.half plain_object goto_succeeds Sample.scenario).
Proof.
  split; [|split].
  - apply (proj1 (phase_selection exact_arith Sample.half plain_object goto_succeeds
                    100 1 Sample.scenario [])).
    reflexivity.
  - apply (proj1 (proj2 (phase_selection exact_arith Sample.half plain_object goto_succeeds
                           200 1 Sample.scenario []))).
    + discriminate.
    + reflexivity.
  - apply (proj1 (proj2 (proj2 (phase_selection exact_arith Sample.half plain_object
                                   goto_succeeds 400 1 Sample.scenario [])))).
    discriminate.
Defined.

(** ** Steps of computations *)

Lemma after_bind {A B} (m : M A) (k : A -> M B) (w : World) :
  after (bind m k) w
  = match outcome m w with
    | Ok a => after (k a) (after m w)
    | Raise _ => after m w
    end.
Proof.
  unfold after, outcome, bind. destruct (m w) as [[a|e] w']; reflexivity.
Qed.

Lemma outcome_bind {A B} (m : M A) (k : A -> M B) (w : World) :
  outcome (bind m k) w
  = match outcome m w with
    | Ok a => outcome (k a) (after m w)
    | Raise e => Raise e
    end.
Proof.
  unfold after, outcome, bind. destruct (m w) as [[a|e] w']; reflexivity.
Qed.

Section Respects.

Context (R : World -> World -> Prop) {HR : PreOrder R}.

Lemma respects_ret {A} (a : A) : respects R (ret a).
Proof. intros w. unfold after; simpl. reflexivity. Qed.

Lemma respects_raise {A} (e : exn) : respects R (@raise A e).
Proof. intros w. unfold after; simpl. reflexivity. Qed.

Lemma respects_get_self : respects R get_self.
Proof. intros w. unfold after; simpl. reflexivity. Qed.

Lemma respects_bind {A B} (m : M A) (k : A -> M B) :
  respects R m -> (forall a, respects R (k a)) -> respects R (bind m k).
Proof.
  intros Hm Hk w. rewrite after_bind.
  destruct (outcome m w) as [a|e].
  - transitivity (after m w); [apply Hm | apply Hk].
  - apply Hm.
Qed.

Lemma respects_try_pass (m : M unit) : respects R m -> respects R (try_pass m).
Proof.
  intros Hm w. specialize (Hm w). unfold after, try_pass in *.
  destruct (m w) as [[a|e] w']; exact Hm.
Qed.

Lemma respects_for {A} (l : list A) (body : A -> M unit) :
  (forall x, In x l -> respects R (body x)) -> respects R (for_ l body).
Proof.
  induction l as [|x l IH]; intros H; simpl.
  - apply respects_ret.
  - apply respects_bind.
    + apply H. now left.
    + intros _. apply IH. intros y Hy. apply H. now right.
Qed.

Lemma respects_for_acc {A S} (l : list A) (body : A -> S -> M S) (s : S) :
  (forall x s, respects R (body x s)) -> respects R (for_acc l body s).
Proof.
  intros H. revert s. induction l as [|x l IH]; intros s; simpl.
  - apply respects_ret.
  - apply respects_bind; [apply H | intros s'; apply IH].
Qed.

Lemma respects_getitem {V} (d : gmap Z V) (k : Z) : respects R (getitem d k).
Proof.
  unfold getitem. destruct (d !! k); [apply respects_ret | apply respects_raise].
Qed.

Lemma respects_info_getitem (info : Info) (name : string) :
  respects R (info_getitem info name).
Proof.
  unfold info_getitem.
  destruct (info_get info name); [apply respects_ret | apply respects_raise].
Qed.

Lemma respects_key {A} (field : option A) : respects R (key field).
Proof.
  unfold key. destruct field; [apply respects_ret | apply respects_raise].
Qed.

Lemma respects_for_key {A} (field : option (list A)) (body : A -> M unit) :
  (forall x, respects R (body x)) -> respects R (for_key field body).
Proof.
  intros H. unfold for_key. destruct field as [l|].
  - apply respects_for. intros x _. apply H.
  - apply respects_ret.
Qed.

End Respects.

(** [papply l] applies a lemma on a relation and finds the order of the
    relation. *)
Tactic Notation "papply" constr(l) := (apply l; try exact _).

(** The structural steps of a proof that a computation respects a relation. *)
Ltac respects_step :=
  first
    [ papply respects_ret
    | papply respects_raise
    | papply respects_get_self
    | papply respects_getitem
    | papply respects_info_getitem
    | papply respects_key
    | papply respects_try_pass
    | papply respects_bind; [| intros ?]
    | match goal with
      | |- respects _ (if ?c then _ else _) => destruct c
      | |- respects _ (match ?x with _ => _ end) => destruct x
      end ].

(** ** Frames *)

#[export] Instance frame_preorder (E : event -> Prop) (U : Uid -> Prop) :
  PreOrder (frame E U).
Proof.
  split.
  - intros w. split; try done.
    exists []. split; [now rewrite app_nil_r | constructor].
  - intros w1 w2 w3 [[e1 [T1 F1]] P1 K1 N1 D1] [[e2 [T2 F2]] P2 K2 N2 D2].
    split.
    + exists (e1 ++ e2). split.
      * now rewrite T2, T1, app_assoc.
      * apply Forall_app. now split.
    + intros u Hu. now rewrite P2, P1.
    + intros u Hu. apply K2, K1, Hu.
    + now rewrite N2.
    + lia.
Qed.

Lemma frame_weaken (E E' : event -> Prop) (U U' : Uid -> Prop) (w w' : World) :
  (forall e, E e -> E' e) -> (forall u, U u -> U' u) ->
  frame E U w w' -> frame E' U' w w'.
Proof.
  intros HE HU [[evs [T F]] P K N D]. split; try done.
  - exists evs. split; [exact T|]. eapply Forall_impl; [exact F | exact HE].
  - intros u Hu. apply P. intros H. apply Hu, HU, H.
Qed.

Lemma respects_frame_weaken {A} (E E' : event -> Prop) (U U' : Uid -> Prop)
    (m : M A) :
  (forall e, E e -> E' e) -> (forall u, U u -> U' u) ->
  respects (frame E U) m -> respects (frame E' U') m.
Proof.
  intros HE HU H w. eapply frame_weaken; [exact HE | exact HU | apply H].
Qed.

Lemma frame_emit (E : event -> Prop) (U : Uid -> Prop) (e : event) :
  E e -> respects (frame E U) (emit e).
Proof.
  intros He w. unfold after, emit; simpl. split; simpl; try done.
  exists [e]. split; [reflexivity | now constructor].
Qed.

Lemma frame_np_random (random : nat -> Q) (E : event -> Prop) (U : Uid -> Prop) :
  respects (frame E U) (np_random random).
Proof.
  intros w. unfold after, np_random; simpl. split; simpl; try done.
  - exists []. split; [now rewrite app_nil_r | constructor].
  - lia.
Qed.

Lemma frame_set_ntanks (E : event -> Prop) (U : Uid -> Prop) (u : Uid) (n : Z) :
  respects (frame E U) (set_ntanks u n).
Proof.
  intros w. unfold after, set_ntanks; simpl. split; simpl; try done.
  exists []. split; [now rewrite app_nil_r | constructor].
Qed.

Lemma frame_set_nships (E : event -> Prop) (U : Uid -> Prop) (u : Uid) (n : Z) :
  respects (frame E U) (set_nships u n).
Proof.
  intros w. unfold after, set_nships; simpl. split; simpl; try done.
  exists []. split; [now rewrite app_nil_r | constructor].
Qed.

Lemma frame_set_previous_position (E : event -> Prop) (U : Uid -> Prop)
    (u : Uid) (p : Position) :
  U u -> respects (frame E U) (set_previous_position u p).
Proof.
  intros Hu w. unfold after, set_previous_position; simpl. split; simpl; try done.
  - exists []. split; [now rewrite app_nil_r | constructor].
  - intros u' Hu'. apply lookup_insert_ne. intros ->. contradiction.
  - intros u' Hs. destruct (decide (u = u')) as [->|Hne].
    + rewrite lookup_insert_eq. eauto.
    + now rewrite lookup_insert_ne.
Qed.

(** ** The build orders are their tables *)

Lemma register_counter_lookup (m : gmap Z Z) (u : Uid) :
  register_counter m u !! u = Some (count m u).
Proof.
  unfold register_counter, count. destruct (m !! u) eqn:E; simpl.
  - exact E.
  - apply lookup_insert_eq.
Qed.

Lemma register_counter_count (m : gmap Z Z) (u : Uid) :
  count (register_counter m u) u = count m u.
Proof. unfold count at 1. now rewrite register_counter_lookup. Qed.

Lemma register_effect (b : Base) (w : World) :
  register b w = (Ok tt, registered b w).
Proof.
  unfold register, registered, register_counter, bind, get_self; simpl.
  destruct w as [[tm pp nt ns] tr n]; simpl.
  destruct (nt !! base_uid b); simpl; destruct (ns !! base_uid b); reflexivity.
Qed.

Section Tables.

Variable random : nat -> Q.

Local Arguments Z.ltb : simpl never.
Local Arguments Z.leb : simpl never.
Local Arguments affordable : simpl never.

Lemma ntanks_lt_registered (b : Base) (n : Z) (w : World) :
  ntanks_lt b n (registered b w)
  = (Ok (count (ntanks (self w)) (base_uid b) <? n), registered b w).
Proof.
  unfold ntanks_lt, bind, get_self, getitem; simpl.
  now rewrite register_counter_lookup.
Qed.

Lemma nships_lt_registered (b : Base) (n : Z) (w : World) :
  nships_lt b n (registered b w)
  = (Ok (count (nships (self w)) (base_uid b) <? n), registered b w).
Proof.
  unfold nships_lt, bind, get_self, getitem; simpl.
  now rewrite register_counter_lookup.
Qed.

Lemma nships_ge_registered (b : Base) (n : Z) (w : World) :
  nships_ge b n (registered b w)
  = (Ok (n <=? count (nships (self w)) (base_uid b)), registered b w).
Proof.
  unfold nships_ge, bind, get_self, getitem; simpl.
  now rewrite register_counter_lookup.
Qed.

Lemma do_build_tank_registered (b : Base) (w : World) :
  do_build_tank random b (registered b w)
  = (Ok tt, perform random b (Some a_tank) (registered b w)).
Proof.
  unfold do_build_tank, bind, np_random, emit, get_self, getitem; simpl.
  rewrite register_counter_lookup. unfold set_ntanks, perform, bump; simpl.
  now rewrite register_counter_count.
Qed.

Lemma do_build_ship_registered (b : Base) (w : World) :
  do_build_ship random b (registered b w)
  = (Ok tt, perform random b (Some a_ship) (registered b w)).
Proof.
  unfold do_build_ship, bind, np_random, emit, get_self, getitem; simpl.
  rewrite register_counter_lookup. unfold set_nships, perform, bump; simpl.
  now rewrite register_counter_count.
Qed.

Lemma do_build_jet_effect (b : Base) (w : World) :
  do_build_jet random b w = (Ok tt, perform random b (Some a_jet) w).
Proof.
  unfold do_build_jet, bind, np_random, emit, perform; simpl.
  destruct w as [[tm pp nt ns] tr n]; reflexivity.
Qed.

Lemma build_mine_effect (b : Base) (w : World) :
  emit (build_mine b) w = (Ok tt, perform random b (Some a_mine) w).
Proof.
  unfold emit, perform; simpl. destruct w as [[tm pp nt ns] tr n]; reflexivity.
Qed.

(** The steps of a proof that a loop body is its table. *)
Ltac table_step :=
  first
    [ rewrite ntanks_lt_registered
    | rewrite nships_lt_registered
    | rewrite nships_ge_registered
    | rewrite do_build_tank_registered
    | rewrite do_build_ship_registered
    | rewrite do_build_jet_effect
    | rewrite build_mine_effect
    | match goal with
      | H : ?c = _ |- context [?c] => rewrite H
      end
    | progress (unfold and_, bind, ret; simpl)
    | match goal with
      | |- context [affordable ?b ?k] => destruct (affordable b k) eqn:?
      | |- context [(?a <? ?b)%Z] => destruct (a <? b)%Z eqn:?
      | |- context [(?a <=? ?b)%Z] => destruct (a <=? b)%Z eqn:?
      end ].

Lemma early_base_effect (b : Base) (w : World) :
  early_base random b w = (Ok tt, decide_base random early_choice b w).
Proof.
  unfold early_base, decide_base, early_choice, max_mines_per_base,
    max_ships_per_base.
  unfold bind at 1. rewrite register_effect.
  repeat table_step; reflexivity.
Qed.

Lemma midgame_base_effect (b : Base) (w : World) :
  midgame_base random b w = (Ok tt, decide_base random midgame_choice b w).
Proof.
  unfold midgame_base, decide_base, midgame_choice.
  unfold bind at 1. rewrite register_effect.
  repeat table_step; reflexivity.
Qed.

Lemma lategame_base_effect (b : Base) (w : World) :
  lategame_base random b w = (Ok tt, decide_base random lategame_choice b w).
Proof.
  unfold lategame_base, decide_base, lategame_choice.
  unfold bind at 1. rewrite register_effect.
  repeat table_step; reflexivity.
Qed.

End Tables.

(** ** What a computation issued *)

Lemma issued_app {A} (m : M A) (w : World) (evs : list event) :
  trace (after m w) = trace w ++ evs -> issued m w = evs.
Proof.
  intros H. unfold issued. rewrite H. apply drop_app_length.
Qed.

Lemma trace_perform (random : nat -> Q) (b : Base) (c : option kind) (w : World) :
  trace (perform random b c w) = trace w ++ commands b (random (ndraws w)) c.
Proof.
  destruct c as [k|]; simpl; [reflexivity | now rewrite app_nil_r].
Qed.

Lemma trace_decide_base (random : nat -> Q) table (b : Base) (w : World) :
  trace (decide_base random table b w)
  = trace w ++ commands b (random (ndraws w))
                 (table b (count (ntanks (self w)) (base_uid b))
                          (count (nships (self w)) (base_uid b))).
Proof. unfold decide_base. now rewrite trace_perform. Qed.

(** ** The early build order *)

(** C3, as the code has it.  In the early phase a base issues the single
    construction of the first guard that holds, where the guard of the mine
    is [mines < 3] alone: a base with fewer than 3 mines builds a mine if it
    can afford one and issues nothing otherwise; with 3 mines or more, a
    tank if fewer than 2 tanks were built here and it is affordable, else a
    ship if fewer than 6 ships were built here and it is affordable, else a
    tank if fewer than 5 tanks and at least 6 ships were built here and it
    is affordable, else a jet if affordable. *)
Theorem early_build_order :
  forall (random : nat -> Q) (b : Base) (w : World),
    let nt := count (ntanks (self w)) (base_uid b) in
    let ns := count (nships (self w)) (base_uid b) in
    outcome (early_base random b) w = Ok tt
    /\ issued (early_base random b) w
       = commands b (random (ndraws w)) (early_choice b nt ns)
    /\ (mines b < 3 -> affordable b "mine" = false ->
          issued (early_base random b) w = []).
Proof.
  intros random b w nt ns.
  assert (Hi : issued (early_base random b) w
               = commands b (random (ndraws w)) (early_choice b nt ns)).
  { apply issued_app. unfold after. rewrite early_base_effect. simpl.
    apply trace_decide_base. }
  split; [|split].
  - unfold outcome. now rewrite early_base_effect.
  - exact Hi.
  - intros Hm Ha. rewrite Hi. unfold early_choice.
    apply Z.ltb_lt in Hm. now rewrite Hm, Ha.
Qed.

Lemma early_build_order_witness :
  issued (early_base Sample.half Sample.poor) (fresh init) = [].
Proof.
  apply (early_build_order Sample.half Sample.poor (fresh init)).
  - reflexivity.
  - reflexivity.
Defined.

(** The chain of five guards would have the base [Sample.poor], which has no
    mine and cannot afford one, build a tank; the code issues nothing. *)
Lemma early_chain_counterexample :
  early_chain Sample.poor 0 0 = Some a_tank
  /\ issued (early_base Sample.half Sample.poor) (fresh init) = []
  /\ issued (early_base Sample.half Sample.poor) (fresh init)
     <> commands Sample.poor (Sample.half 0%nat) (early_chain Sample.poor 0 0).
Proof.
  split; [|split].
  - reflexivity.
  - reflexivity.
  - vm_compute. discriminate.
Qed.

(** ** The strategies as iterated tables *)

Lemma for_effect {A} (body : A -> M unit) (f : A -> World -> World) :
  (forall x w, body x w = (Ok tt, f x w)) ->
  forall l w, for_ l body w = (Ok tt, fold_left (fun w x => f x w) l w).
Proof.
  intros H l. induction l as [|x l IH]; intros w; simpl.
  - reflexivity.
  - unfold bind. rewrite H. apply IH.
Qed.

Lemma team_decide_base random table (b : Base) (w : World) :
  team (self (decide_base random table b w)) = team (self w).
Proof.
  unfold decide_base, perform.
  destruct (table b _ _) as [k|]; reflexivity.
Qed.

Lemma strategy_effect (body : Base -> M unit) (f : Base -> World -> World)
    (info : Info) (w : World) :
  (forall b w, body b w = (Ok tt, f b w)) ->
  strategy body info w
  = match my_bases (self w) info with
    | Some bs => (Ok tt, fold_left (fun w b => f b w) bs w)
    | None => (Raise KeyError, w)
    end.
Proof.
  intros H. unfold strategy, my_bases, bind, get_self, info_getitem, key; simpl.
  destruct (info_get info (team (self w))) as [myinfo|]; simpl; [|reflexivity].
  destruct (bases myinfo) as [bs|]; simpl; [|reflexivity].
  now apply for_effect.
Qed.

Lemma build_effect (random : nat -> Q) (t : Q) (info : Info) (w : World) :
  build random t info w
  = match my_bases (self w) info with
    | Some bs => (Ok tt, decide_bases random (table_at t) bs w)
    | None => (Raise KeyError, w)
    end.
Proof.
  unfold build, table_at, decide_bases.
  destruct (Qlt_bool t 180); [|destruct (Qlt_bool t 360)].
  - apply strategy_effect. apply early_base_effect.
  - apply strategy_effect. apply midgame_base_effect.
  - apply strategy_effect. apply lategame_base_effect.
Qed.

(** ** The frame of the build orders *)

Lemma frame_decide_base random table (E : event -> Prop) (b : Base) (w : World) :
  (forall r k,
     table b (count (ntanks (self w)) (base_uid b))
             (count (nships (self w)) (base_uid b)) = Some k ->
     E (command b r k)) ->
  frame E nobody w (decide_base random table b w).
Proof.
  intros HE. split.
  - eexists. split; [apply trace_decide_base|].
    destruct (table b _ _) as [k|]; simpl; [|constructor].
    constructor; [|constructor]. now apply HE.
  - intros u _. unfold decide_base, perform.
    destruct (table b _ _) as [k|]; reflexivity.
  - intros u Hu. unfold decide_base, perform.
    destruct (table b _ _) as [k|]; exact Hu.
  - apply team_decide_base.
  - unfold decide_base, perform.
    destruct (table b _ _) as [[]|]; simpl; lia.
Qed.

Lemma frame_decide_bases random table (E : event -> Prop) (bs : list Base) :
  (forall b r nt ns k, In b bs -> table b nt ns = Some k -> E (command b r k)) ->
  forall w, frame E nobody w (decide_bases random table bs w).
Proof.
  unfold decide_bases. induction bs as [|b bs IH]; intros HE w; simpl.
  - reflexivity.
  - transitivity (decide_base random table b w).
    + apply frame_decide_base. intros r k Hk. eapply HE; [now left | exact Hk].
    + apply IH. intros b' r nt ns k Hb'. apply HE. now right.
Qed.

Lemma command_is_build (b : Base) (r : Q) (k : kind) : is_build (command b r k).
Proof. destruct k; exact I. Qed.

Lemma frame_build (random : nat -> Q) (t : Q) (info : Info) :
  respects (frame is_build nobody) (build random t info).
Proof.
  intros w. unfold after. rewrite build_effect.
  destruct (my_bases (self w) info) as [bs|]; simpl; [|reflexivity].
  apply frame_decide_bases. intros. apply command_is_build.
Qed.

(** ** The control of the vehicles: totality and frames *)

Lemma outcome_try_pass (m : M unit) (w : World) : outcome (try_pass m) w = Ok tt.
Proof.
  unfold outcome, try_pass. destruct (m w) as [[[]|e] w']; reflexivity.
Qed.

Lemma outcome_for {A} (l : list A) (body : A -> M unit) :
  (forall x w, outcome (body x) w = Ok tt) ->
  forall w, outcome (for_ l body) w = Ok tt.
Proof.
  intros H. induction l as [|x l IH]; intros w; simpl.
  - reflexivity.
  - rewrite outcome_bind, H. apply IH.
Qed.

Lemma outcome_for_key {A} (field : option (list A)) (body : A -> M unit) :
  (forall x w, outcome (body x) w = Ok tt) ->
  forall w, outcome (for_key field body) w = Ok tt.
Proof.
  intros H w. destruct field as [l|]; simpl; [now apply outcome_for | reflexivity].
Qed.

Lemma after_for_app {A} (l1 l2 : list A) (body : A -> M unit) (w : World) :
  (forall x w, outcome (body x) w = Ok tt) ->
  after (for_ (l1 ++ l2) body) w = after (for_ l2 body) (after (for_ l1 body) w).
Proof.
  intros H. revert w. induction l1 as [|x l1 IH]; intros w; simpl.
  - reflexivity.
  - rewrite !after_bind, H. apply IH.
Qed.

Lemma outcome_get_self {A} (k : PlayerAi -> M A) (w : World) :
  outcome (bind get_self k) w = outcome (k (self w)) w.
Proof. reflexivity. Qed.

Lemma outcome_then_set (m : M unit) (u : Uid) (p : Position) (w : World) :
  outcome (m ;;; set_previous_position u p) w = outcome m w.
Proof.
  unfold outcome, bind. destruct (m w) as [[[]|e] w']; reflexivity.
Qed.

Section Control.

Variable arith : Arith.
Variable random : nat -> Q.
Variable unpack : Base -> option (list Q).
Variable goto_raises : Tank -> Q -> Q -> bool.

Lemma respects_first_target (R : World -> World -> Prop) {HR : PreOrder R}
    (me : string) (info : Info) :
  respects R (first_target me info).
Proof.
  unfold first_target. destruct (1 <? length info)%nat.
  - papply respects_for_acc. intros name target.
    destruct (negb (name =? me)%string); repeat respects_step.
  - papply respects_ret.
Qed.

Lemma after_first_target (me : string) (info : Info) (w : World) :
  after (first_target me info) w = w.
Proof.
  symmetry. apply (respects_first_target eq).
Qed.

(** The tanks. *)

Lemma outcome_tank_step (info : Info) (v : Tank) (w : World) :
  outcome (tank_step arith random unpack goto_raises info v) w = Ok tt.
Proof.
  unfold tank_step. rewrite outcome_get_self, outcome_then_set.
  destruct (previous_positions (self w) !! tank_uid v) as [prev|];
    [|reflexivity].
  destruct (negb (stopped v)); [|reflexivity].
  destruct (position_eqb (tank_position v) prev); [reflexivity|].
  destruct (head _) as [b|]; [|reflexivity].
  apply outcome_try_pass.
Qed.

Lemma frame_goto_unpacked (v : Tank) (b : Base) :
  respects (frame (of_tank v) nobody) (goto_unpacked unpack goto_raises v b).
Proof.
  unfold goto_unpacked.
  destruct (unpack b) as [[|x [|y [|z l]]]|]; try papply respects_raise.
  papply respects_bind; [now apply frame_emit|].
  intros _. destruct (goto_raises v x y); [papply respects_raise | papply respects_ret].
Qed.

Lemma frame_tank_step (info : Info) (v : Tank) :
  respects (frame (of_tank v) (eq (tank_uid v)))
           (tank_step arith random unpack goto_raises info v).
Proof.
  unfold tank_step.
  papply respects_bind; [papply respects_get_self | intros a].
  papply respects_bind; [| intros _; now apply frame_set_previous_position].
  destruct (previous_positions a !! tank_uid v) as [prev|]; [|papply respects_ret].
  destruct (negb (stopped v)); [|papply respects_ret].
  destruct (position_eqb (tank_position v) prev).
  - papply respects_bind; [apply frame_np_random | intros r].
    now apply frame_emit.
  - destruct (head _) as [b|]; [|papply respects_ret].
    papply respects_try_pass.
    eapply respects_frame_weaken; [| | apply frame_goto_unpacked]; [auto | intros u []].
Qed.

(** The ships. *)

Lemma outcome_ship_step (v : Ship) (w : World) :
  outcome (ship_step random v) w = Ok tt.
Proof.
  unfold ship_step. rewrite outcome_get_self, outcome_then_set.
  destruct (previous_positions (self w) !! ship_uid v) as [prev|];
    [|reflexivity].
  destruct (position_eqb (ship_position v) prev); [|reflexivity].
  destruct (Qgt_bool _ _); reflexivity.
Qed.

Lemma frame_ship_step (v : Ship) :
  respects (frame (of_ship v) (eq (ship_uid v))) (ship_step random v).
Proof.
  unfold ship_step.
  papply respects_bind; [papply respects_get_self | intros a].
  papply respects_bind; [| intros _; now apply frame_set_previous_position].
  destruct (previous_positions a !! ship_uid v) as [prev|]; [|papply respects_ret].
  destruct (position_eqb (ship_position v) prev); [|papply respects_ret].
  destruct (Qgt_bool _ _).
  - now apply frame_emit.
  - papply respects_bind; [apply frame_np_random | intros r].
    now apply frame_emit.
Qed.

(** The jets. *)

Lemma outcome_jet_step (target : option Position) (v : Jet) (w : World) :
  outcome (jet_step target v) w = Ok tt.
Proof. destruct target as [[x y]|]; reflexivity. Qed.

Lemma frame_jet_step (target : option Position) (v : Jet) :
  respects (frame (of_jet v) nobody) (jet_step target v).
Proof.
  destruct target as [[x y]|]; simpl; [now apply frame_emit | papply respects_ret].
Qed.

(** The loops. *)

Lemma frame_for {A} (rcv : A -> event -> Prop) (touches : A -> Uid -> Prop)
    (body : A -> M unit) (l : list A) :
  (forall v, respects (frame (rcv v) (touches v)) (body v)) ->
  respects (frame (fun e => exists v, In v l /\ rcv v e)
                  (fun u => exists v, In v l /\ touches v u))
           (for_ l body).
Proof.
  intros H. papply respects_for. intros v Hv.
  eapply respects_frame_weaken; [| | apply H]; simpl; eauto.
Qed.

End Control.

(** ** The shape of [run] *)

Lemma run_total_step {A} (m : M A) (w : World) (a : A) :
  outcome m w = Ok a -> m w = (Ok a, after m w).
Proof.
  unfold outcome, after. destruct (m w) as [r w']; simpl. now intros ->.
Qed.

Section Shape.

Variable arith : Arith.
Variable random : nat -> Q.
Variable unpack : Base -> option (list Q).
Variable goto_raises : Tank -> Q -> Q -> bool.

Abbreviation run := (run arith random unpack goto_raises).
Abbreviation control := (control arith random unpack goto_raises).
Abbreviation after_jets := (after_jets arith random unpack goto_raises).

Lemma control_shape (info : Info) (w : World) :
  control info w
  = match info_get info (team (self w)) with
    | None => (Raise KeyError, w)
    | Some myinfo =>
        match outcome (first_target (team (self w)) info) w with
        | Raise e => (Raise e, w)
        | Ok _ => (Ok tt, after_jets info myinfo w)
        end
    end.
Proof.
  unfold control, after_jets, after_ships, after_tanks.
  unfold bind at 1, get_self at 1. cbv beta iota.
  unfold bind at 1, info_getitem.
  destruct (info_get info (team (self w))) as [myinfo|]; [|reflexivity].
  unfold ret at 1. cbv beta iota.
  unfold bind at 1.
  pose proof (after_first_target (team (self w)) info w) as Hw.
  unfold after in Hw. unfold outcome.
  destruct (first_target (team (self w)) info w) as [[tg|e] w1];
    simpl in Hw; subst w1; [|reflexivity].
  cbv beta iota. unfold bind at 1.
  rewrite (run_total_step _ w tt)
    by (apply outcome_for_key; apply outcome_tank_step).
  cbv beta iota. unfold bind at 1.
  rewrite (run_total_step (for_key (ships myinfo) _) _ tt)
    by (apply outcome_for_key; apply outcome_ship_step).
  cbv beta iota.
  apply run_total_step. apply outcome_for_key. apply outcome_jet_step.
Qed.

Lemma frame_control (info : Info) :
  respects (frame (fun e => ~ is_build e) (fun _ => True)) (control info).
Proof.
  unfold control.
  papply respects_bind; [papply respects_get_self | intros a].
  papply respects_bind; [papply respects_info_getitem | intros myinfo].
  papply respects_bind; [papply respects_first_target | intros _].
  papply respects_bind; [|intros _; papply respects_bind; [|intros _]].
  - papply respects_for_key. intros v.
    eapply respects_frame_weaken; [| | apply frame_tank_step]; [|done].
    intros []; simpl; tauto.
  - papply respects_for_key. intros v.
    eapply respects_frame_weaken; [| | apply frame_ship_step]; [|done].
    intros []; simpl; tauto.
  - papply respects_for_key. intros v.
    eapply respects_frame_weaken; [| | apply frame_jet_step]; [|done].
    intros []; simpl; tauto.
Qed.

Lemma run_shape (t dt : Q) (info : Info) game_map (w : World) :
  run t dt info game_map w
  = match my_bases (self w) info with
    | Some bs => control info (decide_bases random (table_at t) bs w)
    | None => (Raise KeyError, w)
    end.
Proof.
  unfold run, bind. rewrite build_effect.
  destruct (my_bases (self w) info); reflexivity.
Qed.

(** The commands of a call of [run]: those of the build order, then those
    of the control of the vehicles, which builds nothing. *)
Lemma run_trace (t dt : Q) (info : Info) game_map (w : World) (bs : list Base) :
  my_bases (self w) info = Some bs ->
  exists evs,
    trace (after (run t dt info game_map) w)
    = trace (decide_bases random (table_at t) bs w) ++ evs
    /\ Forall (fun e => ~ is_build e) evs.
Proof.
  intros Hbs. unfold after. rewrite run_shape, Hbs.
  destruct (frame_control info (decide_bases random (table_at t) bs w))
    as [Ht _ _ _ _].
  exact Ht.
Qed.

End Shape.

(** ** A mine first *)

Lemma mine_table (t : Q) (b : Base) (nt ns : Z) :
  (t < 360)%Q -> mines b = 0 -> (cost b "mine" < crystal b)%Q ->
  table_at t b nt ns = Some a_mine.
Proof.
  intros Ht Hm Hc.
  assert (Ha : affordable b "mine" = true) by now apply Qlt_bool_iff.
  apply Qlt_bool_iff in Ht. unfold table_at. rewrite Ht.
  destruct (Qlt_bool t 180); unfold early_choice, midgame_choice;
    now rewrite Hm, Ha.
Qed.

Lemma late_table (t : Q) : (360 <= t)%Q -> table_at t = lategame_choice.
Proof.
  intros Ht. assert (Ht' : (180 <= t)%Q).
  { apply Qle_trans with (y := 360%Q); [discriminate | exact Ht]. }
  apply Qlt_bool_false_iff in Ht, Ht'. unfold table_at. now rewrite Ht', Ht.
Qed.

Lemma decide_bases_app random table (l1 l2 : list Base) (w : World) :
  decide_bases random table (l1 ++ l2) w
  = decide_bases random table l2 (decide_bases random table l1 w).
Proof. unfold decide_bases. apply fold_left_app. Qed.

Lemma trace_decide_bases random table (bs : list Base) (w : World) :
  exists evs, trace (decide_bases random table bs w) = trace w ++ evs.
Proof.
  destruct (frame_decide_bases random table (fun _ => True) bs) with (w := w)
    as [[evs [Ht _]] _ _ _ _]; [done|].
  now exists evs.
Qed.

(** C2, as the code has it.  In the early and in the mid phase (elapsed
    time below 360) a call of [run] issues build_mine on every base of mine
    that has no mine and more crystal than a mine costs, and every
    construction it issues on that base is build_mine: no tank, ship or jet
    is built there, before or after.  In the late phase (from 360 on) every
    construction that a call issues is that of a jet. *)
Theorem mine_first_before_360 :
  forall arith random unpack goto_raises (t dt : Q) (info : Info) game_map
         (w : World) (bs : list Base) (b : Base),
    (t < 360)%Q ->
    my_bases (self w) info = Some bs ->
    In b bs ->
    mines b = 0 ->
    (cost b "mine" < crystal b)%Q ->
    let evs := issued (run arith random unpack goto_raises t dt info game_map) w in
    (exists l1 l2,
        evs = l1 ++ build_mine b :: l2
        /\ Forall (fun e => on_base b e -> ~ builds_vehicle e) l1)
    /\ (forall e, In e evs -> on_base b e -> e = build_mine b)
    /\ forall t',
         (360 <= t')%Q ->
         forall e,
           In e (issued (run arith random unpack goto_raises t' dt info game_map) w) ->
           is_build e -> exists b' h, e = build_jet b' h.
Proof.
  intros arith random unpack goto_raises t dt info game_map w bs b Ht Hbs Hb Hm Hc evs.
  assert (Hlate : forall t',
             (360 <= t')%Q ->
             forall e,
               In e (issued (run arith random unpack goto_raises t' dt info game_map) w) ->
               is_build e -> exists b' h, e = build_jet b' h).
  { intros t' Ht' e He Hbuild.
    destruct (run_trace arith random unpack goto_raises t' dt info game_map w bs Hbs)
      as [evs2 [Htr Hnb]].
    destruct (frame_decide_bases random (table_at t')
                (fun e => exists b' h, e = build_jet b' h) bs) with (w := w)
      as [[evs1 [Ht1 Hf1]] _ _ _ _].
    { intros b' r nt ns k _ Hk. rewrite late_table in Hk by exact Ht'.
      unfold lategame_choice in Hk.
      destruct (affordable b' "jet"); [|discriminate].
      injection Hk as <-. simpl. eauto. }
    rewrite (issued_app _ _ (evs1 ++ evs2)) in He
      by now rewrite Htr, Ht1, app_assoc.
    apply in_app_or in He as [He|He].
    - rewrite Forall_forall in Hf1. now apply Hf1, list_elem_of_In.
    - rewrite Forall_forall in Hnb. exfalso.
      apply (Hnb e); [now apply list_elem_of_In | exact Hbuild]. }
  assert (Hall : forall e, In e evs -> on_base b e -> e = build_mine b).
  { destruct (run_trace arith random unpack goto_raises t dt info game_map w bs Hbs)
      as [evs2 [Htr Hnb]].
    destruct (frame_decide_bases random (table_at t)
                (fun e => on_base b e -> e = build_mine b) bs) with (w := w)
      as [[evs1 [Ht1 Hf1]] _ _ _ _].
    { intros b' r nt ns k _ Hk Hon.
      assert (b' = b) as -> by (destruct k; exact Hon).
      rewrite mine_table in Hk by assumption. now inversion Hk. }
    assert (Hevs : evs = evs1 ++ evs2).
    { apply issued_app. now rewrite Htr, Ht1, app_assoc. }
    intros e He Hon. rewrite Hevs in He. apply in_app_or in He as [He|He].
    - rewrite Forall_forall in Hf1. apply Hf1; [|exact Hon].
      now apply list_elem_of_In.
    - rewrite Forall_forall in Hnb. exfalso. apply (Hnb e).
      + now apply list_elem_of_In.
      + destruct e; simpl in *; tauto. }
  split; [|split; [exact Hall | exact Hlate]].
  assert (Hin : In (build_mine b) evs).
  { apply in_split in Hb as [bs1 [bs2 ->]].
    destruct (run_trace arith random unpack goto_raises t dt info game_map w _ Hbs)
      as [evs2 [Htr _]].
    rewrite decide_bases_app in Htr.
    destruct (trace_decide_bases random (table_at t) bs1 w) as [e1 He1].
    set (w1 := decide_bases random (table_at t) bs1 w) in *.
    change (decide_bases random (table_at t) (b :: bs2) w1)
      with (decide_bases random (table_at t) bs2
              (decide_base random (table_at t) b w1)) in Htr.
    destruct (trace_decide_bases random (table_at t) bs2
                (decide_base random (table_at t) b w1)) as [e3 He3].
    rewrite He3, trace_decide_base, mine_table, He1 in Htr by assumption.
    simpl in Htr.
    assert (Hevs : evs = e1 ++ [build_mine b] ++ e3 ++ evs2).
    { apply issued_app. rewrite Htr. now rewrite <- !app_assoc. }
    rewrite Hevs. apply in_or_app. right. now left. }
  clear -Hin Hall.
  induction evs as [|e evs IH]; [destruct Hin|].
  destruct Hin as [->|Hin].
  - exists [], evs. split; [reflexivity | constructor].
  - destruct IH as [l1 [l2 [-> Hl1]]].
    { intros e' He'. apply Hall. now right. }
    { exact Hin. }
    exists (e :: l1), l2. split; [reflexivity|].
    constructor; [|exact Hl1].
    intros Hon Hv. rewrite (Hall e) in Hv by (now left || exact Hon). exact Hv.
Qed.

Lemma mine_first_before_360_witness :
  let evs := issued (run exact_arith Sample.half plain_object goto_succeeds 0 1
                         Sample.scenario []) (fresh init) in
  (exists l1 l2,
      evs = l1 ++ build_mine Sample.home :: l2
      /\ Forall (fun e => on_base Sample.home e -> ~ builds_vehicle e) l1)
  /\ (forall e, In e evs -> on_base Sample.home e -> e = build_mine Sample.home)
  /\ forall t',
       (360 <= t')%Q ->
       forall e,
         In e (issued (run exact_arith Sample.half plain_object goto_succeeds t' 1
                           Sample.scenario []) (fresh init)) ->
         is_build e -> exists b' h, e = build_jet b' h.
Proof.
  apply (mine_first_before_360 exact_arith Sample.half plain_object goto_succeeds 0 1
           Sample.scenario [] (fresh init) [Sample.home] Sample.home).
  - reflexivity.
  - reflexivity.
  - now left.
  - reflexivity.
  - reflexivity.
Defined.

(** In the late phase the base of the scenario, which has no mine and can
    pay one, is told to build a jet and no mine. *)
Lemma mine_first_counterexample :
  mines Sample.home = 0
  /\ (cost Sample.home "mine" < crystal Sample.home)%Q
  /\ issued (run exact_arith Sample.half plain_object goto_succeeds 360 1
                 Sample.scenario []) (fresh init)
     = [build_jet Sample.home (360 * Sample.half 0%nat)%Q]
  /\ ~ In (build_mine Sample.home)
         (issued (run exact_arith Sample.half plain_object goto_succeeds 360 1
                      Sample.scenario []) (fresh init)).
Proof.
  split; [reflexivity|]. split; [reflexivity|]. split.
  - reflexivity.
  - intros [H|[]]. discriminate H.
Qed.

(** ** Sorting *)

Section Sorting.

Context {A : Type} (key : A -> Q).

Lemma in_insert_by (x y : A) (l : list A) :
  In y (insert_by key x l) <-> y = x \/ In y l.
Proof.
  induction l as [|z l IH]; simpl.
  - intuition.
  - destruct (Qlt_bool (key z) (key x)); simpl; [rewrite IH|]; intuition.
Qed.

Lemma in_sorted (y : A) (l : list A) : In y (sorted key l) <-> In y l.
Proof.
  induction l as [|x l IH]; simpl; [reflexivity|].
  rewrite in_insert_by, IH. intuition.
Qed.

Lemma length_insert_by (x : A) (l : list A) :
  length (insert_by key x l) = S (length l).
Proof.
  induction l as [|z l IH]; simpl; [reflexivity|].
  destruct (Qlt_bool (key z) (key x)); simpl; [now rewrite IH | reflexivity].
Qed.

Lemma length_sorted (l : list A) : length (sorted key l) = length l.
Proof.
  induction l as [|x l IH]; simpl; [reflexivity|].
  now rewrite length_insert_by, IH.
Qed.

Lemma ascending_insert_by (x : A) (l : list A) :
  ascending key l -> ascending key (insert_by key x l).
Proof.
  unfold ascending. induction l as [|z l IH]; intros Hs; simpl.
  - repeat constructor.
  - apply StronglySorted_inv in Hs as [Hl Hz].
    destruct (Qlt_bool (key z) (key x)) eqn:E.
    + constructor; [now apply IH|].
      apply Forall_forall. intros y Hy.
      apply list_elem_of_In, in_insert_by in Hy as [->|Hy].
      * apply Qlt_le_weak. now apply Qlt_bool_iff.
      * rewrite Forall_forall in Hz. now apply Hz, list_elem_of_In.
    + apply Qlt_bool_false_iff in E.
      constructor; [now constructor|].
      constructor; [exact E|].
      eapply Forall_impl; [exact Hz|].
      intros y Hy. simpl in Hy. now apply Qle_trans with (y := key z).
Qed.

Lemma ascending_sorted (l : list A) : ascending key (sorted key l).
Proof.
  induction l as [|x l IH]; simpl.
  - constructor.
  - now apply ascending_insert_by.
Qed.

Lemma ascending_last (l : list A) (m : A) :
  ascending key l -> last l = Some m -> greatest key l m.
Proof.
  unfold ascending, greatest. induction l as [|x l IH]; intros Hs Hl.
  - discriminate.
  - apply StronglySorted_inv in Hs as [Hs Hx].
    destruct l as [|z l].
    + simpl in Hl. injection Hl as ->. split; [now left|].
      intros y [->|[]]. apply Qle_refl.
    + change (last (x :: z :: l)) with (last (z :: l)) in Hl.
      destruct (IH Hs Hl) as [Hin Hmax]. split; [now right|].
      intros y [->|Hy]; [|now apply Hmax].
      rewrite Forall_forall in Hx. now apply Hx, list_elem_of_In.
Qed.

Lemma ascending_head (l : list A) (m : A) :
  ascending key l -> head l = Some m -> least key l m.
Proof.
  unfold ascending, least. destruct l as [|x l]; intros Hs Hl.
  - discriminate.
  - simpl in Hl. injection Hl as ->.
    apply StronglySorted_inv in Hs as [_ Hx]. split; [now left|].
    intros y [->|Hy]; [apply Qle_refl|].
    rewrite Forall_forall in Hx. now apply Hx, list_elem_of_In.
Qed.

(** [sorted(l, key=key)[-1]] is an element of [l] with the greatest key. *)
Lemma last_sorted (l : list A) (m : A) :
  last (sorted key l) = Some m -> greatest key l m.
Proof.
  intros H. destruct (ascending_last _ _ (ascending_sorted l) H) as [Hin Hmax].
  split; [now apply in_sorted|].
  intros y Hy. now apply Hmax, in_sorted.
Qed.

(** [sorted(l, key=key)[0]] is an element of [l] with the least key. *)
Lemma head_sorted (l : list A) (m : A) :
  head (sorted key l) = Some m -> least key l m.
Proof.
  intros H. destruct (ascending_head _ _ (ascending_sorted l) H) as [Hin Hmin].
  split; [now apply in_sorted|].
  intros y Hy. now apply Hmin, in_sorted.
Qed.

Lemma last_sorted_is_Some (l : list A) :
  l <> [] -> is_Some (last (sorted key l)).
Proof.
  intros Hl. destruct (last (sorted key l)) eqn:E; [eauto|].
  apply last_None in E. apply (f_equal length) in E.
  rewrite length_sorted in E. destruct l; [congruence | discriminate].
Qed.

End Sorting.

(** ** The three loops of the control *)

Section LoopFrames.

Variable arith : Arith.
Variable random : nat -> Q.
Variable unpack : Base -> option (list Q).
Variable goto_raises : Tank -> Q -> Q -> bool.

Abbreviation after_tanks := (after_tanks arith random unpack goto_raises).
Abbreviation after_ships := (after_ships arith random unpack goto_raises).
Abbreviation after_jets := (after_jets arith random unpack goto_raises).

Lemma frame_after_tanks (info : Info) (myinfo : Team) (w : World) :
  frame (tank_commands myinfo) (fun u => In u (tank_uids myinfo))
        w (after_tanks info myinfo w).
Proof.
  unfold after_tanks, tank_commands, tank_uids.
  destruct (tanks myinfo) as [l|]; simpl; [|reflexivity].
  eapply frame_weaken;
    [| | apply (frame_for of_tank (fun v => eq (tank_uid v)));
         apply frame_tank_step].
  - auto.
  - intros u [v [Hv <-]]. now apply in_map.
Qed.

Lemma frame_after_ships (info : Info) (myinfo : Team) (w : World) :
  frame (ship_commands myinfo) (fun u => In u (ship_uids myinfo))
        (after_tanks info myinfo w) (after_ships info myinfo w).
Proof.
  unfold after_ships, ship_commands, ship_uids.
  destruct (ships myinfo) as [l|]; simpl; [|reflexivity].
  eapply frame_weaken;
    [| | apply (frame_for of_ship (fun v => eq (ship_uid v)));
         apply frame_ship_step].
  - auto.
  - intros u [v [Hv <-]]. now apply in_map.
Qed.

Lemma for_jets_effect (target : option Position) (l : list Jet) (w : World) :
  for_ l (jet_step target) w
  = (Ok tt, {| self := self w;
               trace := trace w ++ jet_commands target (Some l);
               ndraws := ndraws w |}).
Proof.
  revert w. induction l as [|v l IH]; intros w.
  - simpl. unfold ret, jet_commands.
    destruct target; simpl; rewrite app_nil_r; now destruct w.
  - simpl. unfold bind. destruct target as [[x y]|]; simpl.
    + rewrite IH. simpl. unfold jet_commands. simpl.
      now rewrite <- app_assoc.
    + rewrite IH. reflexivity.
Qed.

Lemma after_jets_effect (info : Info) (myinfo : Team) (w : World) :
  after_jets info myinfo w
  = {| self := self (after_ships info myinfo w);
       trace := trace (after_ships info myinfo w)
                ++ jet_commands (jet_target arith (team (self w)) info) (jets myinfo);
       ndraws := ndraws (after_ships info myinfo w) |}.
Proof.
  unfold after_jets, for_key, after.
  destruct (jets myinfo) as [l|].
  - now rewrite for_jets_effect.
  - simpl. unfold jet_commands. destruct (jet_target _ _ _); simpl;
      rewrite app_nil_r; now destruct (after_ships info myinfo w).
Qed.

Lemma team_decide_bases table (bs : list Base) (w : World) :
  team (self (decide_bases random table bs w)) = team (self w).
Proof.
  destruct (frame_decide_bases random table (fun _ => True) bs) with (w := w)
    as [_ _ _ Ht _]; [done | exact Ht].
Qed.

Lemma positions_decide_bases table (bs : list Base) (w : World) :
  previous_positions (self (decide_bases random table bs w))
  = previous_positions (self w).
Proof.
  unfold decide_bases. revert w. induction bs as [|b bs IH]; intros w; simpl.
  - reflexivity.
  - rewrite IH. unfold decide_base, perform.
    destruct (table b _ _); reflexivity.
Qed.

(** A call of [run] that returns: the commands of the build order, of the
    tanks, of the ships and of the jets, in this order. *)
Lemma run_returns (t dt : Q) (info : Info) game_map (w : World) :
  outcome (run arith random unpack goto_raises t dt info game_map) w = Ok tt ->
  exists bs myinfo,
    my_bases (self w) info = Some bs
    /\ info_get info (team (self w)) = Some myinfo
    /\ after (run arith random unpack goto_raises t dt info game_map) w
       = after_jets info myinfo (decide_bases random (table_at t) bs w).
Proof.
  unfold outcome, after. rewrite run_shape.
  destruct (my_bases (self w) info) as [bs|] eqn:Hbs; [|discriminate].
  rewrite control_shape, team_decide_bases.
  destruct (info_get info (team (self w))) as [myinfo|]; [|discriminate].
  destruct (outcome _ _); [|discriminate].
  intros _. exists bs, myinfo. auto.
Qed.

End LoopFrames.

(** ** The target of the jets *)

Lemma fold_left_Qplus (l : list Q) (a : Q) :
  (fold_left Qplus l a == a + fold_right Qplus 0 l)%Q.
Proof.
  revert a. induction l as [|x l IH]; intros a; simpl.
  - ring.
  - rewrite IH. ring.
Qed.

(** In the arithmetic that does not round, [determine_base_power] and
    [determine_power] are the power score of the specification. *)
Lemma determine_base_power_score (b : Base) :
  (determine_base_power exact_arith b == base_score b)%Q.
Proof.
  unfold determine_base_power, base_score. cbn [exact_arith of_int fadd fdiv].
  rewrite inject_Z_mult. reflexivity.
Qed.

Lemma total_score_fold (bs : list Base) :
  (total_score bs
   == fold_right Qplus 0 (map (determine_base_power exact_arith) bs))%Q.
Proof.
  induction bs as [|b bs IH]; [reflexivity|].
  cbn [total_score map fold_right].
  now rewrite IH, determine_base_power_score.
Qed.

Lemma determine_power_score (tm : Team) :
  (determine_power exact_arith tm == power_score (get_bases tm))%Q.
Proof.
  unfold determine_power, power_score. cbn [exact_arith of_int fadd fsum].
  unfold sum. rewrite fold_left_Qplus, total_score_fold, inject_Z_mult.
  change (inject_Z 100) with 100%Q. ring.
Qed.

Section Target.

Variable arith : Arith.

Lemma jet_target_spec (me : string) (info : Info) (p : Position) :
  jet_target arith me info = Some p ->
  (1 < length info)%nat
  /\ exists strongest,
       greatest (determine_power arith) (enemies me info) strongest
       /\ ((get_bases strongest = [] /\ p = (75, 75)%Q)
           \/ exists sb,
                greatest (determine_base_power arith) (get_bases strongest) sb
                /\ p = (base_x sb, base_y sb)).
Proof.
  unfold jet_target. fold (enemies me info).
  destruct (1 <? length info)%nat eqn:Hlen; [|discriminate].
  apply Nat.ltb_lt in Hlen.
  destruct (last (sorted (determine_power arith) (enemies me info)))
    as [strongest|] eqn:Hlast; [|discriminate].
  apply last_sorted in Hlast.
  intros Hp. split; [exact Hlen|]. exists strongest. split; [exact Hlast|].
  unfold get_bases. destruct (bases strongest) as [bs|]; simpl.
  - destruct (last (sorted (determine_base_power arith) bs)) as [sb|] eqn:Hsb.
    + right. exists sb. split; [now apply last_sorted | congruence].
    + left. split; [|congruence].
      apply last_None, (f_equal length) in Hsb.
      rewrite length_sorted in Hsb. now destruct bs.
  - left. split; [reflexivity | congruence].
Qed.

Lemma jet_target_is_Some (me : string) (info : Info) :
  (1 < length info)%nat -> enemies me info <> [] ->
  is_Some (jet_target arith me info).
Proof.
  intros Hlen Hen. unfold jet_target. fold (enemies me info).
  apply Nat.ltb_lt in Hlen. rewrite Hlen.
  destruct (last_sorted_is_Some (determine_power arith) _ Hen) as [tm ->].
  destruct (bases tm) as [bs|]; [|eauto].
  destruct (last _); eauto.
Qed.

Lemma jet_target_no_enemy (me : string) (info : Info) :
  enemies me info = [] -> jet_target arith me info = None.
Proof.
  intros Hen. unfold jet_target. fold (enemies me info). rewrite Hen.
  now destruct (1 <? length info)%nat.
Qed.

End Target.

Lemma two_teams (me : string) (info : Info) (myinfo : Team) :
  info_get info me = Some myinfo -> enemies me info <> [] ->
  (1 < length info)%nat.
Proof.
  destruct info as [|[n tm] [|y l]]; simpl; try discriminate; [|lia].
  unfold enemies. simpl. destruct (n =? me)%string; [|discriminate].
  intros _ H. now contradiction H.
Qed.

Lemma not_jet_build (e : event) : is_build e -> is_jet_event e = false.
Proof. now destruct e. Qed.

Lemma not_jet_tank (tm : Team) (e : event) :
  tank_commands tm e -> is_jet_event e = false.
Proof. intros [v [_ H]]. now destruct e. Qed.

Lemma not_jet_ship (tm : Team) (e : event) :
  ship_commands tm e -> is_jet_event e = false.
Proof. intros [v [_ H]]. now destruct e. Qed.

(** ** The commands of a call *)

Lemma issued_nothing {A} (m : M A) (w : World) : after m w = w -> issued m w = [].
Proof.
  intros H. apply issued_app. now rewrite H, app_nil_r.
Qed.

Section Commands.

Variable arith : Arith.
Variable random : nat -> Q.
Variable unpack : Base -> option (list Q).
Variable goto_raises : Tank -> Q -> Q -> bool.

Abbreviation run := (run arith random unpack goto_raises).

(** The commands of a call that returns. *)
Lemma run_commands (t dt : Q) (info : Info) game_map (w : World) :
  outcome (run t dt info game_map) w = Ok tt ->
  exists myinfo B T S,
    info_get info (team (self w)) = Some myinfo
    /\ issued (run t dt info game_map) w
       = B ++ T ++ S ++ jet_commands (jet_target arith (team (self w)) info)
                                     (jets myinfo)
    /\ Forall is_build B
    /\ Forall (tank_commands myinfo) T
    /\ Forall (ship_commands myinfo) S.
Proof.
  intros Hok.
  destruct (run_returns arith random unpack goto_raises t dt info game_map w Hok)
    as [bs [myinfo [Hbs [Hme Hafter]]]].
  set (w1 := decide_bases random (table_at t) bs w) in *.
  destruct (frame_decide_bases random (table_at t) is_build bs) with (w := w)
    as [[B [HB FB]] _ _ _ _]; [intros; apply command_is_build|].
  destruct (frame_after_tanks arith random unpack goto_raises info myinfo w1)
    as [[T [HT FT]] _ _ _ _].
  destruct (frame_after_ships arith random unpack goto_raises info myinfo w1)
    as [[S [HS FS]] _ _ _ _].
  exists myinfo, B, T, S. repeat split; try assumption.
  apply issued_app. subst w1. rewrite Hafter, after_jets_effect. simpl.
  rewrite HS, HT, HB, team_decide_bases. now rewrite <- !app_assoc.
Qed.

(** A call that raises has issued constructions at most. *)
Lemma run_raises_commands (t dt : Q) (info : Info) game_map (w : World) (e : exn) :
  outcome (run t dt info game_map) w = Raise e ->
  Forall is_build (issued (run t dt info game_map) w).
Proof.
  unfold outcome. intros Hraise.
  assert (Hshape := run_shape arith random unpack goto_raises t dt info game_map w).
  destruct (my_bases (self w) info) as [bs|] eqn:Hbs.
  - rewrite control_shape in Hshape.
    destruct (frame_decide_bases random (table_at t) is_build bs) with (w := w)
      as [[B [HB FB]] _ _ _ _]; [intros; apply command_is_build|].
    assert (Hafter : after (run t dt info game_map) w
                     = decide_bases random (table_at t) bs w).
    { unfold after. rewrite Hshape. rewrite Hshape in Hraise.
      destruct (info_get info _); [|reflexivity].
      destruct (outcome _ _); [discriminate Hraise | reflexivity]. }
    rewrite (issued_app _ _ B); [exact FB | now rewrite Hafter].
  - rewrite issued_nothing; [constructor|].
    unfold after. now rewrite Hshape.
Qed.

End Commands.

(** ** Missing keys and empty lists *)

Lemma bind_ret {A B} (a : A) (k : A -> M B) : bind (ret a) k = k a.
Proof. reflexivity. Qed.

Lemma outcome_ret {A} (a : A) (w : World) : outcome (ret a) w = Ok a.
Proof. reflexivity. Qed.

Lemma after_ret {A} (a : A) (w : World) : after (ret a) w = w.
Proof. reflexivity. Qed.

Lemma info_get_some (info : Info) (name : string) :
  In name (map fst info) ->
  exists tm, info_get info name = Some tm /\ In (name, tm) info.
Proof.
  induction info as [|[n tm0] rest IH]; simpl; [intros []|].
  intros Hin. destruct (String.eqb_spec n name) as [->|Hne].
  - exists tm0. split; [reflexivity | now left].
  - destruct Hin as [Hn|Hin]; [contradiction|].
    destruct (IH Hin) as [tm [Hget Htm]]. exists tm. split; [exact Hget | now right].
Qed.

Lemma first_target_returns (me : string) (info : Info) (w : World) :
  (forall name tm, In (name, tm) info -> name <> me -> bases tm <> Some []) ->
  exists target, outcome (first_target me info) w = Ok target.
Proof.
  intros Hne. unfold first_target.
  destruct (1 <? length info)%nat; [|exists None; reflexivity].
  assert (Hnames : forall name, In name (map fst info) ->
            exists tm, info_get info name = Some tm
                       /\ (name <> me -> bases tm <> Some [])).
  { intros name Hin. destruct (info_get_some info name Hin) as [tm [Hget Htm]].
    exists tm. split; [exact Hget|]. intros Hn. now apply (Hne name). }
  clear Hne. revert Hnames.
  generalize (map fst info) as names. intros names.
  generalize (@None (Q * Q)%type) as s.
  induction names as [|name names IH]; intros s Hnames; cbn [for_acc].
  - exists s. reflexivity.
  - destruct (Hnames name (or_introl eq_refl)) as [tm [Hget Htm]].
    assert (Hrest : forall n, In n names ->
              exists tm, info_get info n = Some tm
                         /\ (n <> me -> bases tm <> Some [])).
    { intros n Hn. apply Hnames. now right. }
    unfold outcome, bind at 1.
    destruct (String.eqb_spec name me) as [Heq|Hneq]; cbn [negb].
    + apply (IH _ Hrest).
    + unfold bind at 1, info_getitem at 1. rewrite Hget. cbn [ret].
      specialize (Htm Hneq).
      destruct (bases tm) as [[|b bs]|].
      * contradiction.
      * apply (IH _ Hrest).
      * apply (IH _ Hrest).
Qed.

Lemma handledb_sound (a : PlayerAi) (info : Info) :
  handledb a info = true -> handled a info.
Proof.
  unfold handledb, handled.
  destruct (my_bases a info) as [bs|]; [|discriminate].
  intros H. split; [eauto|].
  intros name tm Hin Hne. rewrite forallb_forall in H.
  specialize (H _ Hin). cbn [fst snd] in H.
  destruct (String.eqb_spec name (team a)) as [|_]; [contradiction|].
  unfold no_bases in H. intros Hb. rewrite Hb in H. discriminate.
Qed.

Lemma handled_team (a a' : PlayerAi) (info : Info) :
  team a' = team a -> handled a info -> handled a' info.
Proof. unfold handled, my_bases. now intros ->. Qed.

Lemma handled_returns arith random unpack goto_raises (t dt : Q) (info : Info)
    game_map (w : World) :
  handled (self w) info ->
  outcome (run arith random unpack goto_raises t dt info game_map) w = Ok tt.
Proof.
  intros [[bs Hbs] Hne].
  unfold outcome. rewrite run_shape, Hbs, control_shape, team_decide_bases.
  unfold my_bases in Hbs.
  destruct (info_get info (team (self w))) as [myinfo|]; [|discriminate].
  destruct (first_target_returns (team (self w)) info
              (decide_bases random (table_at t) bs w) Hne) as [tg ->].
  reflexivity.
Qed.

(** C1, as the code has it.  When my own record has the key "bases" and no
    enemy record maps the key "bases" to an empty list, [run] returns: my
    record may lack any of the keys "tanks", "ships" and "jets", an enemy
    record may lack any key, and a missing key is read as an empty list: the
    commands of the call are those of the build order, of the tanks of my
    record, of its ships and of its jets, and there is none for a list that
    is missing. *)
Theorem run_returns_with_bases :
  forall arith random unpack goto_raises (t dt : Q) (info : Info) game_map
         (w : World) (bs : list Base),
    my_bases (self w) info = Some bs ->
    (forall name tm, In (name, tm) info -> name <> team (self w) ->
                     bases tm <> Some []) ->
    outcome (run arith random unpack goto_raises t dt info game_map) w = Ok tt
    /\ exists myinfo B T S,
         info_get info (team (self w)) = Some myinfo
         /\ issued (run arith random unpack goto_raises t dt info game_map) w
            = B ++ T ++ S ++ jet_commands (jet_target arith (team (self w)) info)
                                          (jets myinfo)
         /\ Forall is_build B
         /\ Forall (tank_commands myinfo) T
         /\ Forall (ship_commands myinfo) S
         /\ (tanks myinfo = None -> T = [])
         /\ (ships myinfo = None -> S = [])
         /\ (jets myinfo = None ->
             jet_commands (jet_target arith (team (self w)) info) (jets myinfo) = []).
Proof.
  intros arith random unpack goto_raises t dt info game_map w bs Hbs Hne.
  assert (Hok : outcome (run arith random unpack goto_raises t dt info game_map) w
                = Ok tt).
  { unfold outcome. rewrite run_shape, Hbs, control_shape, team_decide_bases.
    unfold my_bases in Hbs.
    destruct (info_get info (team (self w))) as [myinfo|]; [|discriminate].
    destruct (first_target_returns (team (self w)) info
                (decide_bases random (table_at t) bs w) Hne) as [tg ->].
    reflexivity. }
  split; [exact Hok|].
  destruct (run_commands arith random unpack goto_raises t dt info game_map w Hok)
    as [myinfo [B [T [S [Hme [Hevs [FB [FT FS]]]]]]]].
  exists myinfo, B, T, S. repeat split; try assumption.
  - intros Hnone. destruct T as [|e T]; [reflexivity|].
    apply Forall_cons in FT as [[v [Hv _]] _].
    rewrite Hnone in Hv. destruct Hv.
  - intros Hnone. destruct S as [|e S]; [reflexivity|].
    apply Forall_cons in FS as [[v [Hv _]] _].
    rewrite Hnone in Hv. destruct Hv.
  - intros ->. unfold jet_commands. now destruct (jet_target _ _ _).
Qed.

Lemma run_returns_with_bases_witness :
  outcome (run exact_arith Sample.half plain_object goto_succeeds 0 1 Sample.bare_enemy [])
          (fresh init) = Ok tt.
Proof.
  apply (run_returns_with_bases exact_arith Sample.half plain_object goto_succeeds 0 1
           Sample.bare_enemy [] (fresh init) [Sample.home]).
  - reflexivity.
  - intros name tm [H|[H|[]]] Hn; inversion H; subst.
    + now contradiction Hn.
    + discriminate.
Defined.

(** [run] raises KeyError when my own record has no key "bases", and
    IndexError when the key "bases" of an enemy maps to the empty list. *)
Lemma run_raises_counterexample :
  outcome (run exact_arith Sample.half plain_object goto_succeeds 0 1 Sample.no_bases_key [])
          (fresh init) = Raise KeyError
  /\ outcome (run exact_arith Sample.half plain_object goto_succeeds 0 1 Sample.empty_enemy [])
             (fresh init) = Raise IndexError.
Proof. split; reflexivity. Qed.

(** C4, as the code has it.  The target of the jets is computed from the
    enemy records: with more than one team in [info], the target is the
    position of a base with the greatest base score of an enemy team with the
    greatest power score, and (75, 75) when that team has no base; the scores
    are those that the arithmetic of the host computes, and where it does not
    round they are 10 per mine and a tenth of the crystal for a base, 100 per
    base and the scores of its bases for a team.  With no enemy team no jet
    is commanded.  A call returns when my own record has the key "bases" and
    no enemy record maps the key "bases" to an empty list; in a call that
    returns, every jet of mine receives one goto, with the coordinates of the
    target, after all other commands. *)
Theorem jets_go_to_the_strongest :
  forall arith random unpack goto_raises (t dt : Q) (info : Info) game_map (w : World),
    let me := team (self w) in
    let evs := issued (run arith random unpack goto_raises t dt info game_map) w in
    (forall p, jet_target arith me info = Some p ->
       (1 < length info)%nat
       /\ exists strongest,
            greatest (determine_power arith) (enemies me info) strongest
            /\ ((get_bases strongest = [] /\ p = (75, 75)%Q)
                \/ exists sb,
                     greatest (determine_base_power arith) (get_bases strongest) sb
                     /\ p = (base_x sb, base_y sb)))
    /\ (forall tm b,
          (determine_power exact_arith tm == power_score (get_bases tm))%Q
          /\ (determine_base_power exact_arith b == base_score b)%Q)
    /\ ((1 < length info)%nat -> enemies me info <> [] ->
        is_Some (jet_target arith me info))
    /\ (enemies me info = [] -> Forall (fun e => is_jet_event e = false) evs)
    /\ (handled (self w) info ->
        outcome (run arith random unpack goto_raises t dt info game_map) w = Ok tt)
    /\ (outcome (run arith random unpack goto_raises t dt info game_map) w = Ok tt ->
        exists myinfo before,
          info_get info me = Some myinfo
          /\ evs = before ++ jet_commands (jet_target arith me info) (jets myinfo)
          /\ Forall (fun e => is_jet_event e = false) before
          /\ (enemies me info <> [] -> is_Some (jet_target arith me info))).
Proof.
  intros arith random unpack goto_raises t dt info game_map w me evs.
  assert (Hret :
    outcome (run arith random unpack goto_raises t dt info game_map) w = Ok tt ->
    exists myinfo before,
      info_get info me = Some myinfo
      /\ evs = before ++ jet_commands (jet_target arith me info) (jets myinfo)
      /\ Forall (fun e => is_jet_event e = false) before
      /\ (enemies me info <> [] -> is_Some (jet_target arith me info))).
  { intros Hok.
    destruct (run_commands arith random unpack goto_raises t dt info game_map w Hok)
      as [myinfo [B [T [S [Hme [Hevs [FB [FT FS]]]]]]]].
    exists myinfo, (B ++ T ++ S). split; [exact Hme|]. split; [|split].
    - unfold evs. rewrite Hevs. now rewrite <- !app_assoc.
    - rewrite !Forall_app. repeat split.
      + eapply Forall_impl; [exact FB | apply not_jet_build].
      + eapply Forall_impl; [exact FT | apply not_jet_tank].
      + eapply Forall_impl; [exact FS | apply not_jet_ship].
    - intros Hen. apply jet_target_is_Some; [|exact Hen].
      now apply (two_teams me info myinfo). }
  split; [intros p; apply jet_target_spec|].
  split; [intros tm b; split;
          [apply determine_power_score | apply determine_base_power_score]|].
  split; [apply jet_target_is_Some|].
  split; [|split; [apply handled_returns | exact Hret]].
  intros Hen.
  destruct (outcome (run arith random unpack goto_raises t dt info game_map) w)
    as [[]|e] eqn:Hout.
  - destruct (Hret eq_refl) as [myinfo [before [_ [-> [Hb _]]]]].
    rewrite jet_target_no_enemy by exact Hen. simpl.
    now rewrite app_nil_r.
  - eapply Forall_impl.
    + eapply run_raises_commands. exact Hout.
    + apply not_jet_build.
Qed.

Lemma jets_go_to_the_strongest_witness :
  jet_target exact_arith CREATOR Sample.two_enemies = Some (30, 40)%Q
  /\ outcome (run exact_arith Sample.half plain_object goto_succeeds 0 1
                  Sample.two_enemies []) (fresh init) = Ok tt
  /\ exists myinfo before,
       info_get Sample.two_enemies CREATOR = Some myinfo
       /\ issued (run exact_arith Sample.half plain_object goto_succeeds 0 1
                      Sample.two_enemies []) (fresh init)
          = before ++ jet_commands (jet_target exact_arith CREATOR Sample.two_enemies)
                                   (jets myinfo)
       /\ Forall (fun e => is_jet_event e = false) before
       /\ (enemies CREATOR Sample.two_enemies <> [] ->
           is_Some (jet_target exact_arith CREATOR Sample.two_enemies)).
Proof.
  split; [reflexivity|].
  destruct (jets_go_to_the_strongest exact_arith Sample.half plain_object
              goto_succeeds 0 1 Sample.two_enemies [] (fresh init))
    as [_ [_ [_ [_ [Hret Hjets]]]]].
  assert (Hok := Hret (handledb_sound init Sample.two_enemies eq_refl)).
  split; [exact Hok | exact (Hjets Hok)].
Defined.

(** The claimed target is there and no jet receives it: with an enemy whose
    key "bases" maps to the empty list the target is (75, 75), and [run]
    raises IndexError before the loop over the jets; with my own record
    without the key "bases" there is a target and [run] raises KeyError in
    the build order. *)
Lemma jets_without_goto_counterexample :
  In Sample.my_jet
     (default [] (jets (default (mkTeam None None None None)
                          (info_get Sample.parade_empty CREATOR))))
  /\ jet_target exact_arith CREATOR Sample.parade_empty = Some (75, 75)%Q
  /\ outcome (run exact_arith Sample.half plain_object goto_succeeds 0 1
                  Sample.parade_empty []) (fresh init) = Raise IndexError
  /\ List.filter is_jet_event
       (issued (run exact_arith Sample.half plain_object goto_succeeds 0 1
                    Sample.parade_empty []) (fresh init)) = []
  /\ jet_target exact_arith CREATOR Sample.parade_homeless = Some (10, 10)%Q
  /\ outcome (run exact_arith Sample.half plain_object goto_succeeds 0 1
                  Sample.parade_homeless []) (fresh init) = Raise KeyError
  /\ issued (run exact_arith Sample.half plain_object goto_succeeds 0 1
                 Sample.parade_homeless []) (fresh init) = [].
Proof.
  split; [now left|]. repeat split; reflexivity.
Qed.

(** ** One ship *)

Lemma heading_range (r : Q) : (0 <= r < 1)%Q -> (0 <= r * 360 < 360)%Q.
Proof.
  intros [H0 H1]. split.
  - apply Qmult_le_0_compat; [exact H0 | discriminate].
  - apply Qlt_le_trans with (y := (1 * 360)%Q); [|discriminate].
    apply Qmult_lt_compat_r; [reflexivity | exact H1].
Qed.

Lemma ship_step_effect (random : nat -> Q) (v : Ship) (w : World) :
  let evs := ship_decision random v
               (previous_positions (self w) !! ship_uid v) (ndraws w) in
  ship_step random v w
  = (Ok tt, {| self := record_position (ship_uid v) (ship_position v) (self w);
               trace := trace w ++ evs;
               ndraws := ndraws w + draw_count evs |}).
Proof.
  unfold ship_step, ship_decision, bind, get_self; simpl.
  destruct w as [a tr n]; simpl.
  destruct (previous_positions a !! ship_uid v) as [prev|]; simpl.
  - destruct (position_eqb (ship_position v) prev); simpl.
    + destruct (Qgt_bool _ _); simpl.
      * unfold set_previous_position, record_position; simpl.
        now rewrite Nat.add_0_r.
      * unfold set_previous_position, record_position; simpl.
        now rewrite Nat.add_1_r.
    + unfold set_previous_position, record_position; simpl.
      now rewrite Nat.add_0_r, app_nil_r.
  - unfold set_previous_position, record_position; simpl.
    now rewrite Nat.add_0_r, app_nil_r.
Qed.

Lemma split_at_uid {A} (uid : A -> Uid) (l : list A) (v : A) :
  In v l -> NoDup (map uid l) ->
  exists l1 l2, l = l1 ++ v :: l2
                /\ ~ In (uid v) (map uid l1) /\ ~ In (uid v) (map uid l2).
Proof.
  intros Hin Hnd. apply in_split in Hin as [l1 [l2 ->]].
  exists l1, l2. split; [reflexivity|].
  rewrite map_app in Hnd. simpl in Hnd.
  apply NoDup_app in Hnd as [_ [Hd Hnd]].
  apply NoDup_cons in Hnd as [Hn2 _].
  split.
  - intros H. apply list_elem_of_In in H. apply (Hd _ H). now left.
  - intros H. apply Hn2. now apply list_elem_of_In.
Qed.

Lemma filter_none {A} (f : A -> bool) (l : list A) :
  Forall (fun x => f x = false) l -> List.filter f l = [].
Proof.
  induction 1 as [|x l Hx _ IH]; simpl; [reflexivity | now rewrite Hx].
Qed.

Lemma off_ship (l : list Ship) (u : Uid) (e : event) :
  (exists v, In v l /\ of_ship v e) -> ~ In u (map ship_uid l) ->
  on_ship u e = false.
Proof.
  intros [v [Hv He]] Hu. destruct e; simpl in *; try reflexivity; subst;
    apply Z.eqb_neq; intros <-; apply Hu; now apply in_map.
Qed.

Lemma off_ship_build (u : Uid) (e : event) : is_build e -> on_ship u e = false.
Proof. now destruct e. Qed.

Lemma off_ship_tank (tm : Team) (u : Uid) (e : event) :
  tank_commands tm e -> on_ship u e = false.
Proof. intros [v [_ H]]. now destruct e. Qed.

Lemma off_ship_jets (u : Uid) (target : option Position) (field : option (list Jet)) :
  Forall (fun e => on_ship u e = false) (jet_commands target field).
Proof.
  unfold jet_commands, gotos. destruct target; [|constructor].
  apply Forall_forall. intros e He.
  apply list_elem_of_In, in_map_iff in He as [j [<- _]]. reflexivity.
Qed.

(** The loop over the ships, seen from one ship of a list without a repeated
    uid: the ship is handled once, with the position recorded for it before
    the loop. *)
Lemma ships_loop (random : nat -> Q) (l : list Ship) (v : Ship) (w : World) :
  In v l -> NoDup (map ship_uid l) ->
  let w' := after (for_ l (ship_step random)) w in
  exists S1 S2 n,
    trace w' = trace w ++ S1
               ++ ship_decision random v
                    (previous_positions (self w) !! ship_uid v) n
               ++ S2
    /\ Forall (fun e => on_ship (ship_uid v) e = false) S1
    /\ Forall (fun e => on_ship (ship_uid v) e = false) S2
    /\ (ndraws w <= n)%nat
    /\ previous_positions (self w') !! ship_uid v = Some (ship_position v).
Proof.
  intros Hin Hnd w'.
  destruct (split_at_uid ship_uid l v Hin Hnd) as [l1 [l2 [-> [Hn1 Hn2]]]].
  subst w'. rewrite after_for_app by apply outcome_ship_step.
  set (wa := after (for_ l1 (ship_step random)) w).
  simpl for_. rewrite after_bind, outcome_ship_step.
  set (wb := after (ship_step random v) wa).
  destruct (frame_for of_ship (fun v => eq (ship_uid v)) (ship_step random) l1
              (frame_ship_step random) w) as [[S1 [HS1 F1]] P1 _ _ D1].
  fold wa in HS1, P1, D1.
  destruct (frame_for of_ship (fun v => eq (ship_uid v)) (ship_step random) l2
              (frame_ship_step random) wb) as [[S2 [HS2 F2]] P2 _ _ _].
  assert (Hpa : previous_positions (self wa) !! ship_uid v
                = previous_positions (self w) !! ship_uid v).
  { apply P1. intros [v' [Hv' Hu]]. apply Hn1. rewrite <- Hu. now apply in_map. }
  assert (Hwb : wb = {| self := record_position (ship_uid v) (ship_position v)
                                  (self wa);
                        trace := trace wa
                                 ++ ship_decision random v
                                      (previous_positions (self w) !! ship_uid v)
                                      (ndraws wa);
                        ndraws := ndraws wa
                                  + draw_count
                                      (ship_decision random v
                                         (previous_positions (self w) !! ship_uid v)
                                         (ndraws wa)) |}).
  { unfold wb, after. rewrite ship_step_effect. simpl. now rewrite Hpa. }
  exists S1, S2, (ndraws wa). repeat split.
  - rewrite HS2, Hwb. simpl. rewrite HS1. now rewrite <- !app_assoc.
  - eapply Forall_impl; [exact F1|]. intros e He. now apply (off_ship l1).
  - eapply Forall_impl; [exact F2|]. intros e He. now apply (off_ship l2).
  - exact D1.
  - rewrite P2.
    + rewrite Hwb. simpl. apply lookup_insert_eq.
    + intros [v' [Hv' Hu]]. apply Hn2. rewrite <- Hu. now apply in_map.
Qed.

Lemma filter_ship_decision (random : nat -> Q) (v : Ship) (prev : option Position)
    (n : nat) :
  List.filter (on_ship (ship_uid v)) (ship_decision random v prev n)
  = ship_decision random v prev n.
Proof.
  unfold ship_decision. destruct prev as [p|]; [|reflexivity].
  destruct (position_eqb _ _); [|reflexivity].
  destruct (Qgt_bool _ _); simpl; now rewrite Z.eqb_refl.
Qed.

Section OneShip.

Variable arith : Arith.
Variable random : nat -> Q.
Variable unpack : Base -> option (list Q).
Variable goto_raises : Tank -> Q -> Q -> bool.

Abbreviation run := (run arith random unpack goto_raises).

(** A ship of mine in a call of [run] that returns, when no two of my tanks
    and ships have the same uid: its commands are the decision taken on the
    position recorded before the call, and its position is recorded. *)
Lemma run_on_ship (t dt : Q) (info : Info) game_map (w : World)
    (myinfo : Team) (v : Ship) :
  outcome (run t dt info game_map) w = Ok tt ->
  info_get info (team (self w)) = Some myinfo ->
  In v (default [] (ships myinfo)) ->
  NoDup (tank_uids myinfo ++ ship_uids myinfo) ->
  exists n,
    List.filter (on_ship (ship_uid v)) (issued (run t dt info game_map) w)
    = ship_decision random v (previous_positions (self w) !! ship_uid v) n
    /\ previous_positions (self (after (run t dt info game_map) w))
         !! ship_uid v = Some (ship_position v).
Proof.
  intros Hok Hme Hin Hnd.
  destruct (run_returns arith random unpack goto_raises t dt info game_map w Hok)
    as [bs [myinfo' [Hbs [Hme' Hafter]]]].
  assert (myinfo' = myinfo) as -> by congruence.
  apply NoDup_app in Hnd as [_ [Hd Hnds]].
  assert (Hnt : ~ In (ship_uid v) (tank_uids myinfo)).
  { intros H. apply list_elem_of_In in H. apply (Hd _ H).
    apply list_elem_of_In. unfold ship_uids. now apply in_map. }
  set (w1 := decide_bases random (table_at t) bs w) in *.
  destruct (frame_decide_bases random (table_at t) is_build bs) with (w := w)
    as [[B [HB FB]] _ _ _ _]; [intros; apply command_is_build|].
  fold w1 in HB.
  destruct (frame_after_tanks arith random unpack goto_raises info myinfo w1)
    as [[T [HT FT]] PT _ _ _].
  set (wt := after_tanks arith random unpack goto_raises info myinfo w1) in *.
  unfold ship_uids in Hnds.
  destruct (ships myinfo) as [l|] eqn:Hl; [|destruct Hin].
  simpl in Hin, Hnds.
  destruct (ships_loop random l v wt Hin Hnds) as [S1 [S2 [n [HS [F1 [F2 [_ Hp]]]]]]].
  assert (Hws : after_ships arith random unpack goto_raises info myinfo w1
                = after (for_ l (ship_step random)) wt).
  { unfold after_ships. now rewrite Hl. }
  rewrite after_jets_effect, Hws in Hafter.
  exists n. split.
  - rewrite (issued_app _ _
               (B ++ T ++ S1
                ++ ship_decision random v
                     (previous_positions (self wt) !! ship_uid v) n
                ++ S2 ++ jet_commands (jet_target arith (team (self w1)) info)
                                      (jets myinfo))).
    + rewrite !List.filter_app, filter_ship_decision.
      rewrite (filter_none _ B), (filter_none _ T), (filter_none _ S1),
        (filter_none _ S2), (filter_none _ (jet_commands _ _)).
      * simpl. rewrite app_nil_r. f_equal.
        rewrite PT by exact Hnt. unfold w1.
        now rewrite positions_decide_bases.
      * apply off_ship_jets.
      * exact F2.
      * exact F1.
      * eapply Forall_impl; [exact FT | apply off_ship_tank].
      * eapply Forall_impl; [exact FB | apply off_ship_build].
    + rewrite Hafter. simpl. rewrite HS, HT, HB. now rewrite <- !app_assoc.
  - rewrite Hafter. simpl. exact Hp.
Qed.

End OneShip.

(** C6, as the code has it.  A call of [run] returns when my own record has
    the key "bases" and no enemy record maps the key "bases" to an empty
    list.  In a call that returns, for a ship of mine (no two of my tanks and
    ships having the same uid) whose uid is in previous_positions with the
    position the ship has now: if its distance to its owning base is strictly
    greater than 20 it receives exactly one convert_to_base and no heading;
    otherwise it receives exactly one set_heading, with a value in [0, 360),
    and is not converted.  The position of the ship is recorded, whatever the
    branch. *)
Theorem stationary_ship :
  forall arith random unpack goto_raises (t dt : Q) (info : Info) game_map
         (w : World) (myinfo : Team) (v : Ship),
    (forall i, (0 <= random i < 1)%Q) ->
    info_get info (team (self w)) = Some myinfo ->
    In v (default [] (ships myinfo)) ->
    NoDup (tank_uids myinfo ++ ship_uids myinfo) ->
    let evs := issued (run arith random unpack goto_raises t dt info game_map) w in
    let w' := after (run arith random unpack goto_raises t dt info game_map) w in
    let d := get_distance v (base_x (owner v)) (base_y (owner v)) in
    (handled (self w) info ->
     outcome (run arith random unpack goto_raises t dt info game_map) w = Ok tt)
    /\ (outcome (run arith random unpack goto_raises t dt info game_map) w = Ok tt ->
        previous_positions (self w') !! ship_uid v = Some (ship_position v)
        /\ forall prev,
             previous_positions (self w) !! ship_uid v = Some prev ->
             position_eqb (ship_position v) prev = true ->
             ((20 < d)%Q ->
                List.filter (on_ship (ship_uid v)) evs = [ship_convert_to_base v])
             /\ ((d <= 20)%Q ->
                  exists h, List.filter (on_ship (ship_uid v)) evs
                            = [ship_set_heading v h]
                            /\ (0 <= h < 360)%Q)).
Proof.
  intros arith random unpack goto_raises t dt info game_map w myinfo v
    Hrnd Hme Hin Hnd evs w' d.
  split; [apply handled_returns|]. intros Hok.
  destruct (run_on_ship arith random unpack goto_raises t dt info game_map w myinfo v
              Hok Hme Hin Hnd) as [n [Hevs Hp]].
  split; [exact Hp|].
  intros prev Hprev Heq. fold evs in Hevs. rewrite Hevs, Hprev.
  unfold ship_decision. rewrite Heq. fold d. split.
  - intros Hd. apply Qlt_bool_iff in Hd. unfold Qgt_bool. now rewrite Hd.
  - intros Hd. apply Qlt_bool_false_iff in Hd. unfold Qgt_bool. rewrite Hd.
    eexists. split; [reflexivity|]. apply heading_range, Hrnd.
Qed.

Lemma stationary_ship_witness :
  outcome (run exact_arith Sample.half plain_object goto_succeeds 0 1 Sample.fleet [])
          (fresh Sample.saw_fleet) = Ok tt
  /\ List.filter (on_ship 31)
       (issued (run exact_arith Sample.half plain_object goto_succeeds 0 1
                    Sample.fleet [])
               (fresh Sample.saw_fleet))
     = [ship_convert_to_base Sample.far_ship]
  /\ exists h,
       List.filter (on_ship 32)
         (issued (run exact_arith Sample.half plain_object goto_succeeds 0 1
                      Sample.fleet [])
                 (fresh Sample.saw_fleet))
       = [ship_set_heading Sample.near_ship h]
       /\ (0 <= h < 360)%Q.
Proof.
  assert (Hrnd : forall i : nat, (0 <= Sample.half i < 1)%Q).
  { intros i. split; [discriminate | reflexivity]. }
  assert (Hnd : NoDup (tank_uids (mkTeam (Some [Sample.home]) None
                                    (Some [Sample.far_ship; Sample.near_ship]) None)
                       ++ ship_uids (mkTeam (Some [Sample.home]) None
                                       (Some [Sample.far_ship; Sample.near_ship])
                                       None))).
  { apply NoDup_ListNoDup. repeat constructor; simpl; intuition discriminate. }
  destruct (stationary_ship exact_arith Sample.half plain_object goto_succeeds 0 1
              Sample.fleet [] (fresh Sample.saw_fleet) _ Sample.far_ship
              Hrnd eq_refl (or_introl eq_refl) Hnd) as [Hret Hfar].
  destruct (stationary_ship exact_arith Sample.half plain_object goto_succeeds 0 1
              Sample.fleet [] (fresh Sample.saw_fleet) _ Sample.near_ship
              Hrnd eq_refl (or_intror (or_introl eq_refl)) Hnd) as [_ Hnear].
  assert (Hok := Hret (handledb_sound Sample.saw_fleet Sample.fleet eq_refl)).
  split; [exact Hok|]. split.
  - apply (proj2 (Hfar Hok) (40, 0)%Q); reflexivity.
  - apply (proj2 (Hnear Hok) (5, 0)%Q); try reflexivity. discriminate.
Defined.

(** A ship of mine that the agent saw where it is, 30 away from its base,
    receives no command when [run] raises before the loop over the ships:
    with an enemy whose key "bases" maps to the empty list, and with my own
    record without the key "bases". *)
Lemma stationary_ship_counterexample :
  previous_positions Sample.saw_parade !! 31 = Some (ship_position Sample.far_ship)
  /\ outcome (run exact_arith Sample.half plain_object goto_succeeds 0 1
                  Sample.parade_empty []) (fresh Sample.saw_parade)
     = Raise IndexError
  /\ List.filter (on_ship 31)
       (issued (run exact_arith Sample.half plain_object goto_succeeds 0 1
                    Sample.parade_empty []) (fresh Sample.saw_parade)) = []
  /\ outcome (run exact_arith Sample.half plain_object goto_succeeds 0 1
                  Sample.parade_homeless []) (fresh Sample.saw_parade)
     = Raise KeyError
  /\ List.filter (on_ship 31)
       (issued (run exact_arith Sample.half plain_object goto_succeeds 0 1
                    Sample.parade_homeless []) (fresh Sample.saw_parade)) = [].
Proof. repeat split; reflexivity. Qed.

(** ** One tank *)

Section OneTank.

Variable arith : Arith.
Variable random : nat -> Q.
Variable unpack : Base -> option (list Q).
Variable goto_raises : Tank -> Q -> Q -> bool.

Abbreviation run := (run arith random unpack goto_raises).
Abbreviation tank_step := (tank_step arith random unpack goto_raises).
Abbreviation tank_decision := (tank_decision arith random unpack).

Lemma try_goto_effect (v : Tank) (b : Base) (w : World) :
  try_pass (goto_unpacked unpack goto_raises v b) w
  = (Ok tt, {| self := self w;
               trace := trace w ++ match unpack b with
                                   | Some [x; y] => [tank_goto v x y]
                                   | _ => []
                                   end;
               ndraws := ndraws w |}).
Proof.
  unfold try_pass, goto_unpacked.
  destruct (unpack b) as [[|x [|y [|z l]]]|]; simpl;
    try (rewrite app_nil_r; now destruct w).
  unfold bind, emit. simpl. now destruct (goto_raises v x y).
Qed.

Lemma tank_step_effect (info : Info) (v : Tank) (w : World) :
  let evs := tank_decision (team (self w)) info v
               (previous_positions (self w) !! tank_uid v) (ndraws w) in
  tank_step info v w
  = (Ok tt, {| self := record_position (tank_uid v) (tank_position v) (self w);
               trace := trace w ++ evs;
               ndraws := ndraws w + draw_count evs |}).
Proof.
  unfold tank_step, tank_decision.
  unfold bind at 1, get_self at 1. cbv beta iota zeta.
  unfold bind at 1.
  destruct (previous_positions (self w) !! tank_uid v) as [prev|].
  - destruct (negb (stopped v)).
    + destruct (position_eqb (tank_position v) prev).
      * destruct w as [a tr n]. unfold bind, np_random, emit,
          set_previous_position, record_position; simpl.
        now rewrite Nat.add_1_r.
      * destruct (head _) as [b|].
        -- rewrite try_goto_effect.
           destruct w as [a tr n]. unfold set_previous_position,
             record_position; simpl.
           destruct (unpack b) as [[|x [|y [|z l]]]|]; simpl;
             now rewrite Nat.add_0_r.
        -- destruct w as [a tr n]. unfold ret, set_previous_position,
             record_position; simpl.
           now rewrite Nat.add_0_r, app_nil_r.
    + destruct w as [a tr n]. unfold ret, set_previous_position,
        record_position; simpl.
      now rewrite Nat.add_0_r, app_nil_r.
  - destruct w as [a tr n]. unfold ret, set_previous_position,
      record_position; simpl.
    now rewrite Nat.add_0_r, app_nil_r.
Qed.

Lemma filter_tank_decision (me : string) (info : Info) (v : Tank)
    (prev : option Position) (n : nat) :
  List.filter (on_tank (tank_uid v)) (tank_decision me info v prev n)
  = tank_decision me info v prev n.
Proof.
  unfold tank_decision. destruct prev as [p|]; [|reflexivity].
  destruct (negb (stopped v)); [|reflexivity].
  destruct (position_eqb _ _); [simpl; now rewrite Z.eqb_refl|].
  destruct (head _) as [b|]; [|reflexivity].
  destruct (unpack b) as [[|x [|y [|z l]]]|]; simpl; try reflexivity.
  now rewrite Z.eqb_refl.
Qed.

Lemma off_tank (l : list Tank) (u : Uid) (e : event) :
  (exists v, In v l /\ of_tank v e) -> ~ In u (map tank_uid l) ->
  on_tank u e = false.
Proof.
  intros [v [Hv He]] Hu. destruct e; simpl in *; try reflexivity; subst;
    apply Z.eqb_neq; intros <-; apply Hu; now apply in_map.
Qed.

(** The loop over the tanks, seen from one tank of a list without a
    repeated uid. *)
Lemma tanks_loop (info : Info) (l : list Tank) (v : Tank) (w : World) :
  In v l -> NoDup (map tank_uid l) ->
  let w' := after (for_ l (tank_step info)) w in
  exists T1 T2 n,
    let evs := tank_decision (team (self w)) info v
                 (previous_positions (self w) !! tank_uid v) n in
    trace w' = trace w ++ T1 ++ evs ++ T2
    /\ Forall (fun e => on_tank (tank_uid v) e = false) T1
    /\ Forall (fun e => on_tank (tank_uid v) e = false) T2
    /\ (ndraws w <= n)%nat
    /\ (n + draw_count evs <= ndraws w')%nat
    /\ previous_positions (self w') !! tank_uid v = Some (tank_position v).
Proof.
  intros Hin Hnd w'.
  destruct (split_at_uid tank_uid l v Hin Hnd) as [l1 [l2 [-> [Hn1 Hn2]]]].
  subst w'.
  rewrite after_for_app by apply outcome_tank_step.
  set (wa := after (for_ l1 (tank_step info)) w).
  simpl for_. rewrite after_bind, outcome_tank_step.
  set (wb := after (tank_step info v) wa).
  destruct (frame_for of_tank (fun v => eq (tank_uid v)) (tank_step info) l1
              (frame_tank_step arith random unpack goto_raises info) w)
    as [[T1 [HT1 F1]] P1 _ N1 D1].
  fold wa in HT1, P1, N1, D1.
  destruct (frame_for of_tank (fun v => eq (tank_uid v)) (tank_step info) l2
              (frame_tank_step arith random unpack goto_raises info) wb)
    as [[T2 [HT2 F2]] P2 _ _ D2].
  assert (Hpa : previous_positions (self wa) !! tank_uid v
                = previous_positions (self w) !! tank_uid v).
  { apply P1. intros [v' [Hv' Hu]]. apply Hn1. rewrite <- Hu. now apply in_map. }
  pose (evs := tank_decision (team (self w)) info v
                 (previous_positions (self w) !! tank_uid v) (ndraws wa)).
  assert (Hwb : wb = {| self := record_position (tank_uid v) (tank_position v)
                                  (self wa);
                        trace := trace wa ++ evs;
                        ndraws := ndraws wa + draw_count evs |}).
  { unfold wb, after. rewrite tank_step_effect. simpl. now rewrite Hpa, N1. }
  exists T1, T2, (ndraws wa). fold evs. cbv zeta. repeat split.
  - rewrite HT2, Hwb. simpl. rewrite HT1. now rewrite <- !app_assoc.
  - eapply Forall_impl; [exact F1|]. intros e He. now apply (off_tank l1).
  - eapply Forall_impl; [exact F2|]. intros e He. now apply (off_tank l2).
  - exact D1.
  - assert (Hd : ndraws wb = (ndraws wa + draw_count evs)%nat)
      by now rewrite Hwb.
    rewrite <- Hd. exact D2.
  - rewrite P2.
    + rewrite Hwb. simpl. apply lookup_insert_eq.
    + intros [v' [Hv' Hu]]. apply Hn2. rewrite <- Hu. now apply in_map.
Qed.

Lemma off_tank_build (u : Uid) (e : event) : is_build e -> on_tank u e = false.
Proof. now destruct e. Qed.

Lemma off_tank_ship (tm : Team) (u : Uid) (e : event) :
  ship_commands tm e -> on_tank u e = false.
Proof. intros [v [_ H]]. now destruct e. Qed.

Lemma off_tank_jets (u : Uid) (target : option Position)
    (field : option (list Jet)) :
  Forall (fun e => on_tank u e = false) (jet_commands target field).
Proof.
  unfold jet_commands, gotos. destruct target; [|constructor].
  apply Forall_forall. intros e He.
  apply list_elem_of_In, in_map_iff in He as [j [<- _]]. reflexivity.
Qed.

(** A tank of mine in a call of [run] that returns, when no two of my tanks
    and ships have the same uid: its commands are the decision taken on the
    position recorded before the call, with a draw of this call, and its
    position is recorded. *)
Lemma run_on_tank (t dt : Q) (info : Info) game_map (w : World)
    (myinfo : Team) (v : Tank) :
  outcome (run t dt info game_map) w = Ok tt ->
  info_get info (team (self w)) = Some myinfo ->
  In v (default [] (tanks myinfo)) ->
  NoDup (tank_uids myinfo ++ ship_uids myinfo) ->
  let w' := after (run t dt info game_map) w in
  exists n,
    let evs := tank_decision (team (self w)) info v
                 (previous_positions (self w) !! tank_uid v) n in
    List.filter (on_tank (tank_uid v)) (issued (run t dt info game_map) w) = evs
    /\ (ndraws w <= n)%nat
    /\ (n + draw_count evs <= ndraws w')%nat
    /\ previous_positions (self w') !! tank_uid v = Some (tank_position v).
Proof.
  intros Hok Hme Hin Hnd w'.
  destruct (run_returns arith random unpack goto_raises t dt info game_map w Hok)
    as [bs [myinfo' [Hbs [Hme' Hafter]]]].
  assert (myinfo' = myinfo) as -> by congruence.
  apply NoDup_app in Hnd as [Hndt [Hd _]].
  assert (Hns : ~ In (tank_uid v) (ship_uids myinfo)).
  { intros H. apply list_elem_of_In in H. apply (Hd (tank_uid v)); [|exact H].
    apply list_elem_of_In. unfold tank_uids. now apply in_map. }
  set (w1 := decide_bases random (table_at t) bs w) in *.
  destruct (frame_decide_bases random (table_at t) is_build bs) with (w := w)
    as [[B [HB FB]] _ _ N1 D1]; [intros; apply command_is_build|].
  fold w1 in HB, N1, D1.
  destruct (frame_after_ships arith random unpack goto_raises info myinfo w1)
    as [[S [HS FS]] PS _ _ DS].
  unfold tank_uids in Hndt.
  assert (Hwt : after_tanks arith random unpack goto_raises info myinfo w1
                = after (for_ (default [] (tanks myinfo)) (tank_step info)) w1).
  { unfold after_tanks. destruct (tanks myinfo); reflexivity. }
  rewrite Hwt in HS, PS, DS.
  destruct (tanks_loop info _ v w1 Hin Hndt)
    as [T1 [T2 [n [HT [F1 [F2 [Dn [Dn' Hp]]]]]]]].
  rewrite N1 in HT, Dn'. unfold w1 in HT at 3, Dn' at 1.
  rewrite positions_decide_bases in HT, Dn'.
  subst w'. rewrite Hafter, after_jets_effect. simpl.
  exists n. cbv zeta. repeat split.
  - rewrite (issued_app _ _
               (B ++ T1
                ++ tank_decision (team (self w)) info v
                     (previous_positions (self w) !! tank_uid v) n
                ++ T2 ++ S
                ++ jet_commands (jet_target arith (team (self w1)) info)
                                (jets myinfo))).
    + rewrite !List.filter_app, filter_tank_decision.
      rewrite (filter_none _ B), (filter_none _ T1), (filter_none _ T2),
        (filter_none _ S), (filter_none _ (jet_commands _ _)).
      * simpl. now rewrite app_nil_r.
      * apply off_tank_jets.
      * eapply Forall_impl; [exact FS | apply off_tank_ship].
      * exact F2.
      * exact F1.
      * eapply Forall_impl; [exact FB | apply off_tank_build].
    + rewrite Hafter, after_jets_effect. simpl. rewrite HS, HT, HB.
      now rewrite <- !app_assoc.
  - lia.
  - lia.
  - rewrite PS by exact Hns. exact Hp.
Qed.

End OneTank.

(** ** The goto of the tanks *)

Lemma frame_refine (E E' : event -> Prop) (U : Uid -> Prop) (w w' : World)
    (evs : list event) :
  frame E U w w' -> trace w' = trace w ++ evs -> Forall E' evs ->
  frame E' U w w'.
Proof.
  intros [_ P K N D] Ht He. split; try assumption. now exists evs.
Qed.

Section Goto.

Variable arith : Arith.
Variable random : nat -> Q.
Variable unpack : Base -> option (list Q).
Variable goto_raises : Tank -> Q -> Q -> bool.

Abbreviation control := (control arith random unpack goto_raises).
Abbreviation tank_step := (tank_step arith random unpack goto_raises).

(** The control of the vehicles issues commands in [E] when the steps of
    the tanks do and [E] has the commands of the ships and of the jets. *)
Lemma frame_control_with (E : event -> Prop) (info : Info) :
  (forall v, respects (frame E (fun _ => True)) (tank_step info v)) ->
  (forall v e, of_ship v e -> E e) ->
  (forall v e, of_jet v e -> E e) ->
  respects (frame E (fun _ => True)) (control info).
Proof.
  intros Htank Hship Hjet. unfold control.
  papply respects_bind; [papply respects_get_self | intros a].
  papply respects_bind; [papply respects_info_getitem | intros myinfo].
  papply respects_bind; [papply respects_first_target | intros _].
  papply respects_bind; [|intros _; papply respects_bind; [|intros _]].
  - papply respects_for_key. apply Htank.
  - papply respects_for_key. intros v.
    eapply respects_frame_weaken; [| | apply frame_ship_step]; [|done].
    apply Hship.
  - papply respects_for_key. intros v.
    eapply respects_frame_weaken; [| | apply frame_jet_step]; [|done].
    apply Hjet.
Qed.

Lemma frame_run_with (E : event -> Prop) (t dt : Q) (info : Info) game_map :
  (forall v, respects (frame E (fun _ => True)) (tank_step info v)) ->
  (forall v e, of_ship v e -> E e) ->
  (forall v e, of_jet v e -> E e) ->
  (forall e, is_build e -> E e) ->
  respects (frame E (fun _ => True))
           (run arith random unpack goto_raises t dt info game_map).
Proof.
  intros Htank Hship Hjet Hbuild. unfold run.
  papply respects_bind.
  - eapply respects_frame_weaken; [| | apply frame_build]; [exact Hbuild | done].
  - intros _. now apply frame_control_with.
Qed.

End Goto.

Lemma no_goto_tank_step arith (random : nat -> Q) goto_raises (info : Info)
    (v : Tank) :
  respects (frame (fun e => is_goto e = false) (fun _ => True))
           (tank_step arith random plain_object goto_raises info v).
Proof.
  intros w. eapply frame_refine.
  - eapply frame_weaken; [| | apply frame_tank_step]; [intros e H; exact H | done].
  - unfold after. rewrite tank_step_effect. reflexivity.
  - unfold tank_decision, plain_object.
    destruct (previous_positions (self w) !! tank_uid v) as [p|]; [|constructor].
    destruct (negb (stopped v)); [|constructor].
    destruct (position_eqb _ _); [repeat constructor|].
    destruct (head _); constructor.
Qed.

(** C5, as the code behaves.  [tank_step] passes the nearest enemy base
    itself to goto, unpacked, and not its coordinates.  With bases that are
    plain objects the unpacking raises, the exception is discarded, and no
    call of [run] issues a goto on a tank: the tank [Sample.rover], tracked
    at another position, not stopped, with an enemy base on the map,
    receives no command at all.  With bases that unpack to their
    coordinates the same call sends it to the base at (10, 10). *)
Theorem tank_goto_is_lost :
  (forall arith random goto_raises (t dt : Q) (info : Info) game_map (w : World),
      Forall (fun e => is_goto e = false)
             (issued (run arith random plain_object goto_raises t dt info game_map) w))
  /\ List.filter (on_tank 7)
       (issued (run exact_arith Sample.half plain_object goto_succeeds 0 1 Sample.patrol [])
               (fresh Sample.saw_rover)) = []
  /\ List.filter (on_tank 7)
       (issued (run exact_arith Sample.half as_pair goto_succeeds 0 1 Sample.patrol [])
               (fresh Sample.saw_rover)) = [tank_goto Sample.rover 10 10].
Proof.
  split; [|split; reflexivity].
  intros arith random goto_raises t dt info game_map w.
  destruct (frame_run_with arith random plain_object goto_raises
              (fun e => is_goto e = false) t dt info game_map) with (w := w)
    as [[evs [Ht He]] _ _ _ _].
  - intros v. apply no_goto_tank_step.
  - intros v e H. now destruct e.
  - intros v e H. now destruct e.
  - intros e H. now destruct e.
  - now rewrite (issued_app _ _ evs).
Qed.

(** ** A tank that does not move, over two calls *)

Lemma position_eqb_refl (p : Position) : position_eqb p p = true.
Proof.
  unfold position_eqb. apply andb_true_intro.
  split; apply Qeq_bool_iff; reflexivity.
Qed.

Section TwoCalls.

Variable arith : Arith.
Variable random : nat -> Q.
Variable unpack : Base -> option (list Q).
Variable goto_raises : Tank -> Q -> Q -> bool.

Abbreviation run := (run arith random unpack goto_raises).

Lemma frame_run (t dt : Q) (info : Info) game_map :
  respects (frame (fun _ => True) (fun _ => True)) (run t dt info game_map).
Proof.
  apply frame_run_with; try done.
  intros v. eapply respects_frame_weaken; [| | apply frame_tank_step]; done.
Qed.

Lemma team_run (t dt : Q) (info : Info) game_map (w : World) :
  team (self (after (run t dt info game_map) w)) = team (self w).
Proof. now destruct (frame_run t dt info game_map w). Qed.

End TwoCalls.

(** C9, as the code has it.  Two calls of [run] in succession with the same
    snapshot, in which a tank of mine is not stopped (no two of my tanks and
    ships having the same uid).  Both calls return when my own record has the
    key "bases" and no enemy record maps the key "bases" to an empty list.
    When both calls return, the second call issues exactly one set_heading on
    the tank, of 360 times a draw made in the second call.  The first call
    issues exactly one as well, of an earlier draw, when the agent already
    had the tank at this position; it issues no command on the tank when the
    agent did not have the tank yet. *)
Theorem stuck_tank_twice :
  forall arith random unpack goto_raises (t1 t2 dt : Q) (info : Info) game_map
         (w : World) (myinfo : Team) (v : Tank),
    let w1 := after (run arith random unpack goto_raises t1 dt info game_map) w in
    let first := issued (run arith random unpack goto_raises t1 dt info game_map) w in
    let second := issued (run arith random unpack goto_raises t2 dt info game_map) w1 in
    info_get info (team (self w)) = Some myinfo ->
    In v (default [] (tanks myinfo)) ->
    NoDup (tank_uids myinfo ++ ship_uids myinfo) ->
    stopped v = false ->
    (handled (self w) info ->
     outcome (run arith random unpack goto_raises t1 dt info game_map) w = Ok tt
     /\ outcome (run arith random unpack goto_raises t2 dt info game_map) w1 = Ok tt)
    /\ (outcome (run arith random unpack goto_raises t1 dt info game_map) w = Ok tt ->
        outcome (run arith random unpack goto_raises t2 dt info game_map) w1 = Ok tt ->
        exists n2,
          List.filter (on_tank (tank_uid v)) second
          = [tank_set_heading v (random n2 * 360)%Q]
          /\ (ndraws w1 <= n2)%nat
          /\ (previous_positions (self w) !! tank_uid v = None ->
              List.filter (on_tank (tank_uid v)) first = [])
          /\ (forall prev,
                previous_positions (self w) !! tank_uid v = Some prev ->
                position_eqb (tank_position v) prev = true ->
                exists n1,
                  List.filter (on_tank (tank_uid v)) first
                  = [tank_set_heading v (random n1 * 360)%Q]
                  /\ (n1 < n2)%nat)).
Proof.
  intros arith random unpack goto_raises t1 t2 dt info game_map w myinfo v
    w1 first second Hme Hin Hnd Hst.
  split.
  { intros Hh. split; [now apply handled_returns|].
    apply handled_returns. apply (handled_team (self w)); [|exact Hh].
    apply team_run. }
  intros Hok1 Hok2.
  destruct (run_on_tank arith random unpack goto_raises t1 dt info game_map w myinfo v
              Hok1 Hme Hin Hnd) as [n1 [H1 [D1 [D1' Hp1]]]].
  fold w1 in D1', Hp1. fold first in H1.
  assert (Hme1 : info_get info (team (self w1)) = Some myinfo).
  { unfold w1. now rewrite team_run. }
  destruct (run_on_tank arith random unpack goto_raises t2 dt info game_map w1 myinfo v
              Hok2 Hme1 Hin Hnd) as [n2 [H2 [D2 _]]].
  fold second in H2.
  rewrite Hp1 in H2. unfold tank_decision in H2.
  rewrite Hst, position_eqb_refl in H2. simpl in H2.
  exists n2. split; [exact H2|]. split; [exact D2|]. split.
  - intros Hnone. rewrite H1, Hnone. reflexivity.
  - intros prev Hprev Heq. exists n1.
    rewrite Hprev in H1, D1'. unfold tank_decision in H1, D1'.
    rewrite Hst, Heq in H1, D1'. simpl in H1, D1'.
    split; [exact H1 | unfold draw_count in D1'; simpl in D1'; lia].
Qed.

Lemma stuck_tank_twice_witness :
  let w := fresh Sample.at_rover in
  let w1 := after (run exact_arith Sample.half plain_object goto_succeeds 0 1
                       Sample.patrol []) w in
  let first := issued (run exact_arith Sample.half plain_object goto_succeeds 0 1
                           Sample.patrol []) w in
  let second := issued (run exact_arith Sample.half plain_object goto_succeeds 1 1
                            Sample.patrol []) w1 in
  (outcome (run exact_arith Sample.half plain_object goto_succeeds 0 1
                Sample.patrol []) w = Ok tt
   /\ outcome (run exact_arith Sample.half plain_object goto_succeeds 1 1
                   Sample.patrol []) w1 = Ok tt)
  /\ exists n2,
       List.filter (on_tank 7) second
       = [tank_set_heading Sample.rover (Sample.half n2 * 360)%Q]
       /\ (ndraws w1 <= n2)%nat
       /\ (previous_positions (self w) !! 7 = None ->
           List.filter (on_tank 7) first = [])
       /\ (forall prev,
             previous_positions (self w) !! 7 = Some prev ->
             position_eqb (3, 4)%Q prev = true ->
             exists n1,
               List.filter (on_tank 7) first
               = [tank_set_heading Sample.rover (Sample.half n1 * 360)%Q]
               /\ (n1 < n2)%nat).
Proof.
  assert (Hnd : NoDup (tank_uids (mkTeam (Some [Sample.home]) (Some [Sample.rover])
                                         None None)
                       ++ ship_uids (mkTeam (Some [Sample.home])
                                            (Some [Sample.rover]) None None))).
  { apply NoDup_ListNoDup. repeat constructor. simpl. tauto. }
  destruct (stuck_tank_twice exact_arith Sample.half plain_object goto_succeeds 0 1 1
              Sample.patrol [] (fresh Sample.at_rover)
              (mkTeam (Some [Sample.home]) (Some [Sample.rover]) None None)
              Sample.rover eq_refl (or_introl eq_refl) Hnd eq_refl)
    as [Hret Htwice].
  assert (Hok := Hret (handledb_sound Sample.at_rover Sample.patrol eq_refl)).
  split; [exact Hok|]. exact (Htwice (proj1 Hok) (proj2 Hok)).
Defined.

(** On a new agent the two calls issue one set_heading on the tank in total,
    not two: the first call only records the position. *)
Lemma stuck_tank_counterexample :
  let w := fresh init in
  let w1 := after (run exact_arith Sample.half plain_object goto_succeeds 0 1
                       Sample.patrol []) w in
  let first := issued (run exact_arith Sample.half plain_object goto_succeeds 0 1
                           Sample.patrol []) w in
  let second := issued (run exact_arith Sample.half plain_object goto_succeeds 1 1
                            Sample.patrol []) w1 in
  stopped Sample.rover = false
  /\ List.filter (on_tank 7) first = []
  /\ List.filter (on_tank 7) second
     = [tank_set_heading Sample.rover (Sample.half 0%nat * 360)%Q]
  /\ length (List.filter (on_tank 7) (first ++ second)) <> 2%nat.
Proof.
  cbv zeta. split; [reflexivity|]. split; [reflexivity|].
  split; [reflexivity|]. vm_compute. discriminate.
Qed.

(** ** The recorded positions *)

Section Positions.

Variable arith : Arith.
Variable random : nat -> Q.
Variable unpack : Base -> option (list Q).
Variable goto_raises : Tank -> Q -> Q -> bool.

Abbreviation run := (run arith random unpack goto_raises).

Lemma run_raises_positions (t dt : Q) (info : Info) game_map (w : World)
    (e : exn) :
  outcome (run t dt info game_map) w = Raise e ->
  previous_positions (self (after (run t dt info game_map) w))
  = previous_positions (self w).
Proof.
  unfold outcome, after. rewrite run_shape.
  destruct (my_bases (self w) info) as [bs|]; [|reflexivity].
  rewrite control_shape.
  destruct (info_get info _); [|intros _; apply positions_decide_bases].
  destruct (outcome _ _); [discriminate|].
  intros _. apply positions_decide_bases.
Qed.

(** An entry of previous_positions that a call changes or adds is that of
    a tank or of a ship of my record. *)
Lemma run_touches (t dt : Q) (info : Info) game_map (w : World) (u : Uid) :
  previous_positions (self (after (run t dt info game_map) w)) !! u
  <> previous_positions (self w) !! u ->
  exists myinfo,
    info_get info (team (self w)) = Some myinfo
    /\ (In u (tank_uids myinfo) \/ In u (ship_uids myinfo)).
Proof.
  intros Hne.
  destruct (outcome (run t dt info game_map) w) as [[]|e] eqn:Hout.
  - destruct (run_returns arith random unpack goto_raises t dt info game_map w Hout)
      as [bs [myinfo [Hbs [Hme Hafter]]]].
    exists myinfo. split; [exact Hme|].
    destruct (In_dec Z.eq_dec u (tank_uids myinfo)) as [Ht|Ht]; [now left|].
    destruct (In_dec Z.eq_dec u (ship_uids myinfo)) as [Hs|Hs]; [now right|].
    exfalso. apply Hne. rewrite Hafter, after_jets_effect. simpl.
    destruct (frame_after_ships arith random unpack goto_raises info myinfo
                (decide_bases random (table_at t) bs w)) as [_ PS _ _ _].
    destruct (frame_after_tanks arith random unpack goto_raises info myinfo
                (decide_bases random (table_at t) bs w)) as [_ PT _ _ _].
    rewrite PS, PT by assumption. now rewrite positions_decide_bases.
  - exfalso. apply Hne. now rewrite (run_raises_positions _ _ _ _ _ e).
Qed.

End Positions.

(** C10, as the code has it.  A call of [run] returns when my own record
    has the key "bases" and no enemy record maps the key "bases" to an empty
    list.  After a call that returns, previous_positions maps the uid of
    every tank and of every ship of my record to the position of the unit in
    this call (no two of my tanks and ships having the same uid); a call that
    raises leaves previous_positions as it was.  No call removes an entry,
    and the entries a call adds or changes are those of the uids of my tanks
    and of my ships: the uid of a jet is not added. *)
Theorem positions_recorded :
  forall arith random unpack goto_raises (t dt : Q) (info : Info) game_map (w : World),
    let w' := after (run arith random unpack goto_raises t dt info game_map) w in
    (handled (self w) info ->
     outcome (run arith random unpack goto_raises t dt info game_map) w = Ok tt)
    /\ (forall myinfo,
          outcome (run arith random unpack goto_raises t dt info game_map) w = Ok tt ->
          info_get info (team (self w)) = Some myinfo ->
          NoDup (tank_uids myinfo ++ ship_uids myinfo) ->
          (forall v, In v (default [] (tanks myinfo)) ->
             previous_positions (self w') !! tank_uid v = Some (tank_position v))
          /\ (forall v, In v (default [] (ships myinfo)) ->
                previous_positions (self w') !! ship_uid v
                = Some (ship_position v)))
    /\ (forall e,
          outcome (run arith random unpack goto_raises t dt info game_map) w = Raise e ->
          previous_positions (self w') = previous_positions (self w))
    /\ (forall u, is_Some (previous_positions (self w) !! u) ->
                  is_Some (previous_positions (self w') !! u))
    /\ (forall u,
          previous_positions (self w') !! u <> previous_positions (self w) !! u ->
          exists myinfo,
            info_get info (team (self w)) = Some myinfo
            /\ (In u (tank_uids myinfo) \/ In u (ship_uids myinfo))).
Proof.
  intros arith random unpack goto_raises t dt info game_map w w'.
  split; [apply handled_returns|]. split; [|split; [|split]].
  - intros myinfo Hok Hme Hnd. split.
    + intros v Hv.
      destruct (run_on_tank arith random unpack goto_raises t dt info game_map w
                  myinfo v Hok Hme Hv Hnd) as [n [_ [_ [_ Hp]]]].
      exact Hp.
    + intros v Hv.
      destruct (run_on_ship arith random unpack goto_raises t dt info game_map w
                  myinfo v Hok Hme Hv Hnd) as [n [_ Hp]].
      exact Hp.
  - intros e. apply run_raises_positions.
  - intros u Hu.
    destruct (frame_run arith random unpack goto_raises t dt info game_map w)
      as [_ _ K _ _].
    now apply K.
  - apply run_touches.
Qed.

Lemma positions_recorded_witness :
  let w' := after (run exact_arith Sample.half plain_object goto_succeeds 0 1
                       Sample.parade []) (fresh init) in
  outcome (run exact_arith Sample.half plain_object goto_succeeds 0 1
               Sample.parade []) (fresh init) = Ok tt
  /\ (forall v, In v [Sample.rover] ->
        previous_positions (self w') !! tank_uid v = Some (tank_position v))
  /\ (forall v, In v [Sample.far_ship; Sample.near_ship] ->
        previous_positions (self w') !! ship_uid v = Some (ship_position v)).
Proof.
  destruct (positions_recorded exact_arith Sample.half plain_object goto_succeeds 0 1
              Sample.parade [] (fresh init)) as [Hret [Hrec _]].
  assert (Hok := Hret (handledb_sound init Sample.parade eq_refl)).
  split; [exact Hok|].
  apply (Hrec (mkTeam (Some [Sample.barracks]) (Some [Sample.rover])
                      (Some [Sample.far_ship; Sample.near_ship])
                      (Some [Sample.my_jet])) Hok eq_refl).
  apply NoDup_ListNoDup. repeat constructor; simpl; intuition discriminate.
Defined.

(** A call that raises records nothing: with an enemy whose key "bases" maps
    to the empty list, and with my own record without the key "bases", the
    uids of the tank and of the ships of my record are not in
    previous_positions after the call. *)
Lemma positions_not_recorded_counterexample :
  let w1 := after (run exact_arith Sample.half plain_object goto_succeeds 0 1
                       Sample.parade_empty []) (fresh init) in
  let w2 := after (run exact_arith Sample.half plain_object goto_succeeds 0 1
                       Sample.parade_homeless []) (fresh init) in
  outcome (run exact_arith Sample.half plain_object goto_succeeds 0 1
               Sample.parade_empty []) (fresh init) = Raise IndexError
  /\ previous_positions (self w1) !! tank_uid Sample.rover = None
  /\ previous_positions (self w1) !! ship_uid Sample.far_ship = None
  /\ outcome (run exact_arith Sample.half plain_object goto_succeeds 0 1
                  Sample.parade_homeless []) (fresh init) = Raise KeyError
  /\ previous_positions (self w2) !! tank_uid Sample.rover = None
  /\ previous_positions (self w2) !! ship_uid Sample.far_ship = None.
Proof. cbv zeta. repeat split; reflexivity. Qed.

(** ** The counters *)

Lemma count_register_counter (m : gmap Z Z) (u' u : Uid) :
  count (register_counter m u') u = count m u.
Proof.
  destruct (decide (u' = u)) as [->|Hne]; [apply register_counter_count|].
  unfold register_counter, count. destruct (m !! u'); [reflexivity|].
  now rewrite lookup_insert_ne.
Qed.

Lemma count_bump (m : gmap Z Z) (u' u : Uid) :
  count (bump m u') u = count m u + (if Z.eqb u' u then 1 else 0).
Proof.
  unfold bump. destruct (Z.eqb_spec u' u) as [->|Hne].
  - unfold count at 1. now rewrite lookup_insert_eq.
  - unfold count at 1. rewrite lookup_insert_ne by exact Hne.
    fold (count m u). lia.
Qed.

Lemma keys_register_counter (m : gmap Z Z) (u' u : Uid) :
  is_Some (m !! u) -> is_Some (register_counter m u' !! u).
Proof.
  intros H. unfold register_counter. destruct (m !! u') eqn:E; [exact H|].
  destruct (decide (u' = u)) as [->|Hne].
  - rewrite lookup_insert_eq. eauto.
  - now rewrite lookup_insert_ne.
Qed.

Lemma keys_bump (m : gmap Z Z) (u' u : Uid) :
  is_Some (m !! u) -> is_Some (bump m u' !! u).
Proof.
  intros H. unfold bump. destruct (decide (u' = u)) as [->|Hne].
  - rewrite lookup_insert_eq. eauto.
  - now rewrite lookup_insert_ne.
Qed.

Lemma built_tanks_app (u : Uid) (l1 l2 : list event) :
  built_tanks u (l1 ++ l2) = built_tanks u l1 + built_tanks u l2.
Proof.
  unfold built_tanks. rewrite List.filter_app, length_app. lia.
Qed.

Lemma built_ships_app (u : Uid) (l1 l2 : list event) :
  built_ships u (l1 ++ l2) = built_ships u l1 + built_ships u l2.
Proof.
  unfold built_ships. rewrite List.filter_app, length_app. lia.
Qed.

Lemma grows_refl (u : Uid) (w : World) : grows u [] w w.
Proof.
  split; try done.
  - now rewrite app_nil_r.
  - unfold built_tanks. simpl. lia.
  - unfold built_ships. simpl. lia.
Qed.

Lemma grows_trans (u : Uid) (e1 e2 : list event) (w1 w2 w3 : World) :
  grows u e1 w1 w2 -> grows u e2 w2 w3 -> grows u (e1 ++ e2) w1 w3.
Proof.
  intros [T1 A1 B1 K1 L1] [T2 A2 B2 K2 L2]. split.
  - now rewrite T2, T1, app_assoc.
  - rewrite built_tanks_app. lia.
  - rewrite built_ships_app. lia.
  - auto.
  - auto.
Qed.

Lemma grows_decide_base random table (u : Uid) (b : Base) (w : World) :
  grows u (commands b (random (ndraws w))
             (table b (count (ntanks (self w)) (base_uid b))
                      (count (nships (self w)) (base_uid b))))
        w (decide_base random table b w).
Proof.
  split.
  - apply trace_decide_base.
  - unfold decide_base, perform, built_tanks.
    destruct (table b _ _) as [[]|]; simpl;
      rewrite ?count_bump, !count_register_counter;
      try lia.
    destruct (base_uid b =? u); simpl; lia.
  - unfold decide_base, perform, built_ships.
    destruct (table b _ _) as [[]|]; simpl;
      rewrite ?count_bump, !count_register_counter;
      try lia.
    destruct (base_uid b =? u); simpl; lia.
  - intros H. unfold decide_base, perform.
    destruct (table b _ _) as [[]|]; simpl;
      try apply keys_bump; now apply keys_register_counter.
  - intros H. unfold decide_base, perform.
    destruct (table b _ _) as [[]|]; simpl;
      try apply keys_bump; now apply keys_register_counter.
Qed.

Lemma decide_base_registers random table (b : Base) (w : World) :
  is_Some (ntanks (self (decide_base random table b w)) !! base_uid b)
  /\ is_Some (nships (self (decide_base random table b w)) !! base_uid b).
Proof.
  unfold decide_base, perform.
  destruct (table b _ _) as [[]|]; simpl; split;
    try apply keys_bump; rewrite register_counter_lookup; eauto.
Qed.

Lemma length_commands_tank (b : Base) (r : Q) (c : option kind) (u : Uid) :
  (length (List.filter (builds_tank_at u) (commands b r c))
   <= (if Z.eqb (base_uid b) u then 1 else 0))%nat.
Proof.
  destruct c as [[]|]; simpl; try (destruct (base_uid b =? u); simpl; lia).
Qed.

Lemma length_commands_ship (b : Base) (r : Q) (c : option kind) (u : Uid) :
  (length (List.filter (builds_ship_at u) (commands b r c))
   <= (if Z.eqb (base_uid b) u then 1 else 0))%nat.
Proof.
  destruct c as [[]|]; simpl; try (destruct (base_uid b =? u); simpl; lia).
Qed.

Lemma commands_are_builds (b : Base) (r : Q) (c : option kind) :
  Forall is_build (commands b r c).
Proof.
  destruct c as [k|]; simpl; [|constructor].
  constructor; [apply command_is_build | constructor].
Qed.

(** The bases of uid [u] in a list. *)
Lemma at_most_one_base (bs : list Base) (u : Uid) :
  NoDup (map base_uid bs) ->
  (length (List.filter (fun b => Z.eqb (base_uid b) u) bs) <= 1)%nat.
Proof.
  induction bs as [|b bs IH]; simpl; intros Hnd; [lia|].
  apply NoDup_cons in Hnd as [Hb Hnd].
  destruct (Z.eqb_spec (base_uid b) u) as [Hu|Hu]; [|now apply IH].
  simpl. rewrite filter_none; [simpl; lia|].
  apply Forall_forall. intros b' Hb'. apply Z.eqb_neq. intros Hu'.
  apply Hb. rewrite Hu, <- Hu'. apply list_elem_of_In, in_map.
  now apply list_elem_of_In.
Qed.

Lemma grows_decide_bases random table (u : Uid) (bs : list Base) (w : World) :
  exists evs,
    grows u evs w (decide_bases random table bs w)
    /\ Forall is_build evs
    /\ (length (List.filter (builds_tank_at u) evs)
        <= length (List.filter (fun b => Z.eqb (base_uid b) u) bs))%nat
    /\ (length (List.filter (builds_ship_at u) evs)
        <= length (List.filter (fun b => Z.eqb (base_uid b) u) bs))%nat.
Proof.
  unfold decide_bases. revert w. induction bs as [|b bs IH]; intros w.
  - exists []. simpl. repeat split; try apply grows_refl; try constructor.
  - simpl fold_left.
    destruct (IH (decide_base random table b w)) as [evs [Hg [Hb [Ht Hs]]]].
    eexists. split; [|split; [|split]].
    + eapply grows_trans; [apply grows_decide_base | exact Hg].
    + apply Forall_app. split; [apply commands_are_builds | exact Hb].
    + rewrite List.filter_app, length_app.
      pose proof (length_commands_tank b (random (ndraws w))
                    (table b (count (ntanks (self w)) (base_uid b))
                             (count (nships (self w)) (base_uid b))) u).
      simpl. destruct (base_uid b =? u); simpl; lia.
    + rewrite List.filter_app, length_app.
      pose proof (length_commands_ship b (random (ndraws w))
                    (table b (count (ntanks (self w)) (base_uid b))
                             (count (nships (self w)) (base_uid b))) u).
      simpl. destruct (base_uid b =? u); simpl; lia.
Qed.

Lemma decide_bases_registers random table (bs : list Base) (b : Base) (w : World) :
  In b bs ->
  is_Some (ntanks (self (decide_bases random table bs w)) !! base_uid b)
  /\ is_Some (nships (self (decide_bases random table bs w)) !! base_uid b).
Proof.
  revert w. induction bs as [|b' bs IH]; intros w Hin; [destruct Hin|].
  destruct Hin as [->|Hin]; [|now apply IH].
  change (decide_bases random table (b :: bs) w)
    with (decide_bases random table bs (decide_base random table b w)).
  destruct (grows_decide_bases random table (base_uid b) bs
              (decide_base random table b w)) as [evs [[_ _ _ Kt Ks] _]].
  destruct (decide_base_registers random table b w) as [Ht Hs].
  split; [now apply Kt | now apply Ks].
Qed.

(** The control of the vehicles does not touch the counters. *)

#[export] Instance same_counters_preorder : PreOrder same_counters.
Proof.
  split.
  - intros w. now split.
  - intros w1 w2 w3 [A1 B1] [A2 B2]. split; congruence.
Qed.

Lemma same_counters_emit (e : event) : respects same_counters (emit e).
Proof. intros w. now split. Qed.

Lemma same_counters_np_random (random : nat -> Q) :
  respects same_counters (np_random random).
Proof. intros w. now split. Qed.

Lemma same_counters_set_previous_position (u : Uid) (p : Position) :
  respects same_counters (set_previous_position u p).
Proof. intros w. now split. Qed.

Ltac counters_step :=
  first
    [ apply same_counters_emit
    | apply same_counters_np_random
    | apply same_counters_set_previous_position
    | respects_step ].

Lemma same_counters_control arith random unpack goto_raises (info : Info) :
  respects same_counters (control arith random unpack goto_raises info).
Proof.
  unfold control.
  papply respects_bind; [papply respects_get_self | intros a].
  papply respects_bind; [papply respects_info_getitem | intros myinfo].
  papply respects_bind; [papply respects_first_target | intros _].
  papply respects_bind; [|intros _; papply respects_bind; [|intros _]].
  - papply respects_for_key. intros v. unfold tank_step.
    repeat counters_step. unfold goto_unpacked.
    repeat counters_step.
  - papply respects_for_key. intros v. unfold ship_step.
    repeat counters_step.
  - papply respects_for_key. intros v. unfold jet_step.
    repeat counters_step.
Qed.

Section Counters.

Variable arith : Arith.
Variable random : nat -> Q.
Variable unpack : Base -> option (list Q).
Variable goto_raises : Tank -> Q -> Q -> bool.

Abbreviation run := (run arith random unpack goto_raises).
Abbreviation run_all := (run_all arith random unpack goto_raises).

Lemma built_nothing (u : Uid) (evs : list event) :
  Forall (fun e => ~ is_build e) evs ->
  built_tanks u evs = 0 /\ built_ships u evs = 0.
Proof.
  intros H. unfold built_tanks, built_ships.
  rewrite !filter_none; [split; reflexivity | |];
    (eapply Forall_impl; [exact H|]); intros e He;
    destruct e; simpl in *; tauto.
Qed.

Lemma grows_control (u : Uid) (info : Info) (w : World) :
  exists evs,
    grows u evs w (after (control arith random unpack goto_raises info) w)
    /\ built_tanks u evs = 0 /\ built_ships u evs = 0
    /\ same_counters w (after (control arith random unpack goto_raises info) w).
Proof.
  destruct (frame_control arith random unpack goto_raises info w)
    as [[evs [Ht He]] _ _ _ _].
  pose proof (same_counters_control arith random unpack goto_raises info w) as Hc.
  destruct (built_nothing u evs He) as [Hbt Hbs].
  exists evs. split; [|split; [exact Hbt | split; [exact Hbs | exact Hc]]].
  destruct Hc as [Hc1 Hc2]. split.
  - exact Ht.
  - rewrite Hbt, Hc1. lia.
  - rewrite Hbs, Hc2. lia.
  - now rewrite Hc1.
  - now rewrite Hc2.
Qed.

(** The counters over one call. *)
Lemma run_grows (t dt : Q) (info : Info) game_map (u : Uid) (w : World) :
  grows u (issued (run t dt info game_map) w) w (after (run t dt info game_map) w)
  /\ forall bs,
       my_bases (self w) info = Some bs ->
       (forall b, In b bs ->
          is_Some (ntanks (self (after (run t dt info game_map) w)) !! base_uid b)
          /\ is_Some (nships (self (after (run t dt info game_map) w))
                        !! base_uid b))
       /\ (NoDup (map base_uid bs) ->
            built_tanks u (issued (run t dt info game_map) w) <= 1
            /\ built_ships u (issued (run t dt info game_map) w) <= 1).
Proof.
  assert (Hshape := run_shape arith random unpack goto_raises t dt info game_map w).
  destruct (my_bases (self w) info) as [bs|] eqn:Hbs.
  - destruct (grows_decide_bases random (table_at t) u bs w)
      as [e1 [Hg1 [Hb1 [Ht1 Hs1]]]].
    destruct (grows_control u info (decide_bases random (table_at t) bs w))
      as [e2 [Hg2 [Hbt [Hbs2 [Hc1 Hc2]]]]].
    assert (Hafter : after (run t dt info game_map) w
                     = after (control arith random unpack goto_raises info)
                             (decide_bases random (table_at t) bs w)).
    { unfold after. now rewrite Hshape. }
    pose proof (grows_trans _ _ _ _ _ _ Hg1 Hg2) as Hg.
    rewrite <- Hafter in Hg.
    assert (Hev : issued (run t dt info game_map) w = e1 ++ e2).
    { apply issued_app. apply Hg. }
    rewrite Hev. split; [exact Hg|].
    intros bs' Heq. injection Heq as <-. split.
    + intros b Hb. rewrite Hafter, Hc1, Hc2.
      now apply decide_bases_registers.
    + intros Hnd. pose proof (at_most_one_base bs u Hnd) as H1.
      rewrite built_tanks_app, built_ships_app, Hbt, Hbs2.
      unfold built_tanks, built_ships. lia.
  - assert (Hafter : after (run t dt info game_map) w = w).
    { unfold after. now rewrite Hshape. }
    rewrite issued_nothing by exact Hafter. rewrite Hafter.
    split; [apply grows_refl | discriminate].
Qed.

Lemma built_tanks_nonneg (u : Uid) (evs : list event) : 0 <= built_tanks u evs.
Proof. unfold built_tanks. lia. Qed.

Lemma built_ships_nonneg (u : Uid) (evs : list event) : 0 <= built_ships u evs.
Proof. unfold built_ships. lia. Qed.

(** The counters over a sequence of calls. *)
Lemma run_all_grows (calls : list call) (u : Uid) (w : World) :
  count (ntanks (self w)) u <= count (ntanks (self (run_all calls w))) u
  /\ count (nships (self w)) u <= count (nships (self (run_all calls w))) u
  /\ (is_Some (ntanks (self w) !! u) ->
      is_Some (ntanks (self (run_all calls w)) !! u))
  /\ (is_Some (nships (self w) !! u) ->
      is_Some (nships (self (run_all calls w)) !! u)).
Proof.
  unfold run_all. revert w.
  induction calls as [|c calls IH]; intros w; simpl.
  - repeat split; (lia || auto).
  - destruct (run_grows (call_t c) (call_dt c) (call_info c) (call_map c) u w)
      as [[_ A B Kt Ks] _].
    pose proof (built_tanks_nonneg u
                  (issued (run (call_t c) (call_dt c) (call_info c)
                               (call_map c)) w)).
    pose proof (built_ships_nonneg u
                  (issued (run (call_t c) (call_dt c) (call_info c)
                               (call_map c)) w)).
    destruct (IH (after (run (call_t c) (call_dt c) (call_info c)
                             (call_map c)) w)) as [A' [B' [Kt' Ks']]].
    repeat split; (lia || auto).
Qed.

Lemma tank_built_iff (u : Uid) (evs : list event) :
  tank_built_at u evs <-> 0 < built_tanks u evs.
Proof.
  unfold tank_built_at, built_tanks.
  induction evs as [|e evs IH]; simpl.
  - split; [intros [b [h [[] _]]] | lia].
  - destruct (builds_tank_at u e) eqn:E; simpl.
    + split; [lia|]. intros _. destruct e; try discriminate.
      exists b, heading. split; [now left | now apply Z.eqb_eq].
    + rewrite <- IH. split.
      * intros [b [h [[->|Hin] Hu]]]; [|eauto].
        simpl in E. apply Z.eqb_neq in E. contradiction.
      * intros [b [h [Hin Hu]]]. eauto.
Qed.

Lemma ship_built_iff (u : Uid) (evs : list event) :
  ship_built_at u evs <-> 0 < built_ships u evs.
Proof.
  unfold ship_built_at, built_ships.
  induction evs as [|e evs IH]; simpl.
  - split; [intros [b [h [[] _]]] | lia].
  - destruct (builds_ship_at u e) eqn:E; simpl.
    + split; [lia|]. intros _. destruct e; try discriminate.
      exists b, heading. split; [now left | now apply Z.eqb_eq].
    + rewrite <- IH. split.
      * intros [b [h [[->|Hin] Hu]]]; [|eauto].
        simpl in E. apply Z.eqb_neq in E. contradiction.
      * intros [b [h [Hin Hu]]]. eauto.
Qed.

End Counters.

(** C8.  Over any sequence of calls of [run] on one agent, and for every
    base uid, ntanks[uid] and nships[uid] never decrease (an unregistered uid
    counting for 0) and no uid leaves them.  Over one more call a counter
    goes up by the number of tank, respectively ship, builds issued at the
    bases of that uid in the call; when my bases have distinct uids this is
    exactly 1 if such a build is issued and 0 otherwise.  After the call
    every base of mine is registered, with the count it had (0 for a base
    seen for the first time) plus what the call built there. *)
Theorem counters_only_grow :
  forall arith random unpack goto_raises (calls : list call) (c : call)
         (w : World) (u : Uid),
    let w1 := run_all arith random unpack goto_raises calls w in
    let next := run arith random unpack goto_raises
                    (call_t c) (call_dt c) (call_info c) (call_map c) in
    let w2 := after next w1 in
    let evs := issued next w1 in
    (count (ntanks (self w)) u <= count (ntanks (self w1)) u
     /\ count (nships (self w)) u <= count (nships (self w1)) u)
    /\ (is_Some (ntanks (self w) !! u) -> is_Some (ntanks (self w1) !! u))
    /\ (is_Some (nships (self w) !! u) -> is_Some (nships (self w1) !! u))
    /\ count (ntanks (self w2)) u = count (ntanks (self w1)) u + built_tanks u evs
    /\ count (nships (self w2)) u = count (nships (self w1)) u + built_ships u evs
    /\ forall bs,
         my_bases (self w1) (call_info c) = Some bs ->
         (forall b, In b bs ->
            ntanks (self w2) !! base_uid b
            = Some (count (ntanks (self w1)) (base_uid b)
                    + built_tanks (base_uid b) evs)
            /\ nships (self w2) !! base_uid b
               = Some (count (nships (self w1)) (base_uid b)
                       + built_ships (base_uid b) evs))
         /\ (NoDup (map base_uid bs) ->
              (tank_built_at u evs ->
                 count (ntanks (self w2)) u = count (ntanks (self w1)) u + 1)
              /\ (~ tank_built_at u evs ->
                    count (ntanks (self w2)) u = count (ntanks (self w1)) u)
              /\ (ship_built_at u evs ->
                    count (nships (self w2)) u = count (nships (self w1)) u + 1)
              /\ (~ ship_built_at u evs ->
                    count (nships (self w2)) u = count (nships (self w1)) u)).
Proof.
  intros arith random unpack goto_raises calls c w u w1 next w2 evs.
  destruct (run_all_grows arith random unpack goto_raises calls u w)
    as [A [B [Kt Ks]]].
  destruct (run_grows arith random unpack goto_raises (call_t c) (call_dt c)
              (call_info c) (call_map c) u w1) as [[_ Gt Gs _ _] Hbs].
  fold next in Gt, Gs, Hbs. fold w2 in Gt, Gs, Hbs. fold evs in Gt, Gs, Hbs.
  split; [split; assumption|].
  split; [exact Kt|]. split; [exact Ks|].
  split; [exact Gt|]. split; [exact Gs|].
  intros bs Hmy. destruct (Hbs bs Hmy) as [Hreg Hone]. split.
  - intros b Hb.
    destruct (run_grows arith random unpack goto_raises (call_t c) (call_dt c)
                (call_info c) (call_map c) (base_uid b) w1)
      as [[_ Gt' Gs' _ _] _].
    fold next in Gt', Gs'. fold w2 in Gt', Gs'. fold evs in Gt', Gs'.
    destruct (Hreg b Hb) as [[nt Hnt] [ns Hns]].
    unfold count at 1 in Gt'. unfold count at 1 in Gs'.
    rewrite Hnt in Gt'. rewrite Hns in Gs'. simpl in Gt', Gs'.
    rewrite Hnt, Hns. split; congruence.
  - intros Hnd. destruct (Hone Hnd) as [H1 H2].
    pose proof (built_tanks_nonneg u evs) as P1.
    pose proof (built_ships_nonneg u evs) as P2.
    repeat split.
    + intros H. apply tank_built_iff in H. lia.
    + intros H. rewrite tank_built_iff in H. lia.
    + intros H. apply ship_built_iff in H. lia.
    + intros H. rewrite ship_built_iff in H. lia.
Qed.

Lemma counters_only_grow_witness :
  let w1 := run_all exact_arith Sample.half plain_object goto_succeeds
                    [Sample.tick 0] (fresh init) in
  let next := run exact_arith Sample.half plain_object goto_succeeds 1 1 Sample.garrison [] in
  ntanks (self (after next w1)) !! 5 = Some (1 + 1)
  /\ count (ntanks (self (after next w1))) 5 = count (ntanks (self w1)) 5 + 1.
Proof.
  cbv zeta.
  destruct (counters_only_grow exact_arith Sample.half plain_object goto_succeeds
              [Sample.tick 0] (Sample.tick 1) (fresh init) 5)
    as [_ [_ [_ [_ [_ H]]]]].
  destruct (H [Sample.barracks] eq_refl) as [Hreg Hone].
  split.
  - apply (Hreg Sample.barracks). now left.
  - apply Hone.
    + apply NoDup_ListNoDup. repeat constructor. simpl. tauto.
    + exists Sample.barracks, (360 * Sample.half 1%nat)%Q.
      split; [left; reflexivity | reflexivity].
Defined.

(** * Further properties of the build orders *)

(** X1.  The mid build order, for one base: a base with fewer than 2 mines
    builds a mine if it can afford one and issues nothing otherwise; a base
    with 2 mines or more builds a tank if it can afford one and fewer than 2
    tanks were built here, else a ship if it can afford one and fewer than 2
    ships were built here, else a jet if it can afford one.  The loop body
    never raises. *)
Theorem midgame_build_order :
  forall (random : nat -> Q) (b : Base) (w : World),
    let nt := count (ntanks (self w)) (base_uid b) in
    let ns := count (nships (self w)) (base_uid b) in
    let evs := issued (midgame_base random b) w in
    let r := random (ndraws w) in
    outcome (midgame_base random b) w = Ok tt
    /\ evs = commands b r (midgame_choice b nt ns)
    /\ (mines b < 2 -> evs = if affordable b "mine" then [build_mine b] else [])
    /\ (2 <= mines b -> affordable b "tank" = true -> nt < 2 ->
        evs = [build_tank b (360 * r)%Q])
    /\ (2 <= mines b -> affordable b "tank" = false \/ 2 <= nt ->
        evs = if affordable b "ship" && (ns <? 2)
              then [build_ship b (360 * r)%Q]
              else if affordable b "jet" then [build_jet b (360 * r)%Q]
              else []).
Proof.
  intros random b w nt ns evs r.
  assert (Hi : evs = commands b r (midgame_choice b nt ns)).
  { apply issued_app. unfold after. rewrite midgame_base_effect. simpl.
    apply trace_decide_base. }
  split; [unfold outcome; now rewrite midgame_base_effect|].
  split; [exact Hi|]. rewrite Hi. unfold midgame_choice. repeat split.
  - intros Hm. apply Z.ltb_lt in Hm. rewrite Hm.
    now destruct (affordable b "mine").
  - intros Hm Ha Hnt. apply Z.ltb_ge in Hm. apply Z.ltb_lt in Hnt.
    now rewrite Hm, Ha, Hnt.
  - intros Hm Hno. apply Z.ltb_ge in Hm. rewrite Hm.
    assert (Hc : affordable b "tank" && (nt <? 2) = false).
    { destruct Hno as [->|Hnt]; [reflexivity|].
      apply Z.ltb_ge in Hnt. rewrite Hnt. apply andb_false_r. }
    rewrite Hc.
    destruct (affordable b "ship" && (ns <? 2)); [reflexivity|].
    now destruct (affordable b "jet").
Qed.

Lemma midgame_build_order_witness :
  issued (midgame_base Sample.half Sample.barracks) (fresh init)
  = [build_tank Sample.barracks (360 * Sample.half 0%nat)%Q].
Proof.
  apply (midgame_build_order Sample.half Sample.barracks (fresh init)).
  - discriminate.
  - reflexivity.
  - reflexivity.
Defined.

(** ** What the tables allow *)

Lemma table_cases (t : Q) :
  table_at t = early_choice \/ table_at t = midgame_choice
  \/ table_at t = lategame_choice.
Proof.
  unfold table_at. destruct (Qlt_bool t 180); [now left|].
  destruct (Qlt_bool t 360); [right; now left | right; now right].
Qed.

Ltac table_cases_tac t :=
  destruct (table_cases t) as [-> | [-> | ->]];
  unfold early_choice, midgame_choice, lategame_choice;
  repeat match goal with
         | |- context [if ?c then _ else _] => destruct c eqn:?
         end;
  try discriminate.

(** A table orders only what the base can afford. *)
Lemma table_affordable (t : Q) (b : Base) (nt ns : Z) (k : kind) :
  table_at t b nt ns = Some k -> affordable b (kind_name k) = true.
Proof.
  table_cases_tac t; intros H; injection H as <-; simpl;
    repeat match goal with
           | H : _ && _ = true |- _ => apply andb_prop in H as [? ?]
           end; assumption.
Qed.

(** A table orders a tank below 5 tanks and a ship below 6 ships only. *)
Lemma table_cap (t : Q) (b : Base) (nt ns : Z) :
  (table_at t b nt ns = Some a_tank -> nt < 5)
  /\ (table_at t b nt ns = Some a_ship -> ns < 6).
Proof.
  table_cases_tac t; split; intros H; try discriminate H;
    repeat match goal with
           | H : _ && _ = true |- _ => apply andb_prop in H as [? ?]
           | H : (_ <? _) = true |- _ => apply Z.ltb_lt in H
           end; lia.
Qed.

Lemma built_command (b : Base) (r : Q) (k : kind) :
  built (command b r k) = Some (b, k).
Proof. now destruct k. Qed.

Lemma built_is_build (e : event) (b : Base) (k : kind) :
  built e = Some (b, k) -> is_build e.
Proof. destruct e; simpl; intros H; try discriminate H; exact I. Qed.

Section BuildOrders.

Variable arith : Arith.
Variable random : nat -> Q.
Variable unpack : Base -> option (list Q).
Variable goto_raises : Tank -> Q -> Q -> bool.

Abbreviation run := (run arith random unpack goto_raises).

(** The commands of a call, split at the end of the build order. *)
Lemma run_split (t dt : Q) (info : Info) game_map (w : World) (bs : list Base)
    (E : event -> Prop) :
  my_bases (self w) info = Some bs ->
  (forall b r nt ns k, In b bs -> table_at t b nt ns = Some k ->
                       E (command b r k)) ->
  exists evs1 evs2,
    issued (run t dt info game_map) w = evs1 ++ evs2
    /\ Forall E evs1
    /\ Forall (fun e => ~ is_build e) evs2.
Proof.
  intros Hbs HE.
  destruct (run_trace arith random unpack goto_raises t dt info game_map w bs Hbs)
    as [evs2 [Htr Hnb]].
  destruct (frame_decide_bases random (table_at t) E bs HE w)
    as [[evs1 [Ht1 Hf1]] _ _ _ _].
  exists evs1, evs2. repeat split; try assumption.
  apply issued_app. now rewrite Htr, Ht1, app_assoc.
Qed.

Lemma run_without_bases (t dt : Q) (info : Info) game_map (w : World) :
  my_bases (self w) info = None ->
  after (run t dt info game_map) w = w
  /\ issued (run t dt info game_map) w = []
  /\ outcome (run t dt info game_map) w = Raise KeyError.
Proof.
  intros Hbs.
  assert (Hshape := run_shape arith random unpack goto_raises t dt info game_map w).
  rewrite Hbs in Hshape.
  assert (Ha : after (run t dt info game_map) w = w)
    by (unfold after; now rewrite Hshape).
  split; [exact Ha|]. split; [now apply issued_nothing|].
  unfold outcome. now rewrite Hshape.
Qed.

End BuildOrders.

(** X2.  Every construction that a call of [run] issues is issued on one
    of the bases of my record, and that base has strictly more crystal than
    the cost of what is built. *)
Theorem builds_are_affordable :
  forall arith random unpack goto_raises (t dt : Q) (info : Info) game_map
         (w : World) (e : event) (b : Base) (k : kind),
    In e (issued (run arith random unpack goto_raises t dt info game_map) w) ->
    built e = Some (b, k) ->
    exists bs,
      my_bases (self w) info = Some bs
      /\ In b bs
      /\ (cost b (kind_name k) < crystal b)%Q.
Proof.
  intros arith random unpack goto_raises t dt info game_map w e b k He Hb.
  destruct (my_bases (self w) info) as [bs|] eqn:Hbs.
  - exists bs. split; [reflexivity|].
    destruct (run_split arith random unpack goto_raises t dt info game_map w bs
                (fun e => forall b k, built e = Some (b, k) ->
                            In b bs /\ affordable b (kind_name k) = true)
                Hbs) as [evs1 [evs2 [Hev [F1 F2]]]].
    { intros b' r nt ns k' Hb' Hk b0 k0 H0. rewrite built_command in H0.
      injection H0 as <- <-. split; [exact Hb'|].
      now apply (table_affordable t b' nt ns). }
    rewrite Hev in He. apply in_app_or in He as [He|He].
    + rewrite Forall_forall in F1.
      destruct (F1 e (proj2 (list_elem_of_In _ _) He) b k Hb) as [Hin Ha].
      split; [exact Hin | now apply Qlt_bool_iff].
    + rewrite Forall_forall in F2. exfalso.
      apply (F2 e (proj2 (list_elem_of_In _ _) He)).
      now apply (built_is_build e b k).
  - destruct (run_without_bases arith random unpack goto_raises t dt info game_map w Hbs)
      as [_ [Hnone _]].
    rewrite Hnone in He. destruct He.
Qed.

Lemma builds_are_affordable_witness :
  exists bs,
    my_bases (self (fresh init)) Sample.scenario = Some bs
    /\ In Sample.home bs
    /\ (cost Sample.home (kind_name a_mine) < crystal Sample.home)%Q.
Proof.
  apply (builds_are_affordable exact_arith Sample.half plain_object goto_succeeds 0 1
           Sample.scenario [] (fresh init) (build_mine Sample.home)).
  - change (In (build_mine Sample.home) [build_mine Sample.home]).
    now left.
  - reflexivity.
Defined.

(** ** One construction for each base *)

Lemma length_commands_at (b : Base) (r : Q) (c : option kind) (u : Uid) :
  (length (List.filter (builds_at u) (commands b r c))
   <= (if Z.eqb (base_uid b) u then 1 else 0))%nat.
Proof.
  destruct c as [[]|]; unfold builds_at; simpl;
    destruct (base_uid b =? u); simpl; lia.
Qed.

Lemma not_build_at (u : Uid) (evs : list event) :
  Forall (fun e => ~ is_build e) evs -> List.filter (builds_at u) evs = [].
Proof.
  intros H. apply filter_none. eapply Forall_impl; [exact H|].
  intros e He. unfold builds_at. destruct e; simpl in *; tauto.
Qed.

Lemma decide_bases_at random table (u : Uid) (bs : list Base) (w : World) :
  exists evs,
    trace (decide_bases random table bs w) = trace w ++ evs
    /\ (length (List.filter (builds_at u) evs)
        <= length (List.filter (fun b => Z.eqb (base_uid b) u) bs))%nat.
Proof.
  unfold decide_bases. revert w. induction bs as [|b bs IH]; intros w.
  - exists []. simpl. split; [now rewrite app_nil_r | lia].
  - simpl fold_left.
    destruct (IH (decide_base random table b w)) as [evs [Ht Hl]].
    eexists. split.
    + rewrite Ht, trace_decide_base, <- app_assoc. reflexivity.
    + rewrite List.filter_app, length_app.
      pose proof (length_commands_at b (random (ndraws w))
                    (table b (count (ntanks (self w)) (base_uid b))
                             (count (nships (self w)) (base_uid b))) u).
      simpl. destruct (base_uid b =? u); simpl; lia.
Qed.

(** X3.  When the bases of my record have distinct uids, a call of [run]
    issues at most one construction at each base uid, whatever the phase. *)
Theorem one_construction_per_base :
  forall arith random unpack goto_raises (t dt : Q) (info : Info) game_map
         (w : World) (bs : list Base) (u : Uid),
    my_bases (self w) info = Some bs ->
    NoDup (map base_uid bs) ->
    (length (List.filter (builds_at u)
               (issued (run arith random unpack goto_raises t dt info game_map) w))
     <= 1)%nat.
Proof.
  intros arith random unpack goto_raises t dt info game_map w bs u Hbs Hnd.
  destruct (run_trace arith random unpack goto_raises t dt info game_map w bs Hbs)
    as [evs2 [Htr Hnb]].
  destruct (decide_bases_at random (table_at t) u bs w) as [evs1 [Ht1 Hl]].
  rewrite (issued_app _ _ (evs1 ++ evs2)) by now rewrite Htr, Ht1, app_assoc.
  rewrite List.filter_app, length_app, (not_build_at u evs2 Hnb). simpl.
  pose proof (at_most_one_base bs u Hnd). lia.
Qed.

Lemma one_construction_per_base_witness :
  (length (List.filter (builds_at 1%Z)
             (issued (run exact_arith Sample.half plain_object goto_succeeds 0 1
                          Sample.scenario []) (fresh init)))
   <= 1)%nat.
Proof.
  apply (one_construction_per_base exact_arith Sample.half plain_object goto_succeeds 0 1
           Sample.scenario [] (fresh init) [Sample.home] 1).
  - reflexivity.
  - apply NoDup_ListNoDup. repeat constructor. simpl. tauto.
Defined.

(** ** The caps of the counters *)

Lemma capped_decide_base random (t : Q) (b : Base) (w : World) :
  capped w -> capped (decide_base random (table_at t) b w).
Proof.
  intros H u. destruct (H u) as [Ht Hs].
  destruct (H (base_uid b)) as [Htb Hsb].
  destruct (table_cap t b (count (ntanks (self w)) (base_uid b))
              (count (nships (self w)) (base_uid b))) as [Ct Cs].
  unfold decide_base, perform.
  destruct (table_at t b _ _) as [[]|]; simpl;
    rewrite ?count_bump, !count_register_counter; try (split; assumption).
  - specialize (Ct eq_refl). split; [|assumption].
    destruct (Z.eqb_spec (base_uid b) u) as [<-|]; lia.
  - specialize (Cs eq_refl). split; [assumption|].
    destruct (Z.eqb_spec (base_uid b) u) as [<-|]; lia.
Qed.

Lemma capped_decide_bases random (t : Q) (bs : list Base) (w : World) :
  capped w -> capped (decide_bases random (table_at t) bs w).
Proof.
  unfold decide_bases. revert w. induction bs as [|b bs IH]; intros w H; simpl.
  - exact H.
  - apply IH. now apply capped_decide_base.
Qed.

Lemma capped_run arith random unpack goto_raises (t dt : Q) (info : Info) game_map
    (w : World) :
  capped w -> capped (after (run arith random unpack goto_raises t dt info game_map) w).
Proof.
  intros H.
  assert (Hshape := run_shape arith random unpack goto_raises t dt info game_map w).
  unfold after. rewrite Hshape.
  destruct (my_bases (self w) info) as [bs|]; [|exact H].
  destruct (same_counters_control arith random unpack goto_raises info
              (decide_bases random (table_at t) bs w)) as [Ht Hs].
  intros u. unfold after in Ht, Hs. rewrite Ht, Hs.
  now apply capped_decide_bases.
Qed.

(** X4.  The caps of the build orders hold over time: on an agent whose
    counters are at most 5 tanks and 6 ships for every base uid, as they are
    on a new agent, they still are after any sequence of calls of [run],
    whatever the snapshots. *)
Theorem counters_stay_capped :
  forall arith random unpack goto_raises (calls : list call) (w : World),
    capped w -> capped (run_all arith random unpack goto_raises calls w).
Proof.
  intros arith random unpack goto_raises calls. unfold run_all.
  induction calls as [|c calls IH]; intros w H; simpl.
  - exact H.
  - apply IH. now apply capped_run.
Qed.

Lemma counters_stay_capped_witness :
  capped (run_all exact_arith Sample.half plain_object goto_succeeds Sample.twelve_ticks
                  (fresh init))
  /\ ntanks (self (run_all exact_arith Sample.half plain_object goto_succeeds
                            Sample.twelve_ticks (fresh init))) !! 6 = Some 5
  /\ nships (self (run_all exact_arith Sample.half plain_object goto_succeeds
                            Sample.twelve_ticks (fresh init))) !! 6 = Some 6.
Proof.
  split; [|split; reflexivity].
  apply (counters_stay_capped exact_arith Sample.half plain_object goto_succeeds
           Sample.twelve_ticks (fresh init)).
  intros u. split; unfold count; simpl; rewrite lookup_empty; simpl; lia.
Defined.

(** ** The counters in the late phase and away from my bases *)

Lemma built_jets_only (u : Uid) (evs : list event) :
  Forall (fun e => exists b h, e = build_jet b h) evs ->
  built_tanks u evs = 0 /\ built_ships u evs = 0.
Proof.
  intros H. unfold built_tanks, built_ships.
  rewrite !filter_none; [split; reflexivity | |];
    (eapply Forall_impl; [exact H|]); intros e [b [h ->]]; reflexivity.
Qed.

(** X5.  In the late phase (elapsed time 360 or more) a call of [run]
    leaves the count of tanks and the count of ships of every base uid as
    they were: the late build order registers bases and builds jets, which
    are not counted. *)
Theorem late_phase_keeps_counts :
  forall arith random unpack goto_raises (t dt : Q) (info : Info) game_map
         (w : World) (u : Uid),
    (360 <= t)%Q ->
    let w' := after (run arith random unpack goto_raises t dt info game_map) w in
    count (ntanks (self w')) u = count (ntanks (self w)) u
    /\ count (nships (self w')) u = count (nships (self w)) u.
Proof.
  intros arith random unpack goto_raises t dt info game_map w u Ht w'.
  destruct (run_grows arith random unpack goto_raises t dt info game_map u w)
    as [[_ Gt Gs _ _] _].
  fold w' in Gt, Gs.
  assert (H0 : built_tanks u (issued (run arith random unpack goto_raises t dt info
                                          game_map) w) = 0
               /\ built_ships u (issued (run arith random unpack goto_raises t dt info
                                             game_map) w) = 0).
  { destruct (my_bases (self w) info) as [bs|] eqn:Hbs.
    - destruct (run_split arith random unpack goto_raises t dt info game_map w bs
                  (fun e => exists b h, e = build_jet b h) Hbs)
        as [evs1 [evs2 [Hev [F1 F2]]]].
      { intros b r nt ns k _ Hk. rewrite late_table in Hk by exact Ht.
        unfold lategame_choice in Hk.
        destruct (affordable b "jet"); [|discriminate].
        injection Hk as <-. simpl. eauto. }
      rewrite Hev, built_tanks_app, built_ships_app.
      destruct (built_jets_only u evs1 F1) as [-> ->].
      destruct (built_nothing unpack goto_raises u evs2 F2) as [-> ->].
      now split.
    - destruct (run_without_bases arith random unpack goto_raises t dt info game_map
                  w Hbs) as [_ [-> _]].
      now split. }
  destruct H0 as [H1 H2]. rewrite H1 in Gt. rewrite H2 in Gs. lia.
Qed.

Lemma late_phase_keeps_counts_witness :
  count (ntanks (self (after (run exact_arith Sample.half plain_object goto_succeeds 400 1
                                  Sample.garrison []) (fresh init)))) 5
  = count (ntanks (self (fresh init))) 5
  /\ count (nships (self (after (run exact_arith Sample.half plain_object goto_succeeds
                                     400 1 Sample.garrison []) (fresh init)))) 5
     = count (nships (self (fresh init))) 5.
Proof.
  apply (late_phase_keeps_counts exact_arith Sample.half plain_object goto_succeeds 400 1
           Sample.garrison [] (fresh init) 5).
  discriminate.
Defined.

Lemma lookup_register_counter_ne (m : gmap Z Z) (u' u : Uid) :
  u' <> u -> register_counter m u' !! u = m !! u.
Proof.
  intros Hne. unfold register_counter. destruct (m !! u'); [reflexivity|].
  now rewrite lookup_insert_ne.
Qed.

Lemma decide_base_elsewhere random table (b : Base) (u : Uid) (w : World) :
  base_uid b <> u ->
  ntanks (self (decide_base random table b w)) !! u = ntanks (self w) !! u
  /\ nships (self (decide_base random table b w)) !! u = nships (self w) !! u.
Proof.
  intros Hne. unfold decide_base, perform, bump.
  destruct (table b _ _) as [[]|]; simpl;
    rewrite ?lookup_insert_ne by exact Hne;
    rewrite !lookup_register_counter_ne by exact Hne; now split.
Qed.

Lemma decide_bases_elsewhere random table (bs : list Base) (u : Uid) (w : World) :
  ~ In u (map base_uid bs) ->
  ntanks (self (decide_bases random table bs w)) !! u = ntanks (self w) !! u
  /\ nships (self (decide_bases random table bs w)) !! u = nships (self w) !! u.
Proof.
  unfold decide_bases. revert w. induction bs as [|b bs IH]; intros w Hu; simpl.
  - now split.
  - destruct (IH (decide_base random table b w)) as [Ht Hs].
    { intros H. apply Hu. now right. }
    destruct (decide_base_elsewhere random table b u w) as [Ht' Hs'].
    { intros H. apply Hu. now left. }
    rewrite Ht, Hs. now split.
Qed.

(** X6.  A call of [run] touches the counters at the uids of the bases of
    my record only: for every other uid the entries of ntanks and nships,
    present or absent, are left as they were; the uid of an enemy base or of
    a vehicle never enters them. *)
Theorem counters_of_my_bases_only :
  forall arith random unpack goto_raises (t dt : Q) (info : Info) game_map
         (w : World) (u : Uid),
    (forall bs, my_bases (self w) info = Some bs -> ~ In u (map base_uid bs)) ->
    let w' := after (run arith random unpack goto_raises t dt info game_map) w in
    ntanks (self w') !! u = ntanks (self w) !! u
    /\ nships (self w') !! u = nships (self w) !! u.
Proof.
  intros arith random unpack goto_raises t dt info game_map w u Hu w'.
  assert (Hshape := run_shape arith random unpack goto_raises t dt info game_map w).
  subst w'. unfold after. rewrite Hshape.
  destruct (my_bases (self w) info) as [bs|]; [|now split].
  destruct (same_counters_control arith random unpack goto_raises info
              (decide_bases random (table_at t) bs w)) as [Ht Hs].
  unfold after in Ht, Hs. rewrite Ht, Hs.
  apply decide_bases_elsewhere. now apply Hu.
Qed.

Lemma counters_of_my_bases_only_witness :
  ntanks (self (after (run exact_arith Sample.half plain_object goto_succeeds 0 1
                           Sample.garrison []) (fresh init))) !! 2
  = ntanks (self (fresh init)) !! 2
  /\ nships (self (after (run exact_arith Sample.half plain_object goto_succeeds 0 1
                              Sample.garrison []) (fresh init))) !! 2
     = nships (self (fresh init)) !! 2.
Proof.
  apply (counters_of_my_bases_only exact_arith Sample.half plain_object goto_succeeds 0 1
           Sample.garrison [] (fresh init) 2).
  intros bs H. injection H as <-. simpl. intros [H|[]]. discriminate H.
Defined.

(** * Further properties of a call *)

(** ** The headings *)

Section Headings.

Variable arith : Arith.
Variable random : nat -> Q.
Variable unpack : Base -> option (list Q).
Variable goto_raises : Tank -> Q -> Q -> bool.

Hypothesis random_range : forall i, (0 <= random i < 1)%Q.

Lemma heading_ok_command (b : Base) (i : nat) (k : kind) :
  heading_ok (command b (random i) k).
Proof.
  destruct k; unfold heading_ok; simpl; try exact I;
    rewrite (Qmult_comm 360); apply heading_range, random_range.
Qed.

Lemma heading_ok_decide_bases table (bs : list Base) (w : World) :
  exists evs,
    trace (decide_bases random table bs w) = trace w ++ evs
    /\ Forall heading_ok evs.
Proof.
  unfold decide_bases. revert w. induction bs as [|b bs IH]; intros w.
  - exists []. simpl. split; [now rewrite app_nil_r | constructor].
  - simpl fold_left.
    destruct (IH (decide_base random table b w)) as [evs [Ht Hf]].
    eexists. split.
    + rewrite Ht, trace_decide_base, <- app_assoc. reflexivity.
    + apply Forall_app. split; [|exact Hf].
      destruct (table b _ _) as [k|]; simpl; [|constructor].
      constructor; [apply heading_ok_command | constructor].
Qed.

Lemma heading_ok_tank_step (info : Info) (v : Tank) :
  respects (frame heading_ok (fun _ => True))
           (tank_step arith random unpack goto_raises info v).
Proof.
  intros w. eapply frame_refine.
  - eapply frame_weaken; [| | apply frame_tank_step]; [intros e H; exact H | done].
  - unfold after. rewrite tank_step_effect. reflexivity.
  - unfold tank_decision.
    destruct (previous_positions (self w) !! tank_uid v) as [p|]; [|constructor].
    destruct (negb (stopped v)); [|constructor].
    destruct (position_eqb _ _).
    + constructor; [|constructor]. apply heading_range, random_range.
    + destruct (head _) as [b|]; [|constructor].
      destruct (unpack b) as [[|x [|y [|z l]]]|]; repeat constructor.
Qed.

Lemma heading_ok_ship_step (v : Ship) :
  respects (frame heading_ok (fun _ => True)) (ship_step random v).
Proof.
  intros w. eapply frame_refine.
  - eapply frame_weaken; [| | apply frame_ship_step]; [intros e H; exact H | done].
  - unfold after. rewrite ship_step_effect. reflexivity.
  - unfold ship_decision.
    destruct (previous_positions (self w) !! ship_uid v) as [p|]; [|constructor].
    destruct (position_eqb _ _); [|constructor].
    destruct (Qgt_bool _ _).
    + constructor; [exact I | constructor].
    + constructor; [apply heading_range, random_range | constructor].
Qed.

Lemma heading_ok_control (info : Info) :
  respects (frame heading_ok (fun _ => True))
           (control arith random unpack goto_raises info).
Proof.
  unfold control.
  papply respects_bind; [papply respects_get_self | intros a].
  papply respects_bind; [papply respects_info_getitem | intros myinfo].
  papply respects_bind; [papply respects_first_target | intros _].
  papply respects_bind; [|intros _; papply respects_bind; [|intros _]].
  - papply respects_for_key. apply heading_ok_tank_step.
  - papply respects_for_key. apply heading_ok_ship_step.
  - papply respects_for_key. intros v.
    eapply respects_frame_weaken; [| | apply frame_jet_step]; [|done].
    intros []; simpl; try tauto. intros _. exact I.
Qed.

End Headings.

(** X7.  When the random source draws in [0, 1), every heading that a call
    of [run] hands to the host, to a new tank, ship or jet or to a tank or
    ship that it turns, is in [0, 360). *)
Theorem headings_in_range :
  forall arith random unpack goto_raises (t dt : Q) (info : Info) game_map
         (w : World) (e : event) (h : Q),
    (forall i, (0 <= random i < 1)%Q) ->
    In e (issued (run arith random unpack goto_raises t dt info game_map) w) ->
    heading_of e = Some h ->
    (0 <= h < 360)%Q.
Proof.
  intros arith random unpack goto_raises t dt info game_map w e h Hrnd He Hh.
  assert (Hall : Forall heading_ok
                   (issued (run arith random unpack goto_raises t dt info game_map) w)).
  { destruct (my_bases (self w) info) as [bs|] eqn:Hbs.
    - destruct (heading_ok_decide_bases random Hrnd (table_at t) bs w)
        as [evs1 [Ht1 F1]].
      destruct (heading_ok_control arith random unpack goto_raises Hrnd info
                  (decide_bases random (table_at t) bs w))
        as [[evs2 [Ht2 F2]] _ _ _ _].
      rewrite (issued_app _ _ (evs1 ++ evs2)).
      + apply Forall_app. now split.
      + unfold after. rewrite run_shape, Hbs.
        unfold after in Ht2. now rewrite Ht2, Ht1, app_assoc.
    - destruct (run_without_bases arith random unpack goto_raises t dt info game_map
                  w Hbs) as [_ [-> _]].
      constructor. }
  rewrite Forall_forall in Hall.
  specialize (Hall e (proj2 (list_elem_of_In _ _) He)).
  unfold heading_ok in Hall. now rewrite Hh in Hall.
Qed.

Lemma headings_in_range_witness :
  issued (run exact_arith Sample.half plain_object goto_succeeds 0 1 Sample.parade [])
         (fresh Sample.saw_parade)
  = [build_tank Sample.barracks (360 * Sample.half 0%nat)%Q;
     tank_set_heading Sample.rover (Sample.half 1%nat * 360)%Q;
     ship_convert_to_base Sample.far_ship;
     ship_set_heading Sample.near_ship (Sample.half 2%nat * 360)%Q;
     jet_goto Sample.my_jet 10 10]
  /\ (0 <= Sample.half 1%nat * 360 < 360)%Q.
Proof.
  split; [reflexivity|].
  apply (headings_in_range exact_arith Sample.half plain_object goto_succeeds 0 1
           Sample.parade [] (fresh Sample.saw_parade)
           (tank_set_heading Sample.rover (Sample.half 1%nat * 360)%Q)).
  - intros i. split; [discriminate | reflexivity].
  - change (In (tank_set_heading Sample.rover (Sample.half 1%nat * 360)%Q)
               [build_tank Sample.barracks (360 * Sample.half 0%nat)%Q;
                tank_set_heading Sample.rover (Sample.half 1%nat * 360)%Q;
                ship_convert_to_base Sample.far_ship;
                ship_set_heading Sample.near_ship (Sample.half 2%nat * 360)%Q;
                jet_goto Sample.my_jet 10 10]).
    right. now left.
  - reflexivity.
Defined.

(** ** The failures of goto *)

Lemma for_ext {A} (body1 body2 : A -> M unit) (l : list A) (w : World) :
  (forall x w, body1 x w = body2 x w) -> for_ l body1 w = for_ l body2 w.
Proof.
  intros H. revert w. induction l as [|x l IH]; intros w; simpl.
  - reflexivity.
  - unfold bind. rewrite H. destruct (body2 x w) as [[[]|e] w']; [apply IH|].
    reflexivity.
Qed.

Lemma tank_step_any_host arith random unpack g1 g2 (info : Info) (v : Tank)
    (w : World) :
  tank_step arith random unpack g1 info v w
  = tank_step arith random unpack g2 info v w.
Proof. now rewrite !tank_step_effect. Qed.

(** X8.  Whether the host raises in [tank.goto] makes no difference to a
    call of [run]: with any two hosts that differ in the gotos that fail
    only, the call ends the same way, issues the same commands and leaves
    the same agent.  A goto that fails stops neither the loop over the tanks
    nor the call. *)
Theorem goto_failures_are_discarded :
  forall arith random unpack raises1 raises2 (t dt : Q) (info : Info) game_map
         (w : World),
    run arith random unpack raises1 t dt info game_map w
    = run arith random unpack raises2 t dt info game_map w.
Proof.
  intros arith random unpack g1 g2 t dt info game_map w.
  rewrite !run_shape. destruct (my_bases (self w) info) as [bs|]; [|reflexivity].
  rewrite !control_shape.
  destruct (info_get info _) as [myinfo|]; [|reflexivity].
  destruct (outcome _ _); [|reflexivity].
  f_equal. unfold after_jets, after_ships, after_tanks. do 2 f_equal.
  unfold after, for_key. destruct (tanks myinfo) as [l|]; [|reflexivity].
  f_equal. apply for_ext. intros v w'. apply tank_step_any_host.
Qed.

(** ** The exceptions of a call *)

Lemma first_target_raises (me : string) (info : Info) (w : World) (e : exn) :
  outcome (first_target me info) w = Raise e ->
  e = IndexError
  /\ exists name tm, In (name, tm) info /\ name <> me /\ bases tm = Some [].
Proof.
  unfold first_target.
  destruct (1 <? length info)%nat; [|discriminate].
  assert (Hnames : forall name, In name (map fst info) ->
                                In name (map fst info)) by auto.
  revert Hnames. generalize (map fst info) at 1 3 as names. intros names.
  generalize (@None (Q * Q)%type) as s.
  induction names as [|name names IH]; intros s Hnames; cbn [for_acc].
  - discriminate.
  - assert (Hrest : forall n, In n names -> In n (map fst info)).
    { intros n Hn. apply Hnames. now right. }
    unfold outcome, bind at 1.
    destruct (String.eqb_spec name me) as [Heq|Hneq]; cbn [negb].
    + apply (IH _ Hrest).
    + destruct (info_get_some info name (Hnames name (or_introl eq_refl)))
        as [tm [Hget Htm]].
      unfold bind at 1, info_getitem at 1. rewrite Hget. cbn [ret].
      destruct (bases tm) as [[|b bs]|] eqn:Hb.
      * simpl. intros H. injection H as <-. split; [reflexivity|].
        exists name, tm. auto.
      * apply (IH _ Hrest).
      * apply (IH _ Hrest).
Qed.

(** X9.  The exceptions that leave [run].  A call raises KeyError exactly
    when [info] has no record of my team or my record has no key "bases",
    and then it has issued nothing and the agent is as it was.  Any other
    exception is an IndexError, raised when an enemy record maps "bases" to
    an empty list: then the build order is done, and no vehicle is commanded
    and no position recorded.  No TypeError and no failure of the host
    leaves [run]. *)
Theorem run_raises_only :
  forall arith random unpack goto_raises (t dt : Q) (info : Info) game_map
         (w : World),
    let call := run arith random unpack goto_raises t dt info game_map in
    (outcome call w = Raise KeyError <-> my_bases (self w) info = None)
    /\ (my_bases (self w) info = None -> after call w = w /\ issued call w = [])
    /\ forall e,
         outcome call w = Raise e -> e <> KeyError ->
         e = IndexError
         /\ (exists name tm,
                In (name, tm) info /\ name <> team (self w)
                /\ bases tm = Some [])
         /\ Forall is_build (issued call w)
         /\ previous_positions (self (after call w))
            = previous_positions (self w).
Proof.
  intros arith random unpack goto_raises t dt info game_map w call.
  assert (Hcases : forall e, outcome call w = Raise e ->
            (e = KeyError /\ my_bases (self w) info = None)
            \/ (e = IndexError
                /\ exists name tm,
                     In (name, tm) info /\ name <> team (self w)
                     /\ bases tm = Some [])).
  { intros e. unfold outcome, call. rewrite run_shape.
    destruct (my_bases (self w) info) as [bs|] eqn:Hbs.
    - rewrite control_shape, team_decide_bases.
      unfold my_bases in Hbs.
      destruct (info_get info (team (self w))) as [myinfo|]; [|discriminate].
      destruct (outcome (first_target _ _) _) as [tg|e0] eqn:Hft;
        [discriminate|].
      simpl. intros H. injection H as <-. right.
      now apply (first_target_raises _ _ _ _ Hft).
    - simpl. intros H. injection H as <-. now left. }
  split; [split|split].
  - intros H. destruct (Hcases _ H) as [[_ Hn]|[Hi _]]; [exact Hn | discriminate].
  - intros Hn.
    now destruct (run_without_bases arith random unpack goto_raises t dt info
                    game_map w Hn) as [_ [_ H]].
  - intros Hn.
    destruct (run_without_bases arith random unpack goto_raises t dt info game_map
                w Hn) as [Ha [Hi _]].
    now split.
  - intros e He Hne. destruct (Hcases _ He) as [[Hk _]|[Hi Hex]]; [contradiction|].
    split; [exact Hi|]. split; [exact Hex|]. split.
    + now apply (run_raises_commands arith random unpack goto_raises t dt info
                   game_map w e).
    + now apply (run_raises_positions arith random unpack goto_raises t dt info
                   game_map w e).
Qed.

Lemma run_raises_only_witness :
  after (run exact_arith Sample.half plain_object goto_succeeds 0 1 Sample.no_bases_key [])
        (fresh init) = fresh init
  /\ issued (run exact_arith Sample.half plain_object goto_succeeds 0 1
                 Sample.no_bases_key []) (fresh init) = [].
Proof.
  apply (proj1 (proj2 (run_raises_only exact_arith Sample.half plain_object goto_succeeds
                         0 1 Sample.no_bases_key [] (fresh init)))).
  reflexivity.
Defined.

(** ** Vehicles that are left alone *)

(** X10.  In a call of [run] that returns (no two of my tanks and ships
    having the same uid), a tank of mine that the agent has not seen before,
    or that is stopped, receives no command, even if it has not moved; and a
    ship of mine that the agent has not seen before, or that has moved since
    the position recorded for it, receives no command. *)
Theorem idle_vehicles_get_no_command :
  forall arith random unpack goto_raises (t dt : Q) (info : Info) game_map
         (w : World) (myinfo : Team),
    let evs := issued (run arith random unpack goto_raises t dt info game_map) w in
    outcome (run arith random unpack goto_raises t dt info game_map) w = Ok tt ->
    info_get info (team (self w)) = Some myinfo ->
    NoDup (tank_uids myinfo ++ ship_uids myinfo) ->
    (forall v, In v (default [] (tanks myinfo)) ->
       previous_positions (self w) !! tank_uid v = None \/ stopped v = true ->
       List.filter (on_tank (tank_uid v)) evs = [])
    /\ (forall v, In v (default [] (ships myinfo)) ->
         previous_positions (self w) !! ship_uid v = None
         \/ (exists prev,
               previous_positions (self w) !! ship_uid v = Some prev
               /\ position_eqb (ship_position v) prev = false) ->
         List.filter (on_ship (ship_uid v)) evs = []).
Proof.
  intros arith random unpack goto_raises t dt info game_map w myinfo evs Hok Hme Hnd.
  split.
  - intros v Hv Hidle.
    destruct (run_on_tank arith random unpack goto_raises t dt info game_map w
                myinfo v Hok Hme Hv Hnd) as [n [Hevs _]].
    fold evs in Hevs. rewrite Hevs. unfold tank_decision.
    destruct Hidle as [-> | ->]; [reflexivity|].
    now destruct (previous_positions (self w) !! tank_uid v).
  - intros v Hv Hidle.
    destruct (run_on_ship arith random unpack goto_raises t dt info game_map w
                myinfo v Hok Hme Hv Hnd) as [n [Hevs _]].
    fold evs in Hevs. rewrite Hevs. unfold ship_decision.
    destruct Hidle as [-> | [prev [-> ->]]]; reflexivity.
Qed.

Lemma idle_vehicles_get_no_command_witness :
  List.filter (on_tank 8)
    (issued (run exact_arith Sample.half plain_object goto_succeeds 0 1 Sample.garage [])
            (fresh Sample.saw_parked)) = [].
Proof.
  apply (proj1 (idle_vehicles_get_no_command exact_arith Sample.half plain_object
                  goto_succeeds 0 1 Sample.garage [] (fresh Sample.saw_parked)
                  (mkTeam (Some [Sample.home]) (Some [Sample.parked]) None None)
                  eq_refl eq_refl
                  ltac:(apply NoDup_ListNoDup; repeat constructor; simpl; tauto))
           Sample.parked).
  - now left.
  - now right.
Defined.

(** ** Ties in the sorts *)

Lemma forallb_false {A} (f : A -> bool) (l : list A) :
  forallb f l = false -> exists z, In z l /\ f z = false.
Proof.
  induction l as [|x l IH]; simpl; [discriminate|].
  destruct (f x) eqn:E; simpl.
  - intros H. destruct (IH H) as [z [Hz Hf]]. exists z. split; [now right | exact Hf].
  - intros _. exists x. split; [now left | exact E].
Qed.

Section Ties.

Context {A : Type} (key : A -> Q).

Lemma last_cons_cons (x y : A) (l : list A) : last (x :: y :: l) = last (y :: l).
Proof. reflexivity. Qed.

Lemma insert_by_not_nil (x : A) (l : list A) : insert_by key x l <> [].
Proof.
  destruct l as [|y l]; simpl; [discriminate|].
  destruct (Qlt_bool (key y) (key x)); discriminate.
Qed.

Lemma last_insert_by (x : A) (s : list A) :
  last (insert_by key x s)
  = if forallb (fun y => Qlt_bool (key y) (key x)) s then Some x else last s.
Proof.
  induction s as [|y s IH]; simpl; [reflexivity|].
  destruct (Qlt_bool (key y) (key x)) eqn:E; simpl.
  - destruct (insert_by key x s) as [|z s'] eqn:Hi.
    + now apply insert_by_not_nil in Hi.
    + rewrite last_cons_cons, IH.
      destruct (forallb _ s) eqn:Hf; [reflexivity|].
      destruct s as [|z' s'']; [discriminate Hf | reflexivity].
  - reflexivity.
Qed.

Lemma last_sorted_latest (l : list A) (m : A) :
  last (sorted key l) = Some m -> latest_greatest key l m.
Proof.
  revert m. induction l as [|x l IH]; intros m; simpl; [discriminate|].
  rewrite last_insert_by.
  destruct (forallb _ (sorted key l)) eqn:Hf.
  - intros H. injection H as <-. exists [], l. split; [reflexivity|].
    split; [intros y []|].
    intros y Hy. rewrite forallb_forall in Hf.
    apply Qlt_bool_iff, Hf. now apply in_sorted.
  - intros Hm. destruct (IH m Hm) as [l1 [l2 [-> [H1 H2]]]].
    exists (x :: l1), l2. split; [reflexivity|]. split; [|exact H2].
    intros y [<-|Hy]; [|now apply H1].
    assert (Hex : exists z, In z (l1 ++ m :: l2) /\ (key x <= key z)%Q).
    { destruct (forallb_false (fun y => Qlt_bool (key y) (key x))
                  (sorted key (l1 ++ m :: l2)) Hf) as [z [Hz Hlt]].
      exists z. split; [now apply in_sorted in Hz|].
      now apply Qlt_bool_false_iff. }
    destruct Hex as [z [Hz Hxz]].
    apply Qle_trans with (y := key z); [exact Hxz|].
    apply in_app_or in Hz as [Hz|[<-|Hz]].
    + now apply H1.
    + apply Qle_refl.
    + apply Qlt_le_weak. now apply H2.
Qed.

Lemma head_insert_by (x : A) (s : list A) :
  head (insert_by key x s)
  = match s with
    | [] => Some x
    | y :: _ => if Qlt_bool (key y) (key x) then Some y else Some x
    end.
Proof.
  destruct s as [|y s]; simpl; [reflexivity|].
  now destruct (Qlt_bool (key y) (key x)).
Qed.

Lemma head_sorted_earliest (l : list A) (m : A) :
  head (sorted key l) = Some m -> earliest_least key l m.
Proof.
  revert m. induction l as [|x l IH]; intros m; simpl; [discriminate|].
  rewrite head_insert_by.
  destruct (sorted key l) as [|y s] eqn:Hs.
  - intros H. injection H as <-.
    apply (f_equal length) in Hs. rewrite length_sorted in Hs.
    destruct l; [|discriminate].
    exists [], []. split; [reflexivity|]. split; intros y [].
  - destruct (IH y eq_refl) as [l1 [l2 [-> [H1 H2]]]].
    destruct (Qlt_bool (key y) (key x)) eqn:E.
    + intros H. injection H as <-.
      exists (x :: l1), l2. split; [reflexivity|]. split; [|exact H2].
      intros z [<-|Hz]; [now apply Qlt_bool_iff | now apply H1].
    + intros H. injection H as <-. apply Qlt_bool_false_iff in E.
      exists [], (l1 ++ y :: l2). split; [reflexivity|]. split; [intros z []|].
      intros z Hz. apply Qle_trans with (y := key y); [exact E|].
      apply in_app_or in Hz as [Hz|[<-|Hz]].
      * apply Qlt_le_weak. now apply H1.
      * apply Qle_refl.
      * now apply H2.
Qed.

End Ties.

(** ** A tank that moves *)

Lemma in_enemy_bases (me : string) (info : Info) (b : Base) :
  In b (enemy_bases me info) ->
  exists name tm, In (name, tm) info /\ name <> me /\ In b (get_bases tm).
Proof.
  unfold enemy_bases. intros H.
  apply List.in_flat_map in H as [name [Hname H]].
  apply List.in_flat_map in H as [b' [Hb' H]].
  destruct (String.eqb_spec name me) as [Heq|Hne]; simpl in H; [destruct H|].
  destruct H as [<-|[]].
  destruct (info_get_some info name Hname) as [tm [Hget Htm]].
  rewrite Hget in Hb'. simpl in Hb'. exists name, tm. auto.
Qed.

(** X11.  In a call of [run] that returns (no two of my tanks and ships
    having the same uid), a tank of mine that is not stopped and has moved
    since the position recorded for it is sent to an enemy base with the
    least squared distance to it, the first one in the order of [info] when
    several are as near, with the arguments that unpacking that base gives;
    the distances are compared as the arithmetic of the host computes them,
    so that two bases whose distances it rounds to the same number are as
    near.  The tank receives no command when that base does not unpack to two
    arguments, and none when no enemy has a base. *)
Theorem moving_tank_goes_to_first_nearest :
  forall arith random unpack goto_raises (t dt : Q) (info : Info) game_map
         (w : World) (myinfo : Team) (v : Tank) (prev : Position),
    let me := team (self w) in
    let evs := List.filter (on_tank (tank_uid v))
                 (issued (run arith random unpack goto_raises t dt info game_map) w) in
    outcome (run arith random unpack goto_raises t dt info game_map) w = Ok tt ->
    info_get info me = Some myinfo ->
    In v (default [] (tanks myinfo)) ->
    NoDup (tank_uids myinfo ++ ship_uids myinfo) ->
    previous_positions (self w) !! tank_uid v = Some prev ->
    stopped v = false ->
    position_eqb (tank_position v) prev = false ->
    (enemy_bases me info = [] -> evs = [])
    /\ (enemy_bases me info <> [] ->
        exists b,
          earliest_least (dist2 arith v) (enemy_bases me info) b
          /\ (exists name tm,
                In (name, tm) info /\ name <> me /\ In b (get_bases tm))
          /\ evs = match unpack b with
                   | Some [x; y] => [tank_goto v x y]
                   | _ => []
                   end).
Proof.
  intros arith random unpack goto_raises t dt info game_map w myinfo v prev me evs
    Hok Hme Hv Hnd Hprev Hst Hmoved.
  destruct (run_on_tank arith random unpack goto_raises t dt info game_map w
              myinfo v Hok Hme Hv Hnd) as [n [Hevs _]].
  fold evs in Hevs. fold me in Hevs. rewrite Hprev in Hevs.
  unfold tank_decision in Hevs. rewrite Hst, Hmoved in Hevs. simpl in Hevs.
  split.
  - intros Hnone. rewrite Hnone in Hevs. exact Hevs.
  - intros Hsome.
    destruct (head (sorted (dist2 arith v) (enemy_bases me info))) as [b|] eqn:Hhead.
    + exists b. pose proof (head_sorted_earliest _ _ _ Hhead) as Hb.
      split; [exact Hb|]. split; [|exact Hevs].
      apply (in_enemy_bases me info b).
      destruct Hb as [l1 [l2 [-> _]]]. apply in_or_app. right. now left.
    + exfalso. apply Hsome.
      destruct (sorted (dist2 arith v) (enemy_bases me info)) eqn:Hs; [|discriminate].
      apply (f_equal length) in Hs. rewrite length_sorted in Hs.
      now destruct (enemy_bases me info).
Qed.

Lemma moving_tank_goes_to_first_nearest_witness :
  List.filter (on_tank 7)
    (issued (run exact_arith Sample.half as_pair goto_succeeds 0 1 Sample.crossroads [])
            (fresh Sample.saw_rover))
  = [tank_goto Sample.rover 0 0]
  /\ exists b,
       earliest_least (dist2 exact_arith Sample.rover)
         (enemy_bases CREATOR Sample.crossroads) b
       /\ (exists name tm,
             In (name, tm) Sample.crossroads /\ name <> CREATOR
             /\ In b (get_bases tm))
       /\ List.filter (on_tank 7)
            (issued (run exact_arith Sample.half as_pair goto_succeeds 0 1
                         Sample.crossroads []) (fresh Sample.saw_rover))
          = match as_pair b with
            | Some [x; y] => [tank_goto Sample.rover x y]
            | _ => []
            end.
Proof.
  split; [reflexivity|].
  apply (moving_tank_goes_to_first_nearest exact_arith Sample.half as_pair goto_succeeds
           0 1 Sample.crossroads [] (fresh Sample.saw_rover)
           (mkTeam (Some [Sample.home]) (Some [Sample.rover]) None
                   (Some [Sample.my_jet]))
           Sample.rover (0, 0)%Q).
  - reflexivity.
  - reflexivity.
  - now left.
  - apply NoDup_ListNoDup. repeat constructor. simpl. tauto.
  - reflexivity.
  - reflexivity.
  - reflexivity.
  - discriminate.
Defined.

(** ** Ties between enemies *)

(** X12.  The target of the jets is fixed by the order of [info] when
    scores are equal: the enemy team aimed at is the last one in the order of
    [info] among those with the greatest [determine_power], and the base
    aimed at is the last one of its list among those with the greatest
    [determine_base_power]; the scores are compared as the arithmetic of the
    host computes them, so that two scores that it rounds to the same number
    are equal. *)
Theorem jet_target_takes_the_last_of_equals :
  forall (arith : Arith) (me : string) (info : Info) (p : Position),
    jet_target arith me info = Some p ->
    exists strongest,
      latest_greatest (determine_power arith) (enemies me info) strongest
      /\ ((get_bases strongest = [] /\ p = (75, 75)%Q)
          \/ exists sb,
               latest_greatest (determine_base_power arith)
                               (get_bases strongest) sb
               /\ p = (base_x sb, base_y sb)).
Proof.
  intros arith me info p. unfold jet_target. fold (enemies me info).
  destruct (1 <? length info)%nat; [|discriminate].
  destruct (last (sorted (determine_power arith) (enemies me info)))
    as [strongest|] eqn:Hlast; [|discriminate].
  apply last_sorted_latest in Hlast.
  intros Hp. exists strongest. split; [exact Hlast|].
  unfold get_bases. destruct (bases strongest) as [bs|]; simpl.
  - destruct (last (sorted (determine_base_power arith) bs)) as [sb|] eqn:Hsb.
    + right. exists sb. split; [now apply last_sorted_latest | congruence].
    + left. split; [|congruence].
      apply last_None, (f_equal length) in Hsb.
      rewrite length_sorted in Hsb. now destruct bs.
  - left. split; [reflexivity | congruence].
Qed.

Lemma jet_target_takes_the_last_of_equals_witness :
  (determine_power exact_arith (mkTeam (Some [Sample.hut_a]) None None None)
   == determine_power exact_arith (mkTeam (Some [Sample.hut_c]) None None None))%Q
  /\ exists strongest,
       latest_greatest (determine_power exact_arith)
                       (enemies CREATOR Sample.twins) strongest
       /\ ((get_bases strongest = [] /\ (9, 9)%Q = (75, 75)%Q)
           \/ exists sb,
                latest_greatest (determine_base_power exact_arith)
                                (get_bases strongest) sb
                /\ (9, 9)%Q = (base_x sb, base_y sb)).
Proof.
  split; [reflexivity|].
  apply (jet_target_takes_the_last_of_equals exact_arith CREATOR Sample.twins
           (9, 9)%Q).
  reflexivity.
Defined.

(** ** Keys that rounding makes equal *)

(** Where the arithmetic rounds to 53 bits the two scores of
    [Sample.giants] are the same number and the jets go to the base of the
    later team; where it does not round they go to the base of the earlier
    one, whose score is greater by 1. *)
Lemma rounded_scores_tie :
  determine_power rounding_arith (mkTeam (Some [Sample.giant_a]) None None None)
  = determine_power rounding_arith (mkTeam (Some [Sample.giant_b]) None None None)
  /\ jet_target rounding_arith CREATOR Sample.giants = Some (2, 2)%Q
  /\ jet_target exact_arith CREATOR Sample.giants = Some (1, 1)%Q.
Proof. split; [|split]; vm_compute; reflexivity. Qed.

(** Likewise the two distances of [Sample.far_away]: where the arithmetic
    rounds the tank is sent to the earlier base, where it does not to the
    nearer one. *)
Lemma rounded_distances_tie :
  dist2 rounding_arith Sample.scout Sample.beacon_a
  = dist2 rounding_arith Sample.scout Sample.beacon_b
  /\ List.filter (on_tank 9)
       (issued (run rounding_arith Sample.half as_pair goto_succeeds 0 1
                    Sample.far_away []) (fresh Sample.saw_scout))
     = [tank_goto Sample.scout 100000000 1]
  /\ List.filter (on_tank 9)
       (issued (run exact_arith Sample.half as_pair goto_succeeds 0 1
                    Sample.far_away []) (fresh Sample.saw_scout))
     = [tank_goto Sample.scout 100000000 0].
Proof. split; [|split]; vm_compute; reflexivity. Qed.

(** ** The draws of a call *)

Lemma draw_count_app (l1 l2 : list event) :
  draw_count (l1 ++ l2) = (draw_count l1 + draw_count l2)%nat.
Proof. unfold draw_count. now rewrite List.filter_app, length_app. Qed.

#[export] Instance tallied_preorder : PreOrder tallied.
Proof.
  split.
  - intros w. exists []. split; [now rewrite app_nil_r|].
    unfold draw_count. simpl. lia.
  - intros w1 w2 w3 [e1 [T1 D1]] [e2 [T2 D2]]. exists (e1 ++ e2). split.
    + now rewrite T2, T1, app_assoc.
    + rewrite draw_count_app. lia.
Qed.

Lemma tallied_decide_base random table (b : Base) (w : World) :
  tallied w (decide_base random table b w).
Proof.
  eexists. split; [apply trace_decide_base|].
  unfold decide_base, perform.
  destruct (table b _ _) as [[]|]; unfold draw_count; simpl; lia.
Qed.

Lemma tallied_decide_bases random table (bs : list Base) (w : World) :
  tallied w (decide_bases random table bs w).
Proof.
  unfold decide_bases. revert w. induction bs as [|b bs IH]; intros w; simpl.
  - reflexivity.
  - transitivity (decide_base random table b w);
      [apply tallied_decide_base | apply IH].
Qed.

Lemma tallied_control arith random unpack goto_raises (info : Info) :
  respects tallied (control arith random unpack goto_raises info).
Proof.
  unfold control.
  papply respects_bind; [papply respects_get_self | intros a].
  papply respects_bind; [papply respects_info_getitem | intros myinfo].
  papply respects_bind; [papply respects_first_target | intros _].
  papply respects_bind; [|intros _; papply respects_bind; [|intros _]].
  - papply respects_for_key. intros v w. unfold after.
    rewrite tank_step_effect. simpl. eexists. split; reflexivity.
  - papply respects_for_key. intros v w. unfold after.
    rewrite ship_step_effect. simpl. eexists. split; reflexivity.
  - papply respects_for_key. intros v w.
    destruct (jet_target arith (team a) info) as [[x y]|]; unfold after; simpl.
    + exists [jet_goto v x y]. split; [reflexivity|].
      unfold draw_count. simpl. lia.
    + reflexivity.
Qed.

(** X13.  A call of [run] draws from the random source exactly once for
    each heading it hands to the host, whether it returns or raises: the
    number of draws made during the call is the number of commands issued
    that carry a heading. *)
Theorem one_draw_for_each_heading :
  forall arith random unpack goto_raises (t dt : Q) (info : Info) game_map
         (w : World),
    let call := run arith random unpack goto_raises t dt info game_map in
    ndraws (after call w) = (ndraws w + draw_count (issued call w))%nat
    /\ draw_count (issued call w)
       = length (List.filter (fun e => bool_decide (is_Some (heading_of e)))
                             (issued call w)).
Proof.
  intros arith random unpack goto_raises t dt info game_map w call.
  split.
  - assert (H : tallied w (after call w)).
    { unfold call, after. rewrite run_shape.
      destruct (my_bases (self w) info) as [bs|]; [|reflexivity].
      transitivity (decide_bases random (table_at t) bs w).
      - apply tallied_decide_bases.
      - apply tallied_control. }
    destruct H as [evs [Ht Hd]].
    now rewrite (issued_app _ _ evs Ht).
  - unfold draw_count. f_equal. apply List.filter_ext.
    intros e. now destruct e.
Qed.

(** ** Tanks after ships, and the cap of the mines *)

Lemma table_tank (t : Q) (b : Base) (nt ns : Z) :
  table_at t b nt ns = Some a_tank -> nt < 2 \/ 6 <= ns.
Proof.
  table_cases_tac t; intros H; try discriminate H;
    repeat match goal with
           | H : _ && _ = true |- _ => apply andb_prop in H as [? ?]
           | H : (_ <? _) = true |- _ => apply Z.ltb_lt in H
           | H : (_ <=? _) = true |- _ => apply Z.leb_le in H
           end; lia.
Qed.

Lemma staged_decide_base random (t : Q) (b : Base) (w : World) :
  staged w -> staged (decide_base random (table_at t) b w).
Proof.
  intros H u. specialize (H u).
  pose proof (table_tank t b (count (ntanks (self w)) (base_uid b))
                (count (nships (self w)) (base_uid b))) as Ct.
  unfold decide_base, perform.
  destruct (table_at t b _ _) as [[]|]; simpl;
    rewrite ?count_bump, !count_register_counter; try exact H.
  - specialize (Ct eq_refl).
    destruct (Z.eqb_spec (base_uid b) u) as [<-|]; lia.
  - destruct (Z.eqb_spec (base_uid b) u) as [<-|]; lia.
Qed.

Lemma staged_run arith random unpack goto_raises (t dt : Q) (info : Info) game_map
    (w : World) :
  staged w -> staged (after (run arith random unpack goto_raises t dt info game_map) w).
Proof.
  intros H.
  assert (Hshape := run_shape arith random unpack goto_raises t dt info game_map w).
  unfold after. rewrite Hshape.
  destruct (my_bases (self w) info) as [bs|]; [|exact H].
  destruct (same_counters_control arith random unpack goto_raises info
              (decide_bases random (table_at t) bs w)) as [Ht Hs].
  intros u. unfold after in Ht, Hs. rewrite Ht, Hs.
  clear Ht Hs Hshape. revert u. fold (staged (decide_bases random (table_at t) bs w)).
  unfold decide_bases. revert w H.
  induction bs as [|b bs IH]; intros w H; simpl; [exact H|].
  apply IH. now apply staged_decide_base.
Qed.

(** X14.  Tanks after ships: on an agent on which every base uid has at
    most 2 tanks built or at least 6 ships built, as on a new agent, this
    still holds after any sequence of calls of [run]: in no phase is a third
    tank built at a base before its sixth ship. *)
Theorem third_tank_after_sixth_ship :
  forall arith random unpack goto_raises (calls : list call) (w : World),
    staged w -> staged (run_all arith random unpack goto_raises calls w).
Proof.
  intros arith random unpack goto_raises calls. unfold run_all.
  induction calls as [|c calls IH]; intros w H; simpl.
  - exact H.
  - apply IH. now apply staged_run.
Qed.

Lemma third_tank_after_sixth_ship_witness :
  staged (run_all exact_arith Sample.half plain_object goto_succeeds Sample.twelve_ticks
                  (fresh init)).
Proof.
  apply (third_tank_after_sixth_ship exact_arith Sample.half plain_object goto_succeeds
           Sample.twelve_ticks (fresh init)).
  intros u. left. unfold count. simpl. rewrite lookup_empty. simpl. lia.
Defined.

Lemma table_mine (t : Q) (b : Base) (nt ns : Z) :
  table_at t b nt ns = Some a_mine ->
  (t < 360)%Q /\ mines b < 3 /\ ((180 <= t)%Q -> mines b < 2).
Proof.
  unfold table_at.
  destruct (Qlt_bool t 180) eqn:E1; [|destruct (Qlt_bool t 360) eqn:E2].
  - unfold early_choice. destruct (mines b <? 3) eqn:Hm.
    + intros _. apply Qlt_bool_iff in E1. apply Z.ltb_lt in Hm.
      split; [|split; [exact Hm|]].
      * apply Qlt_trans with (y := 180%Q); [exact E1 | reflexivity].
      * intros H. exfalso. exact (Qlt_not_le _ _ E1 H).
    + repeat match goal with
             | |- context [if ?c then _ else _] => destruct c
             end; discriminate.
  - unfold midgame_choice. destruct (mines b <? 2) eqn:Hm.
    + intros _. apply Qlt_bool_iff in E2. apply Z.ltb_lt in Hm.
      split; [exact E2|]. split; [lia | intros _; exact Hm].
    + repeat match goal with
             | |- context [if ?c then _ else _] => destruct c
             end; discriminate.
  - unfold lategame_choice. destruct (affordable b "jet"); discriminate.
Qed.

(** X15.  Mines are capped: a call of [run] issues build_mine only below
    an elapsed time of 360, only on a base that has fewer than 3 mines, and
    from 180 on only on a base that has fewer than 2. *)
Theorem no_mine_beyond_the_cap :
  forall arith random unpack goto_raises (t dt : Q) (info : Info) game_map
         (w : World) (b : Base),
    In (build_mine b) (issued (run arith random unpack goto_raises t dt info game_map) w) ->
    (t < 360)%Q /\ mines b < 3 /\ ((180 <= t)%Q -> mines b < 2).
Proof.
  intros arith random unpack goto_raises t dt info game_map w b He.
  destruct (my_bases (self w) info) as [bs|] eqn:Hbs.
  - destruct (run_split arith random unpack goto_raises t dt info game_map w bs
                (fun e => forall b, e = build_mine b ->
                            (t < 360)%Q /\ mines b < 3
                            /\ ((180 <= t)%Q -> mines b < 2))
                Hbs) as [evs1 [evs2 [Hev [F1 F2]]]].
    { intros b' r nt ns k _ Hk b0 H0. destruct k; try discriminate H0.
      injection H0 as <-. now apply (table_mine t b' nt ns). }
    rewrite Hev in He. apply in_app_or in He as [He|He].
    + rewrite Forall_forall in F1.
      now apply (F1 _ (proj2 (list_elem_of_In _ _) He) b).
    + rewrite Forall_forall in F2. exfalso.
      apply (F2 _ (proj2 (list_elem_of_In _ _) He)). exact I.
  - destruct (run_without_bases arith random unpack goto_raises t dt info game_map
                w Hbs) as [_ [Hnone _]].
    rewrite Hnone in He. destruct He.
Qed.

Lemma no_mine_beyond_the_cap_witness :
  (0 < 360)%Q /\ mines Sample.home < 3 /\ ((180 <= 0)%Q -> mines Sample.home < 2).
Proof.
  apply (no_mine_beyond_the_cap exact_arith Sample.half plain_object goto_succeeds 0 1
           Sample.scenario [] (fresh init) Sample.home).
  change (In (build_mine Sample.home) [build_mine Sample.home]).
  now left.
Defined.

(** ** The receivers of the commands *)

Lemma on_base_command (b : Base) (r : Q) (k : kind) : on_base b (command b r k).
Proof. now destruct k. Qed.

Lemma jet_commands_of_jets (target : option Position) (field : option (list Jet))
    (e : event) :
  In e (jet_commands target field) ->
  exists v, In v (default [] field) /\ of_jet v e.
Proof.
  unfold jet_commands, gotos. destruct target as [p|]; [|intros []].
  intros H. apply in_map_iff in H as [v [<- Hv]]. exists v. now split.
Qed.

(** X16.  Every command of a call of [run] is addressed to a base, a tank,
    a ship or a jet of my own record: the enemy records are read, to choose
    targets, and nothing of theirs is commanded. *)
Theorem commands_go_to_my_own :
  forall arith random unpack goto_raises (t dt : Q) (info : Info) game_map
         (w : World) (e : event),
    In e (issued (run arith random unpack goto_raises t dt info game_map) w) ->
    exists myinfo,
      info_get info (team (self w)) = Some myinfo /\ addressed_to myinfo e.
Proof.
  intros arith random unpack goto_raises t dt info game_map w e He.
  destruct (my_bases (self w) info) as [bs|] eqn:Hbs.
  - assert (Hshape := run_shape arith random unpack goto_raises t dt info game_map w).
    rewrite Hbs, control_shape, team_decide_bases in Hshape.
    unfold my_bases in Hbs.
    destruct (info_get info (team (self w))) as [myinfo|] eqn:Hme;
      [|discriminate].
    exists myinfo. split; [reflexivity|].
    set (w1 := decide_bases random (table_at t) bs w) in *.
    destruct (frame_decide_bases random (table_at t)
                (fun e => exists b, In b bs /\ on_base b e) bs) with (w := w)
      as [[B [HB FB]] _ _ _ _].
    { intros b r nt ns k Hb _. exists b. split; [exact Hb | apply on_base_command]. }
    fold w1 in HB.
    assert (Hmine : forall e, In e B -> addressed_to myinfo e).
    { intros e' He'. left. unfold get_bases. rewrite Hbs. simpl.
      rewrite Forall_forall in FB. now apply FB, list_elem_of_In. }
    destruct (outcome (first_target (team (self w)) info) w1) as [tg|e0].
    + destruct (frame_after_tanks arith random unpack goto_raises info myinfo w1)
        as [[T [HT FT]] _ _ _ _].
      destruct (frame_after_ships arith random unpack goto_raises info myinfo w1)
        as [[S [HS FS]] _ _ _ _].
      rewrite (issued_app _ _
                 (B ++ T ++ S
                  ++ jet_commands (jet_target arith (team (self w1)) info)
                                  (jets myinfo))) in He.
      * apply in_app_or in He as [He|He]; [now apply Hmine|].
        apply in_app_or in He as [He|He].
        { right. left. rewrite Forall_forall in FT.
          now apply FT, list_elem_of_In. }
        apply in_app_or in He as [He|He].
        { right. right. left. rewrite Forall_forall in FS.
          now apply FS, list_elem_of_In. }
        right. right. right. now apply (jet_commands_of_jets _ _ _ He).
      * unfold after. rewrite Hshape. simpl. rewrite after_jets_effect. simpl.
        rewrite HS, HT, HB. now rewrite <- !app_assoc.
    + rewrite (issued_app _ _ B) in He; [now apply Hmine|].
      unfold after. now rewrite Hshape.
  - destruct (run_without_bases arith random unpack goto_raises t dt info game_map
                w Hbs) as [_ [Hnone _]].
    rewrite Hnone in He. destruct He.
Qed.

Lemma commands_go_to_my_own_witness :
  exists myinfo,
    info_get Sample.parade (team (self (fresh Sample.saw_parade))) = Some myinfo
    /\ addressed_to myinfo (jet_goto Sample.my_jet 10 10).
Proof.
  apply (commands_go_to_my_own exact_arith Sample.half plain_object goto_succeeds 0 1
           Sample.parade [] (fresh Sample.saw_parade)
           (jet_goto Sample.my_jet 10 10)).
  change (In (jet_goto Sample.my_jet 10 10)
             [build_tank Sample.barracks (360 * Sample.half 0%nat)%Q;
              tank_set_heading Sample.rover (Sample.half 1%nat * 360)%Q;
              ship_convert_to_base Sample.far_ship;
              ship_set_heading Sample.near_ship (Sample.half 2%nat * 360)%Q;
              jet_goto Sample.my_jet 10 10]).
  do 4 right. now left.
Defined.

(** ** A tank that is stuck *)

(** X17.  In a call of [run] that returns (no two of my tanks and ships
    having the same uid, draws in [0, 1)), a tank of mine that is not stopped
    and is at the position recorded for it receives exactly one command, a
    set_heading with a value in [0, 360), and no goto, whether or not an
    enemy base exists. *)
Theorem stuck_tank_turns :
  forall arith random unpack goto_raises (t dt : Q) (info : Info) game_map
         (w : World) (myinfo : Team) (v : Tank) (prev : Position),
    (forall i, (0 <= random i < 1)%Q) ->
    outcome (run arith random unpack goto_raises t dt info game_map) w = Ok tt ->
    info_get info (team (self w)) = Some myinfo ->
    In v (default [] (tanks myinfo)) ->
    NoDup (tank_uids myinfo ++ ship_uids myinfo) ->
    previous_positions (self w) !! tank_uid v = Some prev ->
    stopped v = false ->
    position_eqb (tank_position v) prev = true ->
    exists h,
      List.filter (on_tank (tank_uid v))
        (issued (run arith random unpack goto_raises t dt info game_map) w)
      = [tank_set_heading v h]
      /\ (0 <= h < 360)%Q.
Proof.
  intros arith random unpack goto_raises t dt info game_map w myinfo v prev
    Hrnd Hok Hme Hv Hnd Hprev Hst Hstuck.
  destruct (run_on_tank arith random unpack goto_raises t dt info game_map w
              myinfo v Hok Hme Hv Hnd) as [n [Hevs _]].
  rewrite Hprev in Hevs. unfold tank_decision in Hevs.
  rewrite Hst, Hstuck in Hevs. simpl in Hevs.
  eexists. split; [exact Hevs|]. apply heading_range, Hrnd.
Qed.

Lemma stuck_tank_turns_witness :
  exists h,
    List.filter (on_tank 7)
      (issued (run exact_arith Sample.half as_pair goto_succeeds 0 1 Sample.patrol [])
              (fresh Sample.at_rover))
    = [tank_set_heading Sample.rover h]
    /\ (0 <= h < 360)%Q.
Proof.
  apply (stuck_tank_turns exact_arith Sample.half as_pair goto_succeeds 0 1 Sample.patrol []
           (fresh Sample.at_rover)
           (mkTeam (Some [Sample.home]) (Some [Sample.rover]) None None)
           Sample.rover (3, 4)%Q).
  - intros i. split; [discriminate | reflexivity].
  - reflexivity.
  - reflexivity.
  - now left.
  - apply NoDup_ListNoDup. repeat constructor. simpl. tauto.
  - reflexivity.
  - reflexivity.
  - reflexivity.
Defined.
